(** * NIM gateway (src/main/im/nimGateway.ts): a shallow embedding

    The gateway keeps one NetEase IM account connected, filters and
    de-duplicates inbound events, and sends replies as chunked text and
    media messages.  This file embeds the functions of [nimGateway.ts]
    (and the part of [nimMedia.ts] they call) and proves or refutes the
    properties the design document states about them.

    Conventions.
    - A JavaScript string is the list of its UTF-16 code units ([list N]);
      [length] is the JavaScript [.length].
    - A JavaScript number that the code only uses as an integer is a [Z].
    - [null]/[undefined] is [None].
    - A method of the class is a computation in the monad [M]: it reads
      and writes the heap (the gateway object and the module-level dedup
      map), appends to a trace of externally visible effects, and
      completes normally or by throwing.
    - Objects of the native SDK and of Node carry their own (fixed)
      responses; the code is verified against every such object. *)

From Stdlib Require Import ZArith NArith Lia Ascii String.
From stdpp Require Import gmap list.

Local Open Scope Z_scope.

(** ** JavaScript strings *)

Module JS.

(** A string literal of the source, as code units (ASCII only). *)
Definition lit (s : string) : list N :=
  List.map N_of_ascii (list_ascii_of_string s).

(** [.length] of a string or an array. *)
Definition len {A} (s : list A) : Z := Z.of_nat (length s).

(** ECMAScript WhiteSpace and LineTerminator code points: what
    [trim], [trimStart] and [parseInt] strip. *)
Definition is_ws (c : N) : bool :=
  (N.leb 9 c && N.leb c 13) || N.eqb c 32 || N.eqb c 160 || N.eqb c 5760
  || (N.leb 8192 c && N.leb c 8202) || N.eqb c 8232 || N.eqb c 8233
  || N.eqb c 8239 || N.eqb c 8287 || N.eqb c 12288 || N.eqb c 65279.

Fixpoint trimStart (s : list N) : list N :=
  match s with
  | c :: s' => if is_ws c then trimStart s' else s
  | [] => []
  end.

Definition trimEnd (s : list N) : list N := rev (trimStart (rev s)).

Definition trim (s : list N) : list N := trimEnd (trimStart s).

(** The leading white space that [trimStart] removes. *)
Fixpoint leadingWs (s : list N) : list N :=
  match s with
  | c :: s' => if is_ws c then c :: leadingWs s' else []
  | [] => []
  end.

(** [s.split(sep)] for a one-code-unit separator. *)
Fixpoint split (sep : N) (s : list N) : list (list N) :=
  match s with
  | [] => [[]]
  | c :: s' =>
      if N.eqb c sep then [] :: split sep s'
      else match split sep s' with
           | p :: ps => (c :: p) :: ps
           | [] => [[c]]
           end
  end.

(** Truthiness of a string value. *)
Definition truthy (s : list N) : bool :=
  match s with [] => false | _ => true end.

(** Truthiness of a possibly undefined string property. *)
Definition truthy_opt (o : option (list N)) : bool :=
  match o with Some s => truthy s | None => false end.

(** [a || b] on possibly undefined strings. *)
Definition or_else (a b : option (list N)) : option (list N) :=
  if truthy_opt a then a else b.

(** [String(v)] where [v] is a string or the final [''] of an [||] chain. *)
Definition String_of (o : option (list N)) : list N :=
  match o with Some s => s | None => [] end.

(** [s.lastIndexOf(ch, position)] for a one-code-unit search string:
    the greatest index [i <= position] (clamped at 0) with [s[i] = ch],
    or [-1]. *)
Fixpoint lastIndexOf_from (s : list N) (ch : N) (i limit acc : Z) : Z :=
  match s with
  | [] => acc
  | c :: s' =>
      lastIndexOf_from s' ch (i + 1) limit
        (if N.eqb c ch && (i <=? limit) then i else acc)
  end.

Definition lastIndexOf (s : list N) (ch : N) (position : Z) : Z :=
  lastIndexOf_from s ch 0 (Z.max position 0) (-1).

(** The relative index of [slice]: negative counts from the end. *)
Definition rel_index (n i : Z) : Z :=
  if i <? 0 then Z.max (n + i) 0 else Z.min i n.

(** [s.slice(start, end)]. *)
Definition slice (s : list N) (start end_ : Z) : list N :=
  let from := rel_index (len s) start in
  let to := rel_index (len s) end_ in
  take (Z.to_nat (to - from)) (drop (Z.to_nat from) s).

(** [s.slice(start)]. *)
Definition slice_from (s : list N) (start : Z) : list N :=
  slice s start (len s).

Definition is_digit (c : N) : bool := N.leb 48 c && N.leb c 57.

Fixpoint digits_value (acc : Z) (s : list N) : Z :=
  match s with
  | c :: s' =>
      if is_digit c then digits_value (10 * acc + (Z.of_N c - 48)) s'
      else acc
  | [] => acc
  end.

(** [parseInt(s, 10)]; [None] is [NaN]. *)
Definition parseInt10 (s : list N) : option Z :=
  let s1 := trimStart s in
  let '(neg, s2) :=
    match s1 with
    | 45%N :: r => (true, r)
    | 43%N :: r => (false, r)
    | _ => (false, s1)
    end in
  match s2 with
  | c :: _ =>
      if is_digit c
      then Some (if neg then - digits_value 0 s2 else digits_value 0 s2)
      else None
  | [] => None
  end.

(** Decimal digits of a non-negative integer, as a template literal
    prints it. *)
Definition digit_char (d : Z) : N := Z.to_N (48 + d).

Fixpoint decimal_fuel (fuel : nat) (n : Z) (acc : list N) : list N :=
  match fuel with
  | O => acc
  | S fuel' =>
      if n <? 10 then digit_char n :: acc
      else decimal_fuel fuel' (n / 10) (digit_char (n mod 10) :: acc)
  end.

Definition decimal (n : Z) : list N := decimal_fuel (Z.to_nat n + 1) n [].

End JS.

Import JS.

(** ** Text chunking *)

(** Maximum characters per text message. *)
Definition MAX_MESSAGE_LENGTH : Z := 5000.

(** The [while] loop of [splitMessageIntoChunks].  [chunks] is the array
    being pushed to.  One unit of [fuel] is one iteration; [None] means the
    loop was still running when the fuel ran out.  [maxLength * 0.5] is
    compared on integers as [2 * splitIndex < maxLength]. *)
Fixpoint splitLoop (fuel : nat) (remaining : list N) (maxLength : Z)
    (chunks : list (list N)) : option (list (list N)) :=
  match fuel with
  | O => None
  | S fuel' =>
      if len remaining >? 0 then
        if len remaining <=? maxLength then Some (chunks ++ [remaining])
        else
          let splitIndex := lastIndexOf remaining 10 maxLength in
          let splitIndex :=
            if (splitIndex =? -1) || (2 * splitIndex <? maxLength)
            then lastIndexOf remaining 32 maxLength else splitIndex in
          let splitIndex :=
            if (splitIndex =? -1) || (2 * splitIndex <? maxLength)
            then maxLength else splitIndex in
          splitLoop fuel' (trimStart (slice_from remaining splitIndex))
            maxLength (chunks ++ [slice remaining 0 splitIndex])
      else Some chunks
  end.

Definition splitMessageIntoChunks (fuel : nat) (text : list N)
    (maxLength : Z) : option (list (list N)) :=
  if len text <=? maxLength then Some [text]
  else splitLoop fuel text maxLength [].

(** Fuel that always suffices when [maxLength >= 1]: every iteration
    removes at least one code unit. *)
Definition chunkFuel (text : list N) : nat := S (length text).

(** [reassembles text chunks]: [text] starts with the first chunk, and
    what follows it, once its leading white space is trimmed, is
    reassembled by the remaining chunks; after the last chunk nothing but
    trimmed white space is left. *)
Fixpoint reassembles (text : list N) (chunks : list (list N)) : bool :=
  match chunks with
  | [] => bool_decide (text = [])
  | c :: cs =>
      bool_decide (take (length c) text = c)
      && reassembles (trimStart (drop (length c) text)) cs
  end.


(** The gaps between the chunks: what [trimStart] removed after each. *)
Fixpoint trimmedGaps (text : list N) (chunks : list (list N)) : list (list N) :=
  match chunks with
  | [] => []
  | c :: cs =>
      let rest := drop (length c) text in
      leadingWs rest :: trimmedGaps (trimStart rest) cs
  end.

(** Chunks and gaps, alternating. *)
Fixpoint weave (chunks gaps : list (list N)) : list N :=
  match chunks, gaps with
  | c :: cs, g :: gs => c ++ g ++ weave cs gs
  | _, _ => []
  end.

(** ** Conversation identifiers and message types *)

(** NIM message type mapping from the V2NIMMessageType enum. *)
Inductive NimMessageType :=
  | text_t | image_t | audio_t | video_t | file_t | geo_t
  | notification_t | custom_t | tip_t | robot_t | unknown_t.

Definition convertMessageType (v2Type : Z) : NimMessageType :=
  if v2Type =? 0 then text_t
  else if v2Type =? 1 then image_t
  else if v2Type =? 2 then audio_t
  else if v2Type =? 3 then video_t
  else if v2Type =? 4 then geo_t
  else if v2Type =? 5 then notification_t
  else if v2Type =? 6 then file_t
  else if v2Type =? 10 then tip_t
  else if v2Type =? 11 then robot_t
  else if v2Type =? 100 then custom_t
  else unknown_t.

Inductive SessionType := p2p | team | superTeam.

#[global] Instance SessionType_eq_dec : EqDecision SessionType.
Proof. solve_decision. Defined.

Record ParsedConversation := {
  sessionType : SessionType;
  targetId : list N
}.

(** Parse conversationId format: {appId}|{type}|{targetId}.
    124 is the code unit of the vertical bar. *)
Definition parseConversationId (conversationId : list N) : ParsedConversation :=
  let parts := split 124 conversationId in
  match parts !! 1%nat, parts !! 2%nat with
  | Some part1, Some part2 =>   (* parts.length >= 3 *)
      let typeNum := parseInt10 part1 in
      let sessionType :=
        if bool_decide (typeNum = Some 1) then p2p
        else if bool_decide (typeNum = Some 2) then team
        else p2p in
      {| sessionType := sessionType; targetId := part2 |}
  | _, _ => {| sessionType := p2p; targetId := [] |}
  end.

(** The SDK's conversation-id utility: each builder returns a string or
    a falsy value. *)
Record V2NIMConversationIdUtil := {
  p2pConversationId : list N -> option (list N);
  teamConversationId : list N -> option (list N);
  superTeamConversationId : list N -> option (list N)
}.

(** Build conversationId using SDK utility or manual fallback. *)
Definition buildConversationId (conversationIdUtil : option V2NIMConversationIdUtil)
    (accountId : list N) (sessionType : SessionType) : list N :=
  match conversationIdUtil with
  | Some util =>
      match sessionType with
      | p2p => String_of (or_else (p2pConversationId util accountId) (Some []))
      | team => String_of (or_else (teamConversationId util accountId) (Some []))
      | superTeam =>
          String_of (or_else (superTeamConversationId util accountId) (Some []))
      end
  | None =>
      (* fallback: manual construction *)
      let typeNum :=
        match sessionType with p2p => 1 | team => 2 | superTeam => 3 end in
      lit "0|" ++ decimal typeNum ++ lit "|" ++ accountId
  end.

(** ** Data model *)

(** An [Error] object; only its message is read. *)
Record JsError := Error { message : list N }.

(** The outcome of a call into native or Node code: it returns, or it
    raises (for a promise: it resolves, or it rejects). *)
Inductive NativeResult (A : Type) :=
  | Returns (a : A)
  | Raises (e : JsError).
Arguments Returns {A} a.
Arguments Raises {A} e.

(** The error object the SDK returns from [init] and [uninit];
    [err_json] is what [JSON.stringify] prints for it. *)
Record SdkError := {
  err_code : Z;
  err_desc : option (list N);
  err_json : list N
}.

(** The five SDK events the gateway subscribes to, and the five bound
    callbacks it creates for them. *)
Inductive EventName :=
  | receiveMessages | loginStatus | kickedOffline | loginFailed | disconnected.

Inductive BoundCallback :=
  | OnReceiveMessages | OnLoginStatus | OnKickedOffline | OnLoginFailed
  | OnDisconnected.

(** A message object made by the SDK's message creator. *)
Inductive NimMessage :=
  | TextMessage (text : list N)
  | ImageMessage (filePath name : list N)
  | AudioMessage (filePath name : list N)
  | VideoMessage (filePath name : list N)
  | FileMessage (filePath name : list N).

(** The SDK's message creator.  A creator returns a message or a falsy
    value; the audio and video creators may be absent (they are called
    with [?.]). *)
Record V2NIMMessageCreator := {
  createTextMessage : list N -> option NimMessage;
  createImageMessage : list N -> list N -> option NimMessage;
  createAudioMessage : option (list N -> list N -> option NimMessage);
  createVideoMessage : option (list N -> list N -> option NimMessage);
  createFileMessage : list N -> list N -> option NimMessage
}.

Record V2NIMMessageService := {
  ms_on : EventName -> NativeResult unit;
  ms_off : EventName -> NativeResult unit;
  ms_sendMessage : NimMessage -> list N -> NativeResult unit
}.

Record V2NIMLoginService := {
  ls_on : EventName -> NativeResult unit;
  ls_off : EventName -> NativeResult unit;
  ls_login : list N -> list N -> NativeResult unit
}.

Record V2NIMClient := {
  client_init : list N -> list N -> NativeResult (option SdkError);
  client_getLoginService : option V2NIMLoginService;
  client_getMessageService : option V2NIMMessageService;
  client_messageCreator : option V2NIMMessageCreator;
  client_conversationIdUtil : option V2NIMConversationIdUtil;
  client_uninit : NativeResult (option SdkError)
}.

(** Modelled from the spec: [NimConfig] is declared in [./types], which
    is not part of the sources at hand.  The design's GatewayConfig has
    the credentials (application key, account identifier, secret token),
    the [enabled] flag, the optional comma-joined account allow-list and
    the debug flag; these are the properties the gateway reads. *)
Record NimConfig := {
  enabled : bool;
  appKey : list N;
  account : list N;
  token : list N;
  accountWhitelist : option (list N);
  debug : bool
}.

(** The keys of [NimConfig]. *)
Inductive ConfigKey :=
  K_enabled | K_appKey | K_account | K_token | K_accountWhitelist | K_debug.

#[global] Instance ConfigKey_eq_dec : EqDecision ConfigKey.
Proof. solve_decision. Defined.

(** One property given to a [Partial<NimConfig>]: a key of [NimConfig]
    with a value of that field's type. *)
Inductive PartialEntry :=
  | P_enabled (v : bool)
  | P_appKey (v : list N)
  | P_account (v : list N)
  | P_token (v : list N)
  | P_accountWhitelist (v : option (list N))
  | P_debug (v : bool).

(** [Partial<NimConfig>]: the properties the caller gave the object, in
    the order in which they were given.  A key given again keeps its
    place among the keys and takes the later value, as in JavaScript.
    A property carries a value of its field's type: a property set to
    [undefined] can be written only for [accountWhitelist], the one
    optional field of [NimConfig]. *)
Definition PartialNimConfig := list PartialEntry.

(** Modelled from the spec: [NimGatewayStatus] is declared in [./types];
    the design's GatewayStatus has exactly the fields the gateway
    assigns. *)
Record NimGatewayStatus := {
  connected : bool;
  startedAt : option Z;
  lastError : option (list N);
  botAccount : option (list N);
  lastInboundAt : option Z;
  lastOutboundAt : option Z
}.

(** Modelled from the spec: [DEFAULT_NIM_STATUS] is declared in
    [./types]; the design calls it the disconnected baseline. *)
Definition DEFAULT_NIM_STATUS : NimGatewayStatus :=
  {| connected := false; startedAt := None; lastError := None;
     botAccount := None; lastInboundAt := None; lastOutboundAt := None |}.

Inductive IMMediaType := im_image | im_audio | im_video | im_document.

Record IMMediaAttachment := {
  att_type : IMMediaType;
  att_localPath : list N;
  att_mimeType : list N;
  att_fileName : list N;
  att_fileSize : Z;
  att_width : option Z;
  att_height : option Z;
  att_duration : option Z
}.

(** The normalized message handed to the application; [platform] is
    always ['nim'] and [chatType] always ['direct']. *)
Record IMMessage := {
  im_messageId : list N;
  im_conversationId : list N;
  im_senderId : list N;
  im_content : list N;
  im_timestamp : Z;
  im_attachments : option (list IMMediaAttachment)
}.

(** The attachment of a raw SDK message. *)
Record V2Attachment := {
  v2a_url : option (list N);
  v2a_name : option (list N);
  v2a_size : option Z;
  v2a_width : option Z;
  v2a_height : option Z;
  v2a_duration : option Z
}.

(** A raw SDK message, with the properties the handler reads. *)
Record V2Message := {
  v2_messageServerId : option (list N);
  v2_messageClientId : option (list N);
  v2_senderId : option (list N);
  v2_messageType : Z;
  v2_conversationId : option (list N);
  v2_text : option (list N);
  v2_attachment : option V2Attachment;
  v2_createTime : option Z
}.

(** The application callback.  The model records that it is invoked and
    whether its promise resolves ([None]) or rejects. *)
Record MessageCallback := {
  cb_outcome : IMMessage -> option JsError
}.

(** [this.log] is [console.log] when [config.debug] is set and a
    function that does nothing otherwise. *)
Inductive Logger := NoopLogger | ConsoleLogger.

(** A pending reconnect timer: its delay and the config its callback
    captured. *)
Record Timer := {
  timer_delayMs : Z;
  timer_savedConfig : NimConfig
}.

(** The 24-hour media cleanup interval. *)
Inductive Interval := MediaCleanupInterval.

(** Modelled from the spec: the marker parser ([./dingtalkMediaParser])
    is not part of the sources at hand.  A marker is an inline reference
    in reply text to a local media file; the gateway reads its [path] and
    [type]. *)
Record MediaMarker := {
  marker_type : list N;
  marker_path : list N
}.

(** The two functions the gateway imports from the marker parser, taken
    as they come. *)
Record MediaParser := {
  parseMediaMarkers : list N -> list MediaMarker;
  stripMediaMarkers : list N -> list MediaMarker -> list N
}.

(** What the gateway uses of Node, Electron and the network: every
    response is fixed by the environment. *)
Record NodeEnv := {
  (** [require('node-nim')] followed by [new nodenim.V2NIMClient()] *)
  new_V2NIMClient : NativeResult V2NIMClient;
  (** [getSdkDataPath(account)]: resolves (and creates) the data directory *)
  getSdkDataPath : list N -> NativeResult (list N);
  (** [fs.existsSync] *)
  existsSync : list N -> bool;
  (** [path.extname], [path.basename], [String.prototype.toLowerCase] *)
  path_extname : list N -> list N;
  path_basename : list N -> list N;
  toLowerCase : list N -> list N;
  (** [downloadNimMedia(url, attachment, mediaType, log)]: an attachment,
      or [null] on any failure *)
  downloadNimMedia :
    list N -> V2Attachment -> NimMessageType -> option IMMediaAttachment
}.

(** The instance state of [class NimGateway], field by field.  The
    lifecycle promise is not a field here: calls are modelled one at a
    time, each running to completion, which is what the promise chain
    enforces for [start] and [stop]. *)
Record NimGateway := mkGateway {
  v2Client : option V2NIMClient;
  loginService : option V2NIMLoginService;
  messageService : option V2NIMMessageService;
  messageCreator : option V2NIMMessageCreator;
  conversationIdUtil : option V2NIMConversationIdUtil;
  config : option NimConfig;
  status : NimGatewayStatus;
  onMessageCallback : option MessageCallback;
  lastSenderId : option (list N);
  log : Logger;
  reconnectTimer : option Timer;
  reconnectAttempts : Z;
  cleanupInterval : option Interval;
  boundOnReceiveMessages : option BoundCallback;
  boundOnLoginStatus : option BoundCallback;
  boundOnKickedOffline : option BoundCallback;
  boundOnLoginFailed : option BoundCallback;
  boundOnDisconnected : option BoundCallback;
  stopRequested : bool
}.

Definition MAX_RECONNECT_DELAY_MS : Z := 30000.

(** The field initialisers of the class. *)
Definition newGateway : NimGateway :=
  {| v2Client := None; loginService := None; messageService := None;
     messageCreator := None; conversationIdUtil := None; config := None;
     status := DEFAULT_NIM_STATUS; onMessageCallback := None;
     lastSenderId := None; log := NoopLogger; reconnectTimer := None;
     reconnectAttempts := 0; cleanupInterval := None;
     boundOnReceiveMessages := None; boundOnLoginStatus := None;
     boundOnKickedOffline := None; boundOnLoginFailed := None;
     boundOnDisconnected := None; stopRequested := false |}.

(** Assignments to one field of [this]. *)
Definition set_v2Client x '(mkGateway _ b c d e f g h i j k l m n o p q r s) :=
  mkGateway x b c d e f g h i j k l m n o p q r s.
Definition set_loginService x '(mkGateway a _ c d e f g h i j k l m n o p q r s) :=
  mkGateway a x c d e f g h i j k l m n o p q r s.
Definition set_messageService x '(mkGateway a b _ d e f g h i j k l m n o p q r s) :=
  mkGateway a b x d e f g h i j k l m n o p q r s.
Definition set_messageCreator x '(mkGateway a b c _ e f g h i j k l m n o p q r s) :=
  mkGateway a b c x e f g h i j k l m n o p q r s.
Definition set_conversationIdUtil x '(mkGateway a b c d _ f g h i j k l m n o p q r s) :=
  mkGateway a b c d x f g h i j k l m n o p q r s.
Definition set_config x '(mkGateway a b c d e _ g h i j k l m n o p q r s) :=
  mkGateway a b c d e x g h i j k l m n o p q r s.
Definition set_status x '(mkGateway a b c d e f _ h i j k l m n o p q r s) :=
  mkGateway a b c d e f x h i j k l m n o p q r s.
Definition set_onMessageCallback x '(mkGateway a b c d e f g _ i j k l m n o p q r s) :=
  mkGateway a b c d e f g x i j k l m n o p q r s.
Definition set_lastSenderId x '(mkGateway a b c d e f g h _ j k l m n o p q r s) :=
  mkGateway a b c d e f g h x j k l m n o p q r s.
Definition set_log x '(mkGateway a b c d e f g h i _ k l m n o p q r s) :=
  mkGateway a b c d e f g h i x k l m n o p q r s.
Definition set_reconnectTimer x '(mkGateway a b c d e f g h i j _ l m n o p q r s) :=
  mkGateway a b c d e f g h i j x l m n o p q r s.
Definition set_reconnectAttempts x '(mkGateway a b c d e f g h i j k _ m n o p q r s) :=
  mkGateway a b c d e f g h i j k x m n o p q r s.
Definition set_cleanupInterval x '(mkGateway a b c d e f g h i j k l _ n o p q r s) :=
  mkGateway a b c d e f g h i j k l x n o p q r s.
Definition set_boundOnReceiveMessages x '(mkGateway a b c d e f g h i j k l m _ o p q r s) :=
  mkGateway a b c d e f g h i j k l m x o p q r s.
Definition set_boundOnLoginStatus x '(mkGateway a b c d e f g h i j k l m n _ p q r s) :=
  mkGateway a b c d e f g h i j k l m n x p q r s.
Definition set_boundOnKickedOffline x '(mkGateway a b c d e f g h i j k l m n o _ q r s) :=
  mkGateway a b c d e f g h i j k l m n o x q r s.
Definition set_boundOnLoginFailed x '(mkGateway a b c d e f g h i j k l m n o p _ r s) :=
  mkGateway a b c d e f g h i j k l m n o p x r s.
Definition set_boundOnDisconnected x '(mkGateway a b c d e f g h i j k l m n o p q _ s) :=
  mkGateway a b c d e f g h i j k l m n o p q x s.
Definition set_stopRequested x '(mkGateway a b c d e f g h i j k l m n o p q r _) :=
  mkGateway a b c d e f g h i j k l m n o p q r x.

(** Assignments to one property of [this.status]. *)
Definition status_connected x (s : NimGatewayStatus) : NimGatewayStatus :=
  {| connected := x; startedAt := startedAt s; lastError := lastError s;
     botAccount := botAccount s; lastInboundAt := lastInboundAt s;
     lastOutboundAt := lastOutboundAt s |}.
Definition status_startedAt x (s : NimGatewayStatus) : NimGatewayStatus :=
  {| connected := connected s; startedAt := x; lastError := lastError s;
     botAccount := botAccount s; lastInboundAt := lastInboundAt s;
     lastOutboundAt := lastOutboundAt s |}.
Definition status_lastError x (s : NimGatewayStatus) : NimGatewayStatus :=
  {| connected := connected s; startedAt := startedAt s; lastError := x;
     botAccount := botAccount s; lastInboundAt := lastInboundAt s;
     lastOutboundAt := lastOutboundAt s |}.
Definition status_botAccount x (s : NimGatewayStatus) : NimGatewayStatus :=
  {| connected := connected s; startedAt := startedAt s;
     lastError := lastError s; botAccount := x;
     lastInboundAt := lastInboundAt s; lastOutboundAt := lastOutboundAt s |}.
Definition status_lastInboundAt x (s : NimGatewayStatus) : NimGatewayStatus :=
  {| connected := connected s; startedAt := startedAt s;
     lastError := lastError s; botAccount := botAccount s;
     lastInboundAt := x; lastOutboundAt := lastOutboundAt s |}.
Definition status_lastOutboundAt x (s : NimGatewayStatus) : NimGatewayStatus :=
  {| connected := connected s; startedAt := startedAt s;
     lastError := lastError s; botAccount := botAccount s;
     lastInboundAt := lastInboundAt s; lastOutboundAt := x |}.

(** The heap: the gateway object and the module-level dedup map
    [processedMessages] (message id to first-seen time). *)
Record Heap := mkHeap {
  this : NimGateway;
  processedMessages : gmap (list N) Z
}.

(** ** Effects *)

Inductive SdkCall :=
  | Sdk_init (appkey appDataPath : list N)
  | Sdk_on (ev : EventName) (cb : BoundCallback)
  | Sdk_off (ev : EventName) (cb : BoundCallback)
  | Sdk_login (account token : list N)
  | Sdk_uninit
  | Sdk_sendMessage (m : NimMessage) (conversationId : list N).

(** The events the gateway emits as an [EventEmitter]. *)
Inductive GatewayEvent :=
  | Ev_connected
  | Ev_disconnected
  | Ev_status
  | Ev_error (e : JsError)
  | Ev_message (m : IMMessage).

(** What a run does to the outside, in order.  A log entry carries the
    constant part of the logged text and one of its arguments.  Listeners
    of the gateway's own events are outside the model: an [Emit] is
    recorded and returns. *)
Inductive Effect :=
  | SdkReturned (c : SdkCall)            (* a native call that returned *)
  | SdkRaised (c : SdkCall) (e : JsError) (* a native call that raised *)
  | Emit (ev : GatewayEvent)
  | LogCall (logger : Logger) (msg : string) (arg : list N)  (* this.log(...) *)
  | Console (msg : string) (arg : list N)  (* console.log / warn / error *)
  | SetTimeout (delayMs : Z)
  | ClearTimeout
  | SetInterval
  | ClearInterval
  | Sleep (ms : Z)                       (* await of a setTimeout promise *)
  | CleanupOldNimMediaFiles
  | InvokeCallback (m : IMMessage).      (* this.onMessageCallback(message, replyFn) *)

Inductive Completion (A : Type) :=
  | Normal (a : A)
  | Thrown (e : JsError).
Arguments Normal {A} a.
Arguments Thrown {A} e.

Record Run (A : Type) := mkRun {
  effects : list Effect;
  heap : Heap;
  completion : Completion A
}.
Arguments mkRun {A}.
Arguments effects {A}.
Arguments heap {A}.
Arguments completion {A}.

Definition M (A : Type) : Type := Heap -> Run A.

Definition ret {A} (a : A) : M A := fun h => mkRun [] h (Normal a).

Definition bind {A B} (m : M A) (k : A -> M B) : M B := fun h =>
  let r := m h in
  match completion r with
  | Normal a =>
      let r2 := k a (heap r) in
      mkRun (effects r ++ effects r2) (heap r2) (completion r2)
  | Thrown e => mkRun (effects r) (heap r) (Thrown e)
  end.

Notation "'let*' x := m 'in' k" := (bind m (fun x => k))
  (at level 10, x name, m at level 100, k at level 200).
Notation "m >> k" := (bind m (fun _ => k)) (at level 90, right associativity).

Definition throw {A} (e : JsError) : M A := fun h => mkRun [] h (Thrown e).

(** [try { m } catch (e) { handler e }] *)
Definition tryCatch {A} (m : M A) (handler : JsError -> M A) : M A := fun h =>
  let r := m h in
  match completion r with
  | Normal a => r
  | Thrown e =>
      let r2 := handler e (heap r) in
      mkRun (effects r ++ effects r2) (heap r2) (completion r2)
  end.

Definition effect (e : Effect) : M unit := fun h => mkRun [e] h (Normal tt).

Definition getThis : M NimGateway := fun h => mkRun [] h (Normal (this h)).

Definition modifyThis (f : NimGateway -> NimGateway) : M unit := fun h =>
  mkRun [] (mkHeap (f (this h)) (processedMessages h)) (Normal tt).

Definition getProcessedMessages : M (gmap (list N) Z) := fun h =>
  mkRun [] h (Normal (processedMessages h)).

Definition modifyProcessedMessages
    (f : gmap (list N) Z -> gmap (list N) Z) : M unit := fun h =>
  mkRun [] (mkHeap (this h) (f (processedMessages h))) (Normal tt).

(** A call into the SDK: recorded with its outcome. *)
Definition sdk {A} (c : SdkCall) (r : NativeResult A) : M A :=
  match r with
  | Returns a => effect (SdkReturned c) >> ret a
  | Raises e => effect (SdkRaised c e) >> throw e
  end.

(** A call into Node that is not recorded. *)
Definition native {A} (r : NativeResult A) : M A :=
  match r with
  | Returns a => ret a
  | Raises e => throw e
  end.

(** [this.log(msg, arg)] *)
Definition logM (msg : string) (arg : list N) : M unit :=
  let* g := getThis in effect (LogCall (log g) msg arg).

(** [for (const x of l) { body x }] *)
Fixpoint forEach {A} (l : list A) (body : A -> M unit) : M unit :=
  match l with
  | [] => ret tt
  | x :: l' => body x >> forEach l' body
  end.

Definition when (b : bool) (m : M unit) : M unit := if b then m else ret tt.

Definition isSome {A} (o : option A) : bool :=
  match o with Some _ => true | None => false end.

(** ** The gateway: status, configuration, reconnection *)

Definition modifyStatus (f : NimGatewayStatus -> NimGatewayStatus) : M unit :=
  modifyThis (fun g => set_status (f (status g)) g).

(** Get current gateway status (a copy). *)
Definition getStatus : M NimGatewayStatus :=
  let* g := getThis in ret (status g).

(** Check if gateway is connected. *)
Definition isConnected : M bool :=
  let* g := getThis in ret (connected (status g)).

(** The key of a property. *)
Definition entryKey (e : PartialEntry) : ConfigKey :=
  match e with
  | P_enabled _ => K_enabled
  | P_appKey _ => K_appKey
  | P_account _ => K_account
  | P_token _ => K_token
  | P_accountWhitelist _ => K_accountWhitelist
  | P_debug _ => K_debug
  end.

Definition keyName (k : ConfigKey) : list N :=
  match k with
  | K_enabled => lit "enabled"
  | K_appKey => lit "appKey"
  | K_account => lit "account"
  | K_token => lit "token"
  | K_accountWhitelist => lit "accountWhitelist"
  | K_debug => lit "debug"
  end.

(** Copying one property onto a config. *)
Definition assign (c : NimConfig) (e : PartialEntry) : NimConfig :=
  match e with
  | P_enabled v =>
      {| enabled := v; appKey := appKey c; account := account c;
         token := token c; accountWhitelist := accountWhitelist c;
         debug := debug c |}
  | P_appKey v =>
      {| enabled := enabled c; appKey := v; account := account c;
         token := token c; accountWhitelist := accountWhitelist c;
         debug := debug c |}
  | P_account v =>
      {| enabled := enabled c; appKey := appKey c; account := v;
         token := token c; accountWhitelist := accountWhitelist c;
         debug := debug c |}
  | P_token v =>
      {| enabled := enabled c; appKey := appKey c; account := account c;
         token := v; accountWhitelist := accountWhitelist c;
         debug := debug c |}
  | P_accountWhitelist v =>
      {| enabled := enabled c; appKey := appKey c; account := account c;
         token := token c; accountWhitelist := v; debug := debug c |}
  | P_debug v =>
      {| enabled := enabled c; appKey := appKey c; account := account c;
         token := token c; accountWhitelist := accountWhitelist c;
         debug := v |}
  end.

(** [{ ...config, ...partial }]: the properties of [partial] are copied
    onto a copy of [config], one after the other. *)
Definition mergeConfig (c : NimConfig) (partial : PartialNimConfig) : NimConfig :=
  fold_left assign partial c.

(** [Object.keys(partial)]: the keys in the order in which they were
    first given; [seen] holds the keys already listed. *)
Fixpoint ownKeys (partial : PartialNimConfig) (seen : list ConfigKey)
    : list ConfigKey :=
  match partial with
  | [] => []
  | e :: rest =>
      if bool_decide (entryKey e ∈ seen) then ownKeys rest seen
      else entryKey e :: ownKeys rest (entryKey e :: seen)
  end.

(** [keys.join(', ')] *)
Definition joinKeys (keys : list (list N)) : list N :=
  match keys with
  | [] => []
  | k :: ks => k ++ concat (List.map (fun k' => lit ", " ++ k') ks)
  end.

(** [Object.keys(partial).join(', ')] *)
Definition partialKeys (partial : PartialNimConfig) : list N :=
  joinKeys (List.map keyName (ownKeys partial [])).

(** The value [partial] holds for a key, if it has the key: the last
    value given for it.  [pick] selects the properties with that key. *)
Definition valueIn {A} (pick : PartialEntry -> option A)
    (partial : PartialNimConfig) : option A :=
  last (omap pick partial).

Definition enabledOf (e : PartialEntry) : option bool :=
  match e with P_enabled v => Some v | _ => None end.
Definition appKeyOf (e : PartialEntry) : option (list N) :=
  match e with P_appKey v => Some v | _ => None end.
Definition accountOf (e : PartialEntry) : option (list N) :=
  match e with P_account v => Some v | _ => None end.
Definition tokenOf (e : PartialEntry) : option (list N) :=
  match e with P_token v => Some v | _ => None end.
Definition accountWhitelistOf (e : PartialEntry) : option (option (list N)) :=
  match e with P_accountWhitelist v => Some v | _ => None end.
Definition debugOf (e : PartialEntry) : option bool :=
  match e with P_debug v => Some v | _ => None end.

(** Update runtime config without restarting the gateway. *)
Definition updateConfig (partial : PartialNimConfig) : M unit :=
  let* g := getThis in
  match config g with
  | Some c =>
      modifyThis (set_config (Some (mergeConfig c partial))) >>
      logM "[NIM Gateway] Config updated (hot):" (partialKeys partial)
  | None => ret tt
  end.

(** Schedule a reconnection attempt. *)
Definition scheduleReconnect (delayMs : Z) : M unit :=
  let* g := getThis in
  when (isSome (reconnectTimer g))
    (effect ClearTimeout >> modifyThis (set_reconnectTimer None)) >>
  let* g := getThis in
  match config g with
  | Some savedConfig =>
      if stopRequested g then ret tt
      else
        logM "[NIM Gateway] Scheduling reconnect in (ms)" (decimal delayMs) >>
        effect (SetTimeout delayMs) >>
        modifyThis (set_reconnectTimer
          (Some {| timer_delayMs := delayMs; timer_savedConfig := savedConfig |}))
  | None => ret tt
  end.

(** Public method for external reconnection triggers. *)
Definition reconnectIfNeeded : M unit :=
  let* g := getThis in
  if stopRequested g then ret tt
  else if isSome (config g)
          && (negb (isSome (v2Client g)) || negb (connected (status g)))
  then logM "[NIM Gateway] External reconnection trigger" [] >>
       scheduleReconnect 0
  else ret tt.

Definition setMessageCallback (callback : MessageCallback) : M unit :=
  modifyThis (set_onMessageCallback (Some callback)).

(** Clean up downloaded media files; [cleanupOldNimMediaFiles] catches
    its own errors. *)
Definition cleanupMediaFiles : M unit := effect CleanupOldNimMediaFiles.

(** Clean up internal references (does NOT clear config to allow
    reconnection). *)
Definition cleanup : M unit :=
  modifyThis (set_v2Client None) >>
  modifyThis (set_loginService None) >>
  modifyThis (set_messageService None) >>
  modifyThis (set_messageCreator None) >>
  modifyThis (set_conversationIdUtil None) >>
  let* g := getThis in
  when (isSome (cleanupInterval g))
    (effect ClearInterval >> modifyThis (set_cleanupInterval None)).

(** ** Start *)

(** The [try] block of [startInternal]. *)
Definition startBody (env : NodeEnv) (cfg : NimConfig)
    (appDataPathOverride : option (list N)) : M unit :=
  (* require('node-nim'); this.v2Client = new nodenim.V2NIMClient() *)
  let* client := native (new_V2NIMClient env) in
  modifyThis (set_v2Client (Some client)) >>
  let* dataPath :=
    (if truthy_opt appDataPathOverride then ret (String_of appDataPathOverride)
     else native (getSdkDataPath env (account cfg))) in
  let* initError :=
    sdk (Sdk_init (appKey cfg) dataPath) (client_init client (appKey cfg) dataPath) in
  match initError with
  | Some err =>
      throw (Error (lit "NIM SDK V2 initialization failed: "
                    ++ (if truthy_opt (err_desc err)
                        then String_of (err_desc err) else err_json err)))
  | None =>
      logM "[NIM Gateway] SDK initialized, dataPath:" dataPath >>
      modifyThis (set_loginService (client_getLoginService client)) >>
      modifyThis (set_messageService (client_getMessageService client)) >>
      modifyThis (set_messageCreator (client_messageCreator client)) >>
      modifyThis (set_conversationIdUtil (client_conversationIdUtil client)) >>
      let* g := getThis in
      match loginService g, messageService g with
      | Some ls, Some ms =>
          modifyThis (set_boundOnReceiveMessages (Some OnReceiveMessages)) >>
          modifyThis (set_boundOnLoginStatus (Some OnLoginStatus)) >>
          modifyThis (set_boundOnKickedOffline (Some OnKickedOffline)) >>
          modifyThis (set_boundOnLoginFailed (Some OnLoginFailed)) >>
          modifyThis (set_boundOnDisconnected (Some OnDisconnected)) >>
          (* Register callbacks using bound references *)
          sdk (Sdk_on receiveMessages OnReceiveMessages) (ms_on ms receiveMessages) >>
          sdk (Sdk_on loginStatus OnLoginStatus) (ls_on ls loginStatus) >>
          sdk (Sdk_on kickedOffline OnKickedOffline) (ls_on ls kickedOffline) >>
          sdk (Sdk_on loginFailed OnLoginFailed) (ls_on ls loginFailed) >>
          sdk (Sdk_on disconnected OnDisconnected) (ls_on ls disconnected) >>
          logM "[NIM Gateway] Initiating login..." (account cfg) >>
          (* the promise's rejection is handled later, by its catch handler *)
          sdk (Sdk_login (account cfg) (token cfg))
              (ls_login ls (account cfg) (token cfg)) >>
          modifyThis (set_status
            {| connected := false; startedAt := None; lastError := None;
               botAccount := Some (account cfg); lastInboundAt := None;
               lastOutboundAt := None |}) >>
          logM "[NIM Gateway] NIM gateway initialized, waiting for login status..." []
      | _, _ => throw (Error (lit "NIM SDK V2 services not available"))
      end
  end.

(** The [catch] block of [startInternal]. *)
Definition startCatch (error : JsError) : M unit :=
  let* g := getThis in
  let savedConfig := config g in        (* Preserve config before cleanup *)
  cleanup >>
  modifyThis (set_config savedConfig) >> (* Restore config so reconnect can work *)
  modifyThis (set_status
    {| connected := false; startedAt := None;
       lastError := Some (message error);
       botAccount :=
         match savedConfig with
         | Some c => if truthy (account c) then Some (account c) else None
         | None => None
         end;
       lastInboundAt := None; lastOutboundAt := None |}) >>
  effect (Emit (Ev_error error)) >>
  throw error.

(** Internal start implementation (called under lifecycle mutex). *)
Definition startInternal (env : NodeEnv) (cfg : NimConfig)
    (appDataPathOverride : option (list N)) : M unit :=
  let* g := getThis in
  if isSome (v2Client g) then throw (Error (lit "NIM gateway already running"))
  else
    (* Always keep config for reconnection *)
    modifyThis (set_config (Some cfg)) >>
    if negb (enabled cfg) then
      effect (Console "[NIM Gateway] NIM is disabled in config" [])
    else if negb (truthy (appKey cfg)) || negb (truthy (account cfg))
            || negb (truthy (token cfg))
    then throw (Error (lit "NIM appKey, account and token are required"))
    else
      modifyThis (set_config (Some cfg)) >>
      modifyThis (set_log (if debug cfg then ConsoleLogger else NoopLogger)) >>
      logM "[NIM Gateway] Starting NIM gateway..." [] >>
      tryCatch (startBody env cfg appDataPathOverride) startCatch.

(** Start NIM gateway: after the previous lifecycle operation has
    settled, clear [stopRequested] and run [startInternal]. *)
Definition start (env : NodeEnv) (cfg : NimConfig)
    (appDataPathOverride : option (list N)) : M unit :=
  modifyThis (set_stopRequested false) >>
  startInternal env cfg appDataPathOverride.

(** ** Stop *)

(** [if (cb) service.off(ev, cb)] *)
Definition offIfBound (bound : option BoundCallback) (ev : EventName)
    (off : EventName -> NativeResult unit) : M unit :=
  match bound with
  | Some cb => sdk (Sdk_off ev cb) (off ev)
  | None => ret tt
  end.

(** STEP 1 of [stopInternal]: remove the event listeners; an error while
    removing them is logged and ignored. *)
Definition removeListeners : M unit :=
  tryCatch
    (let* g := getThis in
     match messageService g with
     | Some ms => offIfBound (boundOnReceiveMessages g) receiveMessages (ms_off ms)
     | None => ret tt
     end >>
     match loginService g with
     | Some ls =>
         offIfBound (boundOnLoginStatus g) loginStatus (ls_off ls) >>
         offIfBound (boundOnKickedOffline g) kickedOffline (ls_off ls) >>
         offIfBound (boundOnLoginFailed g) loginFailed (ls_off ls) >>
         offIfBound (boundOnDisconnected g) disconnected (ls_off ls)
     | None => ret tt
     end)
    (fun listenerErr =>
       effect (Console "[NIM Gateway] Error removing listeners (ignored):"
                 (message listenerErr))).

(** STEP 2 of [stopInternal]: the nested [try] blocks around [uninit]. *)
Definition uninitClient : M unit :=
  tryCatch
    (let* g := getThis in
     match v2Client g with
     | Some client =>
         logM "[NIM Gateway] Calling uninit..." [] >>
         tryCatch
           (let* error := sdk Sdk_uninit (client_uninit client) in
            match error with
            | Some err =>
                logM "[NIM Gateway] Uninit error:" (String_of (err_desc err))
            | None => logM "[NIM Gateway] Uninit completed" []
            end)
           (fun innerErr =>
              effect (Console "[NIM Gateway] Uninit native exception (ignored):"
                        (message innerErr)))
     | None => ret tt
     end)
    (fun outerErr =>
       effect (Console "[NIM Gateway] Uninit outer exception (ignored):"
                 (message outerErr))).

(** Internal stop implementation (called under lifecycle mutex). *)
Definition stopInternal : M unit :=
  (* Cancel any pending reconnect timer *)
  let* g := getThis in
  when (isSome (reconnectTimer g))
    (effect ClearTimeout >> modifyThis (set_reconnectTimer None)) >>
  modifyThis (set_reconnectAttempts 0) >>
  let* g := getThis in
  if negb (isSome (v2Client g)) then logM "[NIM Gateway] Not running" []
  else
    logM "[NIM Gateway] Stopping NIM gateway..." [] >>
    (* STEP 1: Remove event listeners BEFORE uninit() *)
    removeListeners >>
    modifyThis (set_boundOnReceiveMessages None) >>
    modifyThis (set_boundOnLoginStatus None) >>
    modifyThis (set_boundOnKickedOffline None) >>
    modifyThis (set_boundOnLoginFailed None) >>
    modifyThis (set_boundOnDisconnected None) >>
    (* STEP 2: Call uninit() to tear down the native SDK *)
    uninitClient >>
    (* STEP 3: Clean up JavaScript references immediately *)
    cleanup >>
    let* g := getThis in
    modifyThis (set_status
      {| connected := false; startedAt := None; lastError := None;
         botAccount := botAccount (status g); lastInboundAt := None;
         lastOutboundAt := None |}) >>
    logM "[NIM Gateway] NIM gateway stopped" [] >>
    effect (Emit Ev_disconnected) >>
    (* Wait for native SDK resources to be fully released *)
    effect (Sleep 1000).

(** Stop NIM gateway: mark the stop as requested, then, after the
    previous lifecycle operation has settled, run [stopInternal]. *)
Definition stop : M unit :=
  modifyThis (set_stopRequested true) >>
  stopInternal.

(** The callback of the reconnect timer [t], run when the timer fires. *)
Definition reconnectTimerFired (env : NodeEnv) (t : Timer) : M unit :=
  modifyThis (set_reconnectTimer None) >>
  let* g := getThis in
  (* Bail out if stop() was called while we were waiting *)
  if stopRequested g then ret tt
  else
    tryCatch
      (modifyThis (fun g => set_reconnectAttempts (reconnectAttempts g + 1) g) >>
       stop >>
       let* g := getThis in
       if negb (isSome (config g)) then ret tt
       else
         modifyThis (set_stopRequested false) >>
         start env (timer_savedConfig t) None)
      (fun error =>
         effect (Console "[NIM Gateway] Reconnection attempt failed:" (message error)) >>
         let* g := getThis in
         if stopRequested g then ret tt
         else
           let nextDelay :=
             Z.min (if reconnectAttempts g <=? 1 then 2000 else timer_delayMs t * 2)
                   MAX_RECONNECT_DELAY_MS in
           scheduleReconnect nextDelay).

(** ** Deduplication *)

Definition MESSAGE_DEDUP_TTL : Z := 5 * 60 * 1000.

(** The [forEach] of [cleanupProcessedMessages]: every entry with
    [now - timestamp > MESSAGE_DEDUP_TTL] is deleted. *)
Definition evictExpired (now : Z) (pm : gmap (list N) Z) : gmap (list N) Z :=
  filter (fun entry : list N * Z => ¬ (now - entry.2 > MESSAGE_DEDUP_TTL)) pm.

(** Clean up expired messages from cache; [now] is [Date.now()]. *)
Definition cleanupProcessedMessages (now : Z) : M unit :=
  modifyProcessedMessages (evictExpired now).

(** Check if message was already processed (deduplication).  [nowCleanup]
    and [nowSeen] are the two readings of [Date.now()], in the order they
    are taken. *)
Definition isMessageProcessed (nowCleanup nowSeen : Z) (messageId : list N) : M bool :=
  cleanupProcessedMessages nowCleanup >>
  let* processed := getProcessedMessages in
  if isSome (processed !! messageId) then ret true
  else
    modifyProcessedMessages (insert messageId nowSeen) >>
    ret false.

(** ** Sending *)

(** Send a text message to a target account. *)
Definition sendText (to text : list N) : M unit :=
  let* g := getThis in
  match messageService g, messageCreator g with
  | Some ms, Some mc =>
      match createTextMessage mc text with
      | Some msg =>
          let conversationId := buildConversationId (conversationIdUtil g) to p2p in
          logM "[NIM Gateway] Sending text to:" conversationId >>
          sdk (Sdk_sendMessage msg conversationId)
              (ms_sendMessage ms msg conversationId) >>
          logM "[NIM Gateway] Send result:" []
      | None => throw (Error (lit "Failed to create text message"))
      end
  | _, _ => throw (Error (lit "NIM SDK not ready"))
  end.

(** Send long text with auto-splitting.  The chunking runs with
    [chunkFuel text], which is enough for the default maximum length
    (lemma [splitMessageIntoChunks_terminates]); the [None] branch is
    never taken. *)
Definition sendLongText (to text : list N) : M unit :=
  match splitMessageIntoChunks (chunkFuel text) text MAX_MESSAGE_LENGTH with
  | Some chunks =>
      forEach chunks (fun chunk =>
        sendText to chunk >>
        (* Avoid sending too fast *)
        when (1 <? len chunks) (effect (Sleep 100)))
  | None => ret tt
  end.

(** The media kinds of [inferMediaType]. *)
Inductive MediaKind := kind_image | kind_audio | kind_video | kind_file.

Definition kindName (k : MediaKind) : list N :=
  match k with
  | kind_image => lit "image"
  | kind_audio => lit "audio"
  | kind_video => lit "video"
  | kind_file => lit "file"
  end.

Definition includes (l : list (list N)) (x : list N) : bool :=
  bool_decide (x ∈ l).

(** Infer the NIM message type from the file extension. *)
Definition inferMediaType (env : NodeEnv) (filePath : list N) : MediaKind :=
  let ext := toLowerCase env (path_extname env filePath) in
  let imageExts := List.map lit [".jpg"; ".jpeg"; ".png"; ".gif"; ".webp"; ".bmp"]%string in
  let audioExts := List.map lit [".mp3"; ".wav"; ".aac"; ".m4a"; ".ogg"; ".amr"]%string in
  let videoExts := List.map lit [".mp4"; ".mov"; ".avi"; ".mkv"; ".webm"; ".flv"]%string in
  if includes imageExts ext then kind_image
  else if includes audioExts ext then kind_audio
  else if includes videoExts ext then kind_video
  else kind_file.

(** [sendNimMediaMessage(messageService, messageCreator, conversationId,
    filePath, log)] of [nimMedia.ts]. *)
Definition sendNimMediaMessage (env : NodeEnv) (ms : V2NIMMessageService)
    (mc : V2NIMMessageCreator) (conversationId filePath : list N) : M unit :=
  if negb (existsSync env filePath)
  then throw (Error (lit "File not found: " ++ filePath))
  else
    let mediaType := inferMediaType env filePath in
    let baseName := path_basename env filePath in
    let msg :=
      match mediaType with
      | kind_image => createImageMessage mc filePath baseName
      | kind_audio =>
          match createAudioMessage mc with
          | Some create => create filePath baseName
          | None => None
          end
      | kind_video =>
          match createVideoMessage mc with
          | Some create => create filePath baseName
          | None => None
          end
      | kind_file => createFileMessage mc filePath baseName
      end in
    match msg with
    | Some msg =>
        logM "[NIM Media] Sending (file) to (conversation)" baseName >>
        sdk (Sdk_sendMessage msg conversationId)
            (ms_sendMessage ms msg conversationId) >>
        logM "[NIM Media] Send result:" []
    | None =>
        throw (Error (lit "Failed to create " ++ kindName mediaType
                      ++ lit " message for: " ++ baseName))
    end.

(** Send a media file message to a target account. *)
Definition sendMedia (env : NodeEnv) (to filePath : list N) : M unit :=
  let* g := getThis in
  match messageService g, messageCreator g with
  | Some ms, Some mc =>
      let conversationId := buildConversationId (conversationIdUtil g) to p2p in
      sendNimMediaMessage env ms mc conversationId filePath
  | _, _ => throw (Error (lit "NIM SDK not ready"))
  end.

(** The [for] loop of [sendReplyWithMedia], from index [i] on; [n] is
    [markers.length].  The [try] block yields [true] when it leaves the
    iteration with [continue]. *)
Fixpoint sendMarkers (env : NodeEnv) (to : list N) (markers : list MediaMarker)
    (i n : Z) : M unit :=
  match markers with
  | [] => ret tt
  | marker :: rest =>
      let* continued :=
        tryCatch
          (if negb (existsSync env (marker_path marker)) then
             logM "[NIM Gateway] Media file not found:" (marker_path marker) >>
             ret true
           else
             sendMedia env to (marker_path marker) >>
             logM "[NIM Gateway] Sent media:" (marker_path marker) >>
             ret false)
          (fun error =>
             effect (Console "[NIM Gateway] Failed to send media" (marker_path marker)) >>
             ret false) in
      when (negb continued && (i <? n - 1)) (effect (Sleep 100)) >>
      sendMarkers env to rest (i + 1) n
  end.

(** Send reply with media marker parsing. *)
Definition sendReplyWithMedia (parser : MediaParser) (env : NodeEnv)
    (to text : list N) : M unit :=
  let markers := parseMediaMarkers parser text in
  if len markers =? 0 then sendLongText to text
  else
    logM "[NIM Gateway] Found media marker(s) in reply" (decimal (len markers)) >>
    let strippedText := stripMediaMarkers parser text markers in
    when (truthy (trim strippedText))
      (sendLongText to strippedText >> effect (Sleep 100)) >>
    sendMarkers env to markers 0 (len markers).

(** ** Inbound messages *)

(** The readings of [Date.now()] that one run of the handler takes, in
    the order it takes them. *)
Record Clock := {
  now_cleanup : Z;    (* cleanupProcessedMessages *)
  now_seen : Z;       (* processedMessages.set(messageId, Date.now()) *)
  now_timestamp : Z;  (* msg.createTime || Date.now() *)
  now_inbound : Z;    (* this.status.lastInboundAt = Date.now() *)
  now_outbound : Z    (* this.status.lastOutboundAt = Date.now() *)
}.

(** The placeholder text of a media message (the Chinese words for
    picture, voice message, video, file and multimedia message, in
    brackets). *)
Definition inferMediaPlaceholder (messageType : NimMessageType) : list N :=
  match messageType with
  | image_t => [91; 22270; 29255; 93]%N
  | audio_t => [91; 35821; 38899; 28040; 24687; 93]%N
  | video_t => [91; 35270; 39057; 93]%N
  | file_t => [91; 25991; 20214; 93]%N
  | _ => [91; 22810; 23186; 20307; 28040; 24687; 93]%N
  end.

(** The apology sent back when the callback rejects (a Chinese sentence:
    sorry, an error occurred while processing the message), before the
    error text. *)
Definition apologyPrefix : list N :=
  [25265; 27465; 65292; 22788; 29702; 28040; 24687; 26102; 20986; 29616;
   38169; 35823; 65306]%N.

(** [accountWhitelist.split(',').map(s => s.trim()).filter(Boolean)];
    44 is the code unit of the comma. *)
Definition whitelistEntries (accountWhitelist : list N) : list (list N) :=
  List.filter truthy (List.map trim (split 44 accountWhitelist)).

Definition isSupportedType (t : NimMessageType) : bool :=
  match t with
  | text_t | image_t | audio_t | video_t | file_t => true
  | _ => false
  end.

Definition isMediaType (t : NimMessageType) : bool :=
  match t with
  | image_t | audio_t | video_t | file_t => true
  | _ => false
  end.

(** The reply function bound to one inbound message. *)
Definition replyFn (parser : MediaParser) (env : NodeEnv) (clk : Clock)
    (senderId text : list N) : M unit :=
  logM "[NIM Gateway] reply to" senderId >>
  sendReplyWithMedia parser env senderId text >>
  modifyStatus (status_lastOutboundAt (Some (now_outbound clk))).

(** The message id and the sender id the handler extracts. *)
Definition messageIdOf (msg : V2Message) : list N :=
  String_of (or_else (or_else (v2_messageServerId msg) (v2_messageClientId msg))
                     (Some [])).

Definition senderIdOf (msg : V2Message) : list N :=
  String_of (or_else (v2_senderId msg) (Some [])).

(** The self-message test: [this.config && senderId === this.config.account]. *)
Definition isSelfMessage (cfg : option NimConfig) (senderId : list N) : bool :=
  match cfg with
  | Some c => bool_decide (senderId = account c)
  | None => false
  end.

(** The whitelist test: [true] when an allow-list is set, splits into at
    least one entry, and does not contain the sender. *)
Definition rejectedByWhitelist (cfg : option NimConfig) (senderId : list N) : bool :=
  match cfg with
  | Some c =>
      if truthy_opt (accountWhitelist c) then
        let whitelist := whitelistEntries (String_of (accountWhitelist c)) in
        (0 <? len whitelist) && negb (bool_decide (senderId ∈ whitelist))
      else false
  | None => false
  end.

(** The content and the attachments of a supported message; [None] is
    the early return for an empty text. *)
Definition buildContent (env : NodeEnv) (msg : V2Message)
    (msgType : NimMessageType) : M (option (list N * list IMMediaAttachment)) :=
  match msgType with
  | text_t =>
      let content := String_of (or_else (v2_text msg) (Some [])) in
      if negb (truthy (trim content))
      then logM "[NIM Gateway] Ignoring empty text message" [] >> ret None
      else ret (Some (content, @nil IMMediaAttachment))
  | _ =>
      if isMediaType msgType then
        let attach := v2_attachment msg in
        let placeholder := inferMediaPlaceholder msgType in
        let attachUrl :=
          match attach with Some a => v2a_url a | None => None end in
        let content :=
          if truthy_opt attachUrl
          then placeholder ++ lit " " ++ String_of attachUrl
          else placeholder in
        match attach with
        | Some a =>
            if truthy_opt attachUrl then
              match downloadNimMedia env (String_of attachUrl) a msgType with
              | Some downloaded => ret (Some (content, [downloaded]))
              | None => ret (Some (content, []))
              end
            else ret (Some (content, []))
        | None => ret (Some (content, []))
        end
      else ret (Some ([], []))
  end.

(** The normalized message built from a raw one. *)
Definition normalize (clk : Clock) (msg : V2Message) (content : list N)
    (attachments : list IMMediaAttachment) : IMMessage :=
  {| im_messageId := messageIdOf msg;
     im_conversationId :=
       String_of (or_else (v2_conversationId msg) (Some (senderIdOf msg)));
     im_senderId := senderIdOf msg;
     im_content := content;
     im_timestamp :=
       match v2_createTime msg with
       | Some t => if t =? 0 then now_timestamp clk else t
       | None => now_timestamp clk
       end;
     im_attachments :=
       if 0 <? len attachments then Some attachments else None |}.

(** The end of the handler: record the inbound time and the sender, emit
    the [message] event and call the application callback; if the
    callback rejects, reply with an apology. *)
Definition deliver (parser : MediaParser) (env : NodeEnv) (clk : Clock)
    (msg : V2Message) (imMessage : IMMessage) : M unit :=
  modifyStatus (status_lastInboundAt (Some (now_inbound clk))) >>
  logM "[NIM Gateway] message received" (messageIdOf msg) >>
  (* Store last sender for notifications *)
  modifyThis (set_lastSenderId (Some (senderIdOf msg))) >>
  (* Emit message event *)
  effect (Emit (Ev_message imMessage)) >>
  (* Call message callback if set *)
  let* g := getThis in
  match onMessageCallback g with
  | Some callback =>
      tryCatch
        (effect (InvokeCallback imMessage) >>
         match cb_outcome callback imMessage with
         | None => ret tt
         | Some error => throw error
         end)
        (fun error =>
           effect (Console "[NIM Gateway] Error in message callback:" (message error)) >>
           replyFn parser env clk (senderIdOf msg) (apologyPrefix ++ message error))
  | None => ret tt
  end.

(** The handler once the message id has been recorded: the type and
    conversation filters, the content, the delivery. *)
Definition handleAccepted (parser : MediaParser) (env : NodeEnv)
    (clk : Clock) (msg : V2Message) : M unit :=
  let msgType := convertMessageType (v2_messageType msg) in
  if negb (isSupportedType msgType)
  then logM "[NIM Gateway] Ignoring unsupported message type" []
  else
  let conv := parseConversationId (String_of (or_else (v2_conversationId msg) (Some []))) in
  (* Only handle P2P messages *)
  if negb (bool_decide (sessionType conv = p2p))
  then logM "[NIM Gateway] Ignoring non-p2p message" []
  else
  let* built := buildContent env msg msgType in
  match built with
  | None => ret tt
  | Some (content, attachments) =>
      deliver parser env clk msg (normalize clk msg content attachments)
  end.

(** The [try] block of [handleIncomingMessage].  The awaited download
    and callback are modelled as completing before anything else runs;
    the dedup check comes before the first [await], so it is not affected
    by how handler runs interleave. *)
Definition handleIncomingBody (parser : MediaParser) (env : NodeEnv)
    (clk : Clock) (msg : V2Message) : M unit :=
  let msgId := messageIdOf msg in
  let senderId := senderIdOf msg in
  let* g := getThis in
  (* Ignore messages from self *)
  if isSelfMessage (config g) senderId
  then logM "[NIM Gateway] Ignoring self message" []
  else
  (* Whitelist filtering *)
  if rejectedByWhitelist (config g) senderId
  then logM "[NIM Gateway] Ignoring message from non-whitelisted account:" senderId
  else
  (* Deduplication *)
  let* duplicate := isMessageProcessed (now_cleanup clk) (now_seen clk) msgId in
  if duplicate then logM "[NIM Gateway] Duplicate message ignored:" msgId
  else handleAccepted parser env clk msg.

(** Handle incoming V2 message from SDK. *)
Definition handleIncomingMessage (parser : MediaParser) (env : NodeEnv)
    (clk : Clock) (msg : V2Message) : M unit :=
  tryCatch (handleIncomingBody parser env clk msg)
    (fun err =>
       effect (Console "[NIM Gateway] Error handling incoming message:" (message err))).

(** ** The bound callbacks *)

(** [boundOnReceiveMessages]; each message comes with the clock readings
    of its handler run. *)
Definition onReceiveMessages (parser : MediaParser) (env : NodeEnv)
    (messages : list (Clock * V2Message)) : M unit :=
  let* g := getThis in
  if negb (isSome (v2Client g)) then ret tt   (* stale callback guard *)
  else
    logM "[NIM Gateway] Received messages:" (decimal (len messages)) >>
    forEach messages (fun m => handleIncomingMessage parser env m.1 m.2).

(** [boundOnLoginStatus]; [now] is [Date.now()]. *)
Definition onLoginStatus (now : Z) (loginStatus : Z) : M unit :=
  let* g := getThis in
  if negb (isSome (v2Client g)) then ret tt   (* stale callback guard *)
  else
    logM "[NIM Gateway] Login status changed:" [] >>
    if loginStatus =? 1 then
      modifyThis (set_reconnectAttempts 0) >>
      modifyStatus (status_connected true) >>
      modifyStatus (status_lastError None) >>
      modifyStatus (status_startedAt (Some now)) >>
      modifyStatus (status_botAccount
        match config g with
        | Some c => if truthy (account c) then Some (account c) else None
        | None => None
        end) >>
      logM "[NIM Gateway] Login successful" [] >>
      effect (Emit Ev_connected) >>
      effect (Emit Ev_status) >>
      cleanupMediaFiles >>
      let* g := getThis in
      when (negb (isSome (cleanupInterval g)))
        (effect SetInterval >>
         modifyThis (set_cleanupInterval (Some MediaCleanupInterval)))
    else if loginStatus =? 0 then
      modifyStatus (status_connected false) >>
      logM "[NIM Gateway] Logged out" [] >>
      effect (Emit Ev_disconnected) >>
      effect (Emit Ev_status)
    else if loginStatus =? 2 then logM "[NIM Gateway] Logging in..." []
    else ret tt.

(** [boundOnKickedOffline] *)
Definition onKickedOffline : M unit :=
  let* g := getThis in
  if negb (isSome (v2Client g)) then ret tt   (* stale callback guard *)
  else
    logM "[NIM Gateway] Kicked offline:" [] >>
    modifyStatus (status_connected false) >>
    modifyStatus (status_lastError (Some (lit "Kicked offline"))) >>
    effect (Emit (Ev_error (Error (lit "Kicked offline")))) >>
    effect (Emit Ev_status) >>
    scheduleReconnect 5000.

(** [boundOnLoginFailed] *)
Definition onLoginFailed (error : option SdkError) : M unit :=
  let* g := getThis in
  if negb (isSome (v2Client g)) then ret tt   (* stale callback guard *)
  else
    logM "[NIM Gateway] Login failed:" [] >>
    modifyStatus (status_connected false) >>
    let lastErr :=
      lit "Login failed: "
      ++ match error with
         | Some err =>
             if truthy_opt (err_desc err) then String_of (err_desc err)
             else err_json err
         | None => lit "undefined"
         end in
    modifyStatus (status_lastError (Some lastErr)) >>
    effect (Emit (Ev_error (Error lastErr))) >>
    effect (Emit Ev_status) >>
    let delay :=
      Z.min (if reconnectAttempts g <=? 1 then 3000
             else 3000 * 2 ^ (reconnectAttempts g - 1))
            MAX_RECONNECT_DELAY_MS in
    scheduleReconnect delay.

(** [boundOnDisconnected] *)
Definition onDisconnected : M unit :=
  let* g := getThis in
  if negb (isSome (v2Client g)) then ret tt   (* stale callback guard *)
  else
    logM "[NIM Gateway] Disconnected:" [] >>
    modifyStatus (status_connected false) >>
    modifyStatus (status_lastError (Some (lit "Disconnected"))) >>
    effect (Emit Ev_disconnected) >>
    effect (Emit Ev_status) >>
    scheduleReconnect 3000.

(** ** Reading traces *)

#[global] Instance EventName_eq_dec : EqDecision EventName.
Proof. solve_decision. Defined.

#[global] Instance BoundCallback_eq_dec : EqDecision BoundCallback.
Proof. solve_decision. Defined.

(** The native teardown was invoked (whether it returned or raised). *)
Definition isUninit (e : Effect) : bool :=
  match e with
  | SdkReturned Sdk_uninit | SdkRaised Sdk_uninit _ => true
  | _ => false
  end.

(** A listener removal was invoked. *)
Definition isOff (e : Effect) : bool :=
  match e with
  | SdkReturned (Sdk_off _ _) | SdkRaised (Sdk_off _ _) _ => true
  | _ => false
  end.

(** The listener [cb] of event [ev] was removed: the call returned. *)
Definition unregisters (ev : EventName) (cb : BoundCallback) (e : Effect) : bool :=
  match e with
  | SdkReturned (Sdk_off ev' cb') => bool_decide (ev' = ev) && bool_decide (cb' = cb)
  | _ => false
  end.

(** The effects before, and after, the first invocation of [uninit]. *)
Fixpoint beforeUninit (tr : list Effect) : list Effect :=
  match tr with
  | [] => []
  | e :: tr' => if isUninit e then [] else e :: beforeUninit tr'
  end.

Fixpoint afterUninit (tr : list Effect) : list Effect :=
  match tr with
  | [] => []
  | e :: tr' => if isUninit e then tr' else afterUninit tr'
  end.

(** The five bound callbacks, each with the event it is registered for. *)
Definition boundCallbacks : list (EventName * BoundCallback) :=
  [(receiveMessages, OnReceiveMessages); (loginStatus, OnLoginStatus);
   (kickedOffline, OnKickedOffline); (loginFailed, OnLoginFailed);
   (disconnected, OnDisconnected)].

(** [uninit] is invoked, and each of the five bound callbacks has been
    removed before that. *)
Definition unregisteredBeforeUninit (tr : list Effect) : bool :=
  existsb isUninit tr
  && forallb (fun b => existsb (unregisters b.1 b.2) (beforeUninit tr))
       boundCallbacks.

Definition isSleep (e : Effect) : bool :=
  match e with Sleep _ => true | _ => false end.

Definition isSdk (e : Effect) : bool :=
  match e with SdkReturned _ | SdkRaised _ _ => true | _ => false end.

Definition isEmit (e : Effect) : bool :=
  match e with Emit _ => true | _ => false end.

Definition isMessageEvent (e : Effect) : bool :=
  match e with Emit (Ev_message _) => true | _ => false end.

Definition isInvokeCallback (e : Effect) : bool :=
  match e with InvokeCallback _ => true | _ => false end.

(** How many normalized messages a run delivered ([message] events), and
    how many times it invoked the application callback. *)
Definition delivered (tr : list Effect) : nat :=
  length (List.filter isMessageEvent tr).

Definition callbackInvocations (tr : list Effect) : nat :=
  length (List.filter isInvokeCallback tr).

(** The messages handed to [sendMessage], in order. *)
Fixpoint sendAttempts (tr : list Effect) : list NimMessage :=
  match tr with
  | [] => []
  | SdkReturned (Sdk_sendMessage m _) :: tr'
  | SdkRaised (Sdk_sendMessage m _) _ :: tr' => m :: sendAttempts tr'
  | _ :: tr' => sendAttempts tr'
  end.

(** What the media loop of [sendReplyWithMedia] reports about a marker:
    its file was not found, its file was sent, or sending it failed. *)
Inductive MarkerReport :=
  | NotFound (path : list N)
  | Sent (path : list N)
  | Failed (path : list N).

Definition reportOfEffect (e : Effect) : option MarkerReport :=
  match e with
  | LogCall _ msg p =>
      if String.eqb msg "[NIM Gateway] Media file not found:" then Some (NotFound p)
      else if String.eqb msg "[NIM Gateway] Sent media:" then Some (Sent p)
      else None
  | Console msg p =>
      if String.eqb msg "[NIM Gateway] Failed to send media" then Some (Failed p)
      else None
  | _ => None
  end.

Definition markerReports (tr : list Effect) : list MarkerReport :=
  omap reportOfEffect tr.

Definition isReport (e : Effect) : bool := isSome (reportOfEffect e).

(** What is to be reported about a marker, on a given heap: not found
    when its file does not exist; otherwise sent or failed, as [sendMedia]
    completes. *)
Definition reportFor (env : NodeEnv) (to : list N) (h : Heap)
    (marker : MediaMarker) : MarkerReport :=
  let p := marker_path marker in
  if negb (existsSync env p) then NotFound p
  else match completion (sendMedia env to p h) with
       | Normal _ => Sent p
       | Thrown _ => Failed p
       end.

(** The messages [sendMedia] hands to the SDK for the markers whose file
    exists, in marker order. *)
Definition mediaAttemptsFor (env : NodeEnv) (to : list N) (h : Heap)
    (markers : list MediaMarker) : list NimMessage :=
  flat_map (fun marker =>
    if existsSync env (marker_path marker)
    then sendAttempts (effects (sendMedia env to (marker_path marker) h))
    else []) markers.

(** A gateway with a live native handle as [start] leaves it: the
    services are present and the five callbacks are bound. *)
Definition running (g : NimGateway) : Prop :=
  isSome (v2Client g) = true
  /\ isSome (loginService g) = true
  /\ isSome (messageService g) = true
  /\ boundOnReceiveMessages g = Some OnReceiveMessages
  /\ boundOnLoginStatus g = Some OnLoginStatus
  /\ boundOnKickedOffline g = Some OnKickedOffline
  /\ boundOnLoginFailed g = Some OnLoginFailed
  /\ boundOnDisconnected g = Some OnDisconnected.

(** No listener removal raises. *)
Definition offsReturn (g : NimGateway) : Prop :=
  (forall ms ev, messageService g = Some ms -> ms_off ms ev = Returns tt)
  /\ (forall ls ev, loginService g = Some ls -> ls_off ls ev = Returns tt).

(** The SDK initialises without error: the client is created, the data
    directory resolves, [init] returns no error, both services are
    available, and registering the listeners and issuing the login
    return. *)
Definition sdkInitSucceeds (env : NodeEnv) (cfg : NimConfig)
    (appDataPathOverride : option (list N)) : Prop :=
  exists client ls ms,
    new_V2NIMClient env = Returns client
    /\ (truthy_opt appDataPathOverride = true
        \/ exists dataPath, getSdkDataPath env (account cfg) = Returns dataPath)
    /\ (forall dataPath, client_init client (appKey cfg) dataPath = Returns None)
    /\ client_getLoginService client = Some ls
    /\ client_getMessageService client = Some ms
    /\ (forall ev, ms_on ms ev = Returns tt)
    /\ (forall ev, ls_on ls ev = Returns tt)
    /\ ls_login ls (account cfg) (token cfg) = Returns tt.

(** ** A sample environment

    Concrete SDK objects, used to run the model on examples. *)

Definition sampleCreator : V2NIMMessageCreator :=
  {| createTextMessage := fun text => Some (TextMessage text);
     createImageMessage := fun p n => Some (ImageMessage p n);
     createAudioMessage := Some (fun p n => Some (AudioMessage p n));
     createVideoMessage := Some (fun p n => Some (VideoMessage p n));
     createFileMessage := fun p n => Some (FileMessage p n) |}.

(** A message service whose [sendMessage] rejects for the paths in
    [failing]. *)
Definition sampleMessageService (failing : list (list N)) : V2NIMMessageService :=
  {| ms_on := fun _ => Returns tt;
     ms_off := fun _ => Returns tt;
     ms_sendMessage := fun m _ =>
       match m with
       | TextMessage _ => Returns tt
       | ImageMessage p _ | AudioMessage p _ | VideoMessage p _ | FileMessage p _ =>
           if bool_decide (p ∈ failing)
           then Raises (Error (lit "send failed")) else Returns tt
       end |}.

(** A login service; with [offRaises], removing the login-status
    listener raises. *)
Definition sampleLoginService (offRaises : bool) : V2NIMLoginService :=
  {| ls_on := fun _ => Returns tt;
     ls_off := fun ev =>
       if offRaises && bool_decide (ev = loginStatus)
       then Raises (Error (lit "off failed")) else Returns tt;
     ls_login := fun _ _ => Returns tt |}.

Definition sampleClient (offRaises : bool) (initError : option SdkError)
    (failing : list (list N)) : V2NIMClient :=
  {| client_init := fun _ _ => Returns initError;
     client_getLoginService := Some (sampleLoginService offRaises);
     client_getMessageService := Some (sampleMessageService failing);
     client_messageCreator := Some sampleCreator;
     client_conversationIdUtil := None;
     client_uninit := Returns None |}.

(** The extension of a path: from its last dot, if any. *)
Fixpoint sampleExtname (p : list N) : list N :=
  match p with
  | [] => []
  | c :: p' =>
      match sampleExtname p' with
      | [] => if N.eqb c 46 then p else []
      | ext => ext
      end
  end.

Definition sampleEnv (offRaises : bool) (initError : option SdkError)
    (failing : list (list N)) : NodeEnv :=
  {| new_V2NIMClient := Returns (sampleClient offRaises initError failing);
     getSdkDataPath := fun acct => Returns (lit "/data/nim-data/" ++ acct);
     existsSync := fun p =>
       bool_decide (p ∈ [lit "/tmp/a.png"; lit "/tmp/b.pdf"; lit "/tmp/c.mp3"]);
     path_extname := sampleExtname;
     path_basename := fun p => p;
     toLowerCase := fun s => s;
     downloadNimMedia := fun _ _ _ => None |}.

(** A parser that finds the given markers and strips the text to
    [stripped], whatever the text. *)
Definition sampleParser (markers : list MediaMarker) (stripped : list N) : MediaParser :=
  {| parseMediaMarkers := fun _ => markers;
     stripMediaMarkers := fun _ _ => stripped |}.

Definition sampleConfig : NimConfig :=
  {| enabled := true; appKey := lit "key"; account := lit "bot";
     token := lit "secret"; accountWhitelist := Some (lit "a,b");
     debug := true |}.

(** The empty heap of a freshly constructed gateway. *)
Definition freshHeap : Heap := mkHeap newGateway ∅.

(** The heap after a successful [start] in the sample environment. *)
Definition runningHeap (offRaises : bool) (failing : list (list N)) : Heap :=
  heap (start (sampleEnv offRaises None failing) sampleConfig None freshHeap).

(** A message service whose [sendMessage] rejects every text message
    and accepts every media message. *)
Definition textRejectingService : V2NIMMessageService :=
  {| ms_on := fun _ => Returns tt;
     ms_off := fun _ => Returns tt;
     ms_sendMessage := fun m _ =>
       match m with
       | TextMessage _ => Raises (Error (lit "text rejected"))
       | _ => Returns tt
       end |}.

(** The sample environment with that message service. *)
Definition textRejectingEnv : NodeEnv :=
  {| new_V2NIMClient :=
       Returns
         {| client_init := fun _ _ => Returns None;
            client_getLoginService := Some (sampleLoginService false);
            client_getMessageService := Some textRejectingService;
            client_messageCreator := Some sampleCreator;
            client_conversationIdUtil := None;
            client_uninit := Returns None |};
     getSdkDataPath := getSdkDataPath (sampleEnv false None []);
     existsSync := existsSync (sampleEnv false None []);
     path_extname := sampleExtname;
     path_basename := fun p => p;
     toLowerCase := fun s => s;
     downloadNimMedia := fun _ _ _ => None |}.

(** The heap after a successful [start] in that environment. *)
Definition textRejectingHeap : Heap :=
  heap (start textRejectingEnv sampleConfig None freshHeap).

(** The gateway at the two points of [stop] where it calls into the
    SDK: when it removes the listeners, and when it tears the client
    down. *)
Definition atRemoveListeners (g : NimGateway) : NimGateway :=
  set_reconnectAttempts 0 (set_reconnectTimer None (set_stopRequested true g)).

Definition atUninit (g : NimGateway) : NimGateway :=
  set_boundOnDisconnected None
    (set_boundOnLoginFailed None
       (set_boundOnKickedOffline None
          (set_boundOnLoginStatus None
             (set_boundOnReceiveMessages None (atRemoveListeners g))))).

(** The gateway that [stop] leaves behind when there was a live handle:
    native references, bound callbacks, timer and interval gone, status
    reset (the bot account is kept), stop requested; config, callback,
    notification target and logger as before. *)
Definition stoppedGateway (g : NimGateway) : NimGateway :=
  {| v2Client := None; loginService := None; messageService := None;
     messageCreator := None; conversationIdUtil := None;
     config := config g;
     status :=
       {| connected := false; startedAt := None; lastError := None;
          botAccount := botAccount (status g); lastInboundAt := None;
          lastOutboundAt := None |};
     onMessageCallback := onMessageCallback g;
     lastSenderId := lastSenderId g;
     log := log g;
     reconnectTimer := None;
     reconnectAttempts := 0;
     cleanupInterval := None;
     boundOnReceiveMessages := None; boundOnLoginStatus := None;
     boundOnKickedOffline := None; boundOnLoginFailed := None;
     boundOnDisconnected := None;
     stopRequested := true |}.

Definition sampleInitError : SdkError :=
  {| err_code := 414; err_desc := Some (lit "bad appkey"); err_json := lit "{}" |}.

(** The heap after a [start] whose SDK initialisation failed: the config
    is stored, there is no native handle. *)
Definition failedStartHeap : Heap :=
  heap (start (sampleEnv false (Some sampleInitError) []) sampleConfig None freshHeap).

(** A run preceded by the effects [tr]. *)
Definition prepend {A} (tr : list Effect) (r : Run A) : Run A :=
  mkRun (tr ++ effects r) (heap r) (completion r).

(** The gateway when [startInternal] enters its [try] block. *)
Definition atTry (cfg : NimConfig) (g : NimGateway) : NimGateway :=
  set_log (if debug cfg then ConsoleLogger else NoopLogger)
    (set_config (Some cfg) (set_config (Some cfg) (set_stopRequested false g))).

(** Three markers: a picture that exists, a picture that does not, and a
    document that exists. *)
Definition sampleMarkers : list MediaMarker :=
  [ {| marker_type := lit "image"; marker_path := lit "/tmp/a.png" |};
    {| marker_type := lit "image"; marker_path := lit "/tmp/missing.png" |};
    {| marker_type := lit "file"; marker_path := lit "/tmp/b.pdf" |} ].

(** The stages of the inbound pipeline other than deduplication: the
    message is not from the gateway's own account, passes the whitelist,
    has a supported type, belongs to a p2p conversation and, when it is a
    text, is not blank. *)
Definition passesOtherFilters (cfg : option NimConfig) (msg : V2Message) : bool :=
  negb (isSelfMessage cfg (senderIdOf msg))
  && negb (rejectedByWhitelist cfg (senderIdOf msg))
  && isSupportedType (convertMessageType (v2_messageType msg))
  && bool_decide
       (sessionType (parseConversationId
                       (String_of (or_else (v2_conversationId msg) (Some []))))
        = p2p)
  && match convertMessageType (v2_messageType msg) with
     | text_t => truthy (trim (String_of (or_else (v2_text msg) (Some []))))
     | _ => true
     end.

(** A message or a callback invocation. *)
Definition isInbound (e : Effect) : bool := isMessageEvent e || isInvokeCallback e.

(** A sample inbound text message from [alice] with server id [m1]. *)
Definition sampleMessage : V2Message :=
  {| v2_messageServerId := Some (lit "m1");
     v2_messageClientId := Some (lit "c1");
     v2_senderId := Some (lit "a");
     v2_messageType := 0;
     v2_conversationId := Some (lit "0|1|a");
     v2_text := Some (lit "hello");
     v2_attachment := None;
     v2_createTime := Some 1000 |}.

Definition sampleClock (now : Z) : Clock :=
  {| now_cleanup := now; now_seen := now; now_timestamp := now;
     now_inbound := now; now_outbound := now |}.

Definition sampleCallback : MessageCallback := {| cb_outcome := fun _ => None |}.

(** The running sample gateway with an application callback set. *)
Definition listeningHeap : Heap :=
  heap (setMessageCallback sampleCallback (runningHeap false [])).

(** ** Properties of computations *)

(** [pureM m]: whatever [m] does to the outside, and however it
    completes, the heap after it is the heap before it. *)
Definition pureM {A} (m : M A) : Prop := forall h, heap (m h) = h.

(** A pure computation that always completes normally only adds its
    effects. *)
Definition quietM (m : M unit) : Prop :=
  forall h, exists tr, m h = mkRun tr h (Normal tt).

(** Computations none of whose effects satisfies [f]. *)
Definition avoids {A} (f : Effect -> bool) (m : M A) : Prop :=
  forall h, existsb f (effects (m h)) = false.

(** Computations that leave one view of the heap alone. *)
Definition preserves {A X} (view : Heap -> X) (m : M A) : Prop :=
  forall h, view (heap (m h)) = view h.

(** ** Notifications *)

(** Get the current notification target for persistence. *)
Definition getNotificationTarget : M (option (list N)) :=
  let* g := getThis in ret (lastSenderId g).

(** Restore notification target from persisted state. *)
Definition setNotificationTarget (senderId : list N) : M unit :=
  modifyThis (set_lastSenderId (Some senderId)).

(** Send a notification message to the last known sender; [now] is
    [Date.now()]. *)
Definition sendNotification (now : Z) (text : list N) : M unit :=
  let* g := getThis in
  if negb (truthy_opt (lastSenderId g)) || negb (isSome (messageService g))
  then throw (Error (lit "No conversation available for notification"))
  else
    sendLongText (String_of (lastSenderId g)) text >>
    modifyStatus (status_lastOutboundAt (Some now)).

(** Send a notification message with media support to the last known
    sender. *)
Definition sendNotificationWithMedia (parser : MediaParser) (env : NodeEnv)
    (now : Z) (text : list N) : M unit :=
  let* g := getThis in
  if negb (truthy_opt (lastSenderId g)) || negb (isSome (messageService g))
  then throw (Error (lit "No conversation available for notification"))
  else
    sendReplyWithMedia parser env (String_of (lastSenderId g)) text >>
    modifyStatus (status_lastOutboundAt (Some now)).

(** ** More readers of traces *)

Definition isSetTimeout (e : Effect) : bool :=
  match e with SetTimeout _ => true | _ => false end.

Definition isTimerEffect (e : Effect) : bool :=
  match e with SetTimeout _ | ClearTimeout => true | _ => false end.

Definition isSetInterval (e : Effect) : bool :=
  match e with SetInterval => true | _ => false end.

(** The heap at which the callback of a reconnect timer calls [start]:
    the timer handle is dropped, the attempt is counted, the gateway is
    stopped and the stop request is cleared again. *)
Definition atRestart (h : Heap) : Heap :=
  heap ((modifyThis (set_reconnectTimer None) >>
         modifyThis (fun g => set_reconnectAttempts (reconnectAttempts g + 1) g) >>
         stop >>
         modifyThis (set_stopRequested false)) h).

(** The delays of the timers a run sets, in order. *)
Definition scheduledDelays (tr : list Effect) : list Z :=
  omap (fun e => match e with SetTimeout d => Some d | _ => None end) tr.

(** The index at which one iteration of the loop of
    [splitMessageIntoChunks] cuts [remaining]: the last newline at or
    before [maxLength], else the last space, else [maxLength] itself. *)
Definition splitIndexOf (remaining : list N) (maxLength : Z) : Z :=
  let splitIndex := lastIndexOf remaining 10 maxLength in
  let splitIndex :=
    if (splitIndex =? -1) || (2 * splitIndex <? maxLength)
    then lastIndexOf remaining 32 maxLength else splitIndex in
  let splitIndex :=
    if (splitIndex =? -1) || (2 * splitIndex <? maxLength)
    then maxLength else splitIndex in
  splitIndex.

(** A chunk that does not begin with white space. *)
Definition startsWithText (c : list N) : bool :=
  match c with
  | x :: _ => negb (is_ws x)
  | [] => false
  end.

(** ** The stages of the inbound pipeline *)

(** The filters on the sender, which come before the dedup step. *)
Definition passesSenderFilters (cfg : option NimConfig) (msg : V2Message) : bool :=
  negb (isSelfMessage cfg (senderIdOf msg))
  && negb (rejectedByWhitelist cfg (senderIdOf msg)).

(** The dedup step on heap [h]: the id is not in the map once the expired
    entries are evicted. *)
Definition isFresh (clk : Clock) (h : Heap) (msg : V2Message) : bool :=
  negb (isSome (evictExpired (now_cleanup clk) (processedMessages h)
                !! messageIdOf msg)).

(** The filters on the content, which come after the dedup step: a
    supported type, a p2p conversation, and a text that is not blank. *)
Definition passesContentFilters (msg : V2Message) : bool :=
  isSupportedType (convertMessageType (v2_messageType msg))
  && bool_decide
       (sessionType (parseConversationId
                       (String_of (or_else (v2_conversationId msg) (Some []))))
        = p2p)
  && match convertMessageType (v2_messageType msg) with
     | text_t => truthy (trim (String_of (or_else (v2_text msg) (Some []))))
     | _ => true
     end.

(** A notification of the SDK (type 5) that carries the id of
    [sampleMessage]. *)
Definition sampleNotice : V2Message :=
  {| v2_messageServerId := Some (lit "m1");
     v2_messageClientId := None;
     v2_senderId := Some (lit "a");
     v2_messageType := 5;
     v2_conversationId := Some (lit "0|1|a");
     v2_text := None;
     v2_attachment := None;
     v2_createTime := Some 900 |}.

(** ** Sequences of calls *)

(** What can run on a gateway: its public methods, the reply function it
    hands to the application, the five callbacks it registers with the
    SDK, and the callback of its reconnect timer.  Each carries the
    arguments and the readings of the environment of that run. *)
Inductive Call :=
  | CallStart (env : NodeEnv) (cfg : NimConfig) (appDataPathOverride : option (list N))
  | CallStop
  | CallUpdateConfig (partial : PartialNimConfig)
  | CallReconnectIfNeeded
  | CallSetMessageCallback (callback : MessageCallback)
  | CallSetNotificationTarget (senderId : list N)
  | CallSendNotification (now : Z) (text : list N)
  | CallSendNotificationWithMedia (parser : MediaParser) (env : NodeEnv)
      (now : Z) (text : list N)
  | CallCleanupMediaFiles
  | CallReply (parser : MediaParser) (env : NodeEnv) (clk : Clock)
      (senderId text : list N)
  | EventReceiveMessages (parser : MediaParser) (env : NodeEnv)
      (messages : list (Clock * V2Message))
  | EventLoginStatus (now status : Z)
  | EventKickedOffline
  | EventLoginFailed (error : option SdkError)
  | EventDisconnected
  | TimerFires (env : NodeEnv).

(** One call, run to completion.  The timer that fires is the pending
    one; without a pending timer nothing runs. *)
Definition runCall (c : Call) : M unit :=
  match c with
  | CallStart env cfg override => start env cfg override
  | CallStop => stop
  | CallUpdateConfig partial => updateConfig partial
  | CallReconnectIfNeeded => reconnectIfNeeded
  | CallSetMessageCallback callback => setMessageCallback callback
  | CallSetNotificationTarget senderId => setNotificationTarget senderId
  | CallSendNotification now text => sendNotification now text
  | CallSendNotificationWithMedia parser env now text =>
      sendNotificationWithMedia parser env now text
  | CallCleanupMediaFiles => cleanupMediaFiles
  | CallReply parser env clk senderId text => replyFn parser env clk senderId text
  | EventReceiveMessages parser env messages => onReceiveMessages parser env messages
  | EventLoginStatus now status => onLoginStatus now status
  | EventKickedOffline => onKickedOffline
  | EventLoginFailed error => onLoginFailed error
  | EventDisconnected => onDisconnected
  | TimerFires env =>
      let* g := getThis in
      match reconnectTimer g with
      | Some t => reconnectTimerFired env t
      | None => ret tt
      end
  end.

(** The heap after a sequence of calls, one at a time; a call that
    raises does not keep the later ones from running. *)
Definition runCalls (calls : list Call) (h : Heap) : Heap :=
  fold_left (fun h c => heap (runCall c h)) calls h.

(** The native references agree with each other and with the status:
    without a handle there are no services, no cleanup interval and no
    connection; with a handle both services are there. *)
Definition coherent (g : NimGateway) : Prop :=
  (v2Client g = None ->
     loginService g = None /\ messageService g = None
     /\ messageCreator g = None /\ conversationIdUtil g = None
     /\ cleanupInterval g = None /\ connected (status g) = false)
  /\ (isSome (v2Client g) = true ->
        isSome (loginService g) = true /\ isSome (messageService g) = true)
  /\ (stopRequested g = true -> v2Client g = None /\ reconnectTimer g = None)
  /\ (isSome (reconnectTimer g) = true -> isSome (config g) = true).

(** What holds of the gateway between calls. *)
Definition consistent (g : NimGateway) : Prop :=
  reconnectAttempts g = 0 /\ coherent g.

(** The fields of the gateway that [consistent] reads. *)
Definition lifecycleView (h : Heap) :=
  let g := this h in
  (reconnectAttempts g, v2Client g, loginService g, messageService g,
   messageCreator g, conversationIdUtil g, cleanupInterval g,
   connected (status g), stopRequested g, reconnectTimer g, config g).

(** The delays at which the gateway schedules a reconnect when its attempt
    counter is 0: at once (external trigger), the retry of a failed
    restart, a login failure or a disconnect, a kick. *)
Definition baseDelays : list Z := [0; 2000; 3000; 5000].

(** The native initialisations and teardowns of a run, in order: [true]
    for an [init], [false] for an [uninit] (whether it returned or
    raised). *)
Definition lifecycleCalls (tr : list Effect) : list bool :=
  omap (fun e =>
          match e with
          | SdkReturned (Sdk_init _ _) | SdkRaised (Sdk_init _ _) _ => Some true
          | SdkReturned Sdk_uninit | SdkRaised Sdk_uninit _ => Some false
          | _ => None
          end) tr.

Definition isLifecycleCall (e : Effect) : bool :=
  match e with
  | SdkReturned (Sdk_init _ _) | SdkRaised (Sdk_init _ _) _
  | SdkReturned Sdk_uninit | SdkRaised Sdk_uninit _ => true
  | _ => false
  end.

(** The heap at which the handler invokes the application callback for
    [msg]: the id is recorded, the inbound time stamped, the sender
    stored. *)
Definition atDelivery (clk : Clock) (msg : V2Message) (h : Heap) : Heap :=
  mkHeap
    (set_lastSenderId (Some (senderIdOf msg))
       (set_status (status_lastInboundAt (Some (now_inbound clk)) (status (this h)))
          (this h)))
    (<[messageIdOf msg := now_seen clk]>
       (evictExpired (now_cleanup clk) (processedMessages h))).

(** An application callback that rejects every message, and the running
    sample gateway with that callback set. *)
Definition rejectingCallback : MessageCallback :=
  {| cb_outcome := fun _ => Some (Error (lit "boom")) |}.

Definition rejectingHeap : Heap :=
  heap (setMessageCallback rejectingCallback (runningHeap false [])).

(** The normalized messages a run emits as [message] events, in order. *)
Definition emittedMessages (tr : list Effect) : list IMMessage :=
  omap (fun e => match e with Emit (Ev_message m) => Some m | _ => None end) tr.

(** A picture message with an attachment at a URL, from the sender of
    [sampleMessage]. *)
Definition samplePicture : V2Message :=
  {| v2_messageServerId := Some (lit "m2");
     v2_messageClientId := None;
     v2_senderId := Some (lit "a");
     v2_messageType := 1;
     v2_conversationId := Some (lit "0|1|a");
     v2_text := None;
     v2_attachment :=
       Some {| v2a_url := Some (lit "https://nos/x.png"); v2a_name := None;
               v2a_size := None; v2a_width := None; v2a_height := None;
               v2a_duration := None |};
     v2_createTime := Some 1000 |}.

(** ** Media types ([nimMedia.ts]) *)

(** The extension-to-MIME table of [inferMimeType], in source order.  The
    keys all begin with a dot, as does every non-empty result of
    [path.extname], so no inherited property of the object is ever looked
    up. *)
Definition mimeMap : list (string * string) :=
  [(".jpg", "image/jpeg"); (".jpeg", "image/jpeg"); (".png", "image/png");
   (".gif", "image/gif"); (".webp", "image/webp"); (".bmp", "image/bmp");
   (".mp3", "audio/mpeg"); (".wav", "audio/wav"); (".aac", "audio/aac");
   (".m4a", "audio/mp4"); (".ogg", "audio/ogg"); (".amr", "audio/amr");
   (".mp4", "video/mp4"); (".mov", "video/quicktime"); (".avi", "video/x-msvideo");
   (".mkv", "video/x-matroska"); (".webm", "video/webm"); (".flv", "video/x-flv");
   (".pdf", "application/pdf"); (".zip", "application/zip");
   (".rar", "application/x-rar-compressed"); (".doc", "application/msword");
   (".docx",
    "application/vnd.openxmlformats-officedocument.wordprocessingml.document");
   (".xls", "application/vnd.ms-excel");
   (".xlsx", "application/vnd.openxmlformats-officedocument.spreadsheetml.sheet");
   (".ppt", "application/vnd.ms-powerpoint");
   (".pptx",
    "application/vnd.openxmlformats-officedocument.presentationml.presentation");
   (".txt", "text/plain")]%string.

(** [mimeMap[ext]] *)
Fixpoint mimeLookup (table : list (string * string)) (ext : list N)
    : option (list N) :=
  match table with
  | [] => None
  | (k, v) :: table' =>
      if bool_decide (lit k = ext) then Some (lit v) else mimeLookup table' ext
  end.

(** Infer the MIME type from the file extension. *)
Definition inferMimeType (env : NodeEnv) (filePath : list N) : list N :=
  let ext := toLowerCase env (path_extname env filePath) in
  String_of (or_else (mimeLookup mimeMap ext) (Some (lit "application/octet-stream"))).

(** [s.startsWith(prefix)] *)
Fixpoint startsWith (s pre : list N) : bool :=
  match pre, s with
  | [], _ => true
  | p :: pre', c :: s' => N.eqb p c && startsWith s' pre'
  | _ :: _, [] => false
  end.

(** ** Accounting for the reconnect timers *)

(** Timers set minus timers cancelled by a run. *)
Fixpoint timerBalance (tr : list Effect) : Z :=
  match tr with
  | [] => 0
  | SetTimeout _ :: tr' => timerBalance tr' + 1
  | ClearTimeout :: tr' => timerBalance tr' - 1
  | _ :: tr' => timerBalance tr'
  end.

(** Whether the gateway holds the handle of a pending timer: 1 or 0. *)
Definition heldTimers (h : Heap) : Z :=
  if isSome (reconnectTimer (this h)) then 1 else 0.

(** The timers outstanding after a sequence of calls that started with
    [pending] of them: each call adds the timers it sets and removes the
    ones it cancels; a timer that fires is no longer outstanding. *)
Fixpoint outstandingTimers (calls : list Call) (h : Heap) (pending : Z) : Z :=
  match calls with
  | [] => pending
  | c :: calls' =>
      let r := runCall c h in
      let fired :=
        match c with
        | TimerFires _ => heldTimers h
        | _ => 0
        end in
      outstandingTimers calls' (heap r) (pending + timerBalance (effects r) - fired)
  end.

(** * Properties *)

(** ** Strings *)

Lemma lastIndexOf_from_range s ch i limit acc :
  0 <= i -> (acc = -1 \/ 0 <= acc <= limit) ->
  lastIndexOf_from s ch i limit acc = -1
  \/ 0 <= lastIndexOf_from s ch i limit acc <= limit.
Proof.
  revert i acc. induction s as [|c s IH]; intros i acc Hi Hacc; simpl.
  - exact Hacc.
  - apply IH; [lia|].
    destruct (N.eqb c ch && (i <=? limit)) eqn:E; [|exact Hacc].
    apply andb_true_iff in E as [_ E]. apply Z.leb_le in E. right. lia.
Qed.

Lemma lastIndexOf_range s ch position :
  lastIndexOf s ch position = -1
  \/ 0 <= lastIndexOf s ch position <= Z.max position 0.
Proof. apply lastIndexOf_from_range; [lia | by left]. Qed.

Lemma slice_prefix (s : list N) k :
  0 <= k <= len s -> slice s 0 k = take (Z.to_nat k) s.
Proof.
  intros Hk. unfold slice, rel_index.
  destruct (0 <? 0) eqn:E0; [apply Z.ltb_lt in E0; lia|].
  destruct (k <? 0) eqn:Ek; [apply Z.ltb_lt in Ek; lia|].
  rewrite Z.min_l by lia. rewrite Z.min_l by (unfold len; lia).
  simpl. by rewrite Z.sub_0_r.
Qed.

Lemma slice_from_suffix (s : list N) k :
  0 <= k <= len s -> slice_from s k = drop (Z.to_nat k) s.
Proof.
  intros Hk. unfold slice_from, slice, rel_index.
  destruct (k <? 0) eqn:Ek; [apply Z.ltb_lt in Ek; lia|].
  destruct (len s <? 0) eqn:El; [apply Z.ltb_lt in El; unfold len in El; lia|].
  rewrite (Z.min_l k) by lia. rewrite Z.min_id.
  apply take_ge. rewrite length_drop. unfold len. lia.
Qed.

Lemma trimStart_length s : (length (trimStart s) <= length s)%nat.
Proof.
  induction s as [|c s IH]; simpl; [lia|].
  destruct (is_ws c); simpl; lia.
Qed.

Lemma leadingWs_trimStart s : leadingWs s ++ trimStart s = s.
Proof.
  induction s as [|c s IH]; simpl; [done|].
  destruct (is_ws c); simpl; [by rewrite IH | done].
Qed.

Lemma leadingWs_all_ws s : forallb is_ws (leadingWs s) = true.
Proof.
  induction s as [|c s IH]; simpl; [done|].
  destruct (is_ws c) eqn:E; simpl; [by rewrite E | done].
Qed.

(** ** Chunking *)

(** The split index chosen by one iteration lies in [1 .. maxLength]. *)
Lemma splitIndex_range (remaining : list N) maxLength :
  1 <= maxLength ->
  let splitIndex := lastIndexOf remaining 10 maxLength in
  let splitIndex :=
    if (splitIndex =? -1) || (2 * splitIndex <? maxLength)
    then lastIndexOf remaining 32 maxLength else splitIndex in
  let splitIndex :=
    if (splitIndex =? -1) || (2 * splitIndex <? maxLength)
    then maxLength else splitIndex in
  1 <= splitIndex <= maxLength.
Proof.
  intros HN. cbv zeta.
  pose proof (lastIndexOf_range remaining 10 maxLength) as H10.
  pose proof (lastIndexOf_range remaining 32 maxLength) as H32.
  rewrite Z.max_l in H10, H32 by lia.
  repeat match goal with
  | |- context [if ?b then _ else _] =>
      let E := fresh "E" in destruct b eqn:E
  end;
  repeat match goal with
  | H : _ || _ = false |- _ => apply orb_false_iff in H as [? ?]
  | H : (_ =? _) = false |- _ => apply Z.eqb_neq in H
  | H : (_ <? _) = false |- _ => apply Z.ltb_ge in H
  end; lia.
Qed.

Lemma reassembles_weave text chunks :
  reassembles text chunks = true ->
  weave chunks (trimmedGaps text chunks) = text
  /\ length (trimmedGaps text chunks) = length chunks
  /\ Forall (fun g => forallb is_ws g = true) (trimmedGaps text chunks).
Proof.
  revert text. induction chunks as [|c cs IH]; intros text H; simpl in *.
  - apply bool_decide_eq_true in H. by subst.
  - apply andb_true_iff in H as [Hc Hcs]. apply bool_decide_eq_true in Hc.
    destruct (IH _ Hcs) as (Hw & Hl & Hf). repeat split.
    + rewrite Hw, leadingWs_trimStart. rewrite <- Hc at 1. apply take_drop.
    + by rewrite Hl.
    + constructor; [apply leadingWs_all_ws | done].
Qed.

Lemma splitLoop_spec maxLength (n : nat) :
  1 <= maxLength ->
  forall remaining : list N, (length remaining <= n)%nat ->
  exists cs,
    (forall fuel chunks, (length remaining < fuel)%nat ->
       splitLoop fuel remaining maxLength chunks = Some (chunks ++ cs))
    /\ Forall (fun c : list N => len c <= maxLength) cs
    /\ reassembles remaining cs = true.
Proof.
  intros HN. induction n as [|n IH]; intros remaining Hlen.
  - destruct remaining; [|simpl in Hlen; lia].
    exists []. split; [|split; [constructor | done]].
    intros [|fuel] chunks Hf; [simpl in Hf; lia|].
    simpl. by rewrite app_nil_r.
  - destruct (len remaining >? 0) eqn:Epos.
    2:{ assert (remaining = []) as ->.
        { destruct remaining; [done|]. unfold len in Epos. simpl length in Epos.
          rewrite Z.gtb_ltb in Epos. apply Z.ltb_ge in Epos. lia. }
        exists []. split; [|split; [constructor | done]].
        intros [|fuel] chunks Hf; [simpl in Hf; lia|].
        simpl. by rewrite app_nil_r. }
    destruct (len remaining <=? maxLength) eqn:Efit.
    + exists [remaining]. split; [|split].
      * intros [|fuel] chunks Hf; [lia|]. simpl. by rewrite Epos, Efit.
      * constructor; [|constructor]. by apply Z.leb_le.
      * simpl. rewrite firstn_all, drop_all. simpl.
        rewrite bool_decide_eq_true_2 by done. done.
    + apply Z.leb_gt in Efit.
      pose proof (splitIndex_range remaining maxLength HN) as Hk.
      cbv zeta in Hk.
      match type of Hk with _ <= ?x <= _ => set (k := x) in * end.
      assert (Hpre : slice remaining 0 k = take (Z.to_nat k) remaining)
        by (apply slice_prefix; lia).
      assert (Hsuf : slice_from remaining k = drop (Z.to_nat k) remaining)
        by (apply slice_from_suffix; lia).
      assert (Hklen : length (take (Z.to_nat k) remaining) = Z.to_nat k).
      { rewrite length_take. unfold len in Efit. lia. }
      destruct (IH (trimStart (drop (Z.to_nat k) remaining))) as (cs & Hrun & Hall & Hre).
      { pose proof (trimStart_length (drop (Z.to_nat k) remaining)) as Ht.
        rewrite length_drop in Ht. unfold len in Efit. lia. }
      exists (take (Z.to_nat k) remaining :: cs). split; [|split].
      * intros [|fuel] chunks Hf; [lia|].
        cbn [splitLoop]. rewrite Epos.
        destruct (len remaining <=? maxLength) eqn:E'; [apply Z.leb_le in E'; lia|].
        cbv zeta. fold k. rewrite Hpre, Hsuf.
        rewrite Hrun.
        -- by rewrite <- app_assoc.
        -- pose proof (trimStart_length (drop (Z.to_nat k) remaining)) as Ht.
           rewrite length_drop in Ht. unfold len in Efit. lia.
      * constructor; [|done]. unfold len. rewrite Hklen. lia.
      * simpl. rewrite Hklen. rewrite bool_decide_eq_true_2 by done. done.
Qed.

(** C2.  For every text and every maximum length of at least 1, the
    chunking returns (with any fuel above the length of the text) a list
    of chunks, each of length at most the maximum, that reproduces the
    text modulo the leading white space trimmed from each remainder: the
    text starts with the first chunk, and the rest, trimmed, is reproduced
    by the following chunks.  Equivalently, the text is the chunks
    interleaved with gaps, one after each chunk, that consist of white
    space only. *)
Theorem splitMessageIntoChunks_roundtrip (T : list N) (maxLength : Z) :
  1 <= maxLength ->
  exists chunks,
    (forall fuel, (length T < fuel)%nat ->
       splitMessageIntoChunks fuel T maxLength = Some chunks)
    /\ Forall (fun c : list N => len c <= maxLength) chunks
    /\ reassembles T chunks = true
    /\ exists gaps,
         length gaps = length chunks
         /\ Forall (fun g => forallb is_ws g = true) gaps
         /\ weave chunks gaps = T.
Proof.
  intros HN. unfold splitMessageIntoChunks.
  destruct (len T <=? maxLength) eqn:Efit.
  - assert (Hre : reassembles T [T] = true).
    { simpl. rewrite firstn_all, drop_all. simpl.
      by rewrite bool_decide_eq_true_2. }
    exists [T]. split; [done|]. split; [|split; [done|]].
    + constructor; [|constructor]. by apply Z.leb_le.
    + destruct (reassembles_weave _ _ Hre) as (Hw & Hl & Hf). eauto.
  - destruct (splitLoop_spec maxLength (length T) HN T) as (cs & Hrun & Hall & Hre);
      [lia|].
    exists cs. split; [|split; [done | split; [done|]]].
    + intros fuel Hf. by rewrite (Hrun fuel []).
    + destruct (reassembles_weave _ _ Hre) as (Hw & Hl & Hf). eauto.
Qed.

Lemma splitMessageIntoChunks_roundtrip_witness :
  1 <= 7 /\
  exists chunks,
    (forall fuel, (length (lit "hello world foo bar") < fuel)%nat ->
       splitMessageIntoChunks fuel (lit "hello world foo bar") 7 = Some chunks)
    /\ Forall (fun c : list N => len c <= 7) chunks
    /\ reassembles (lit "hello world foo bar") chunks = true
    /\ exists gaps,
         length gaps = length chunks
         /\ Forall (fun g => forallb is_ws g = true) gaps
         /\ weave chunks gaps = lit "hello world foo bar".
Proof.
  split; [lia|].
  apply (splitMessageIntoChunks_roundtrip (lit "hello world foo bar") 7). lia.
Defined.

(** The chunking of [sendLongText] always returns. *)
Lemma splitMessageIntoChunks_terminates (text : list N) :
  exists chunks,
    splitMessageIntoChunks (chunkFuel text) text MAX_MESSAGE_LENGTH = Some chunks
    /\ Forall (fun c : list N => len c <= MAX_MESSAGE_LENGTH) chunks.
Proof.
  unfold splitMessageIntoChunks.
  destruct (len text <=? MAX_MESSAGE_LENGTH) eqn:Efit.
  - exists [text]. split; [done|]. constructor; [|constructor]. by apply Z.leb_le.
  - destruct (splitLoop_spec MAX_MESSAGE_LENGTH (length text)) with (remaining := text)
      as (cs & Hrun & Hall & _); [unfold MAX_MESSAGE_LENGTH; lia | lia |].
    exists cs. split; [|done].
    rewrite (Hrun (chunkFuel text) []); [done | unfold chunkFuel; lia].
Qed.

(** ** Conversation identifiers *)

Lemma split_no_sep sep (s : list N) : sep ∉ s -> split sep s = [s].
Proof.
  induction s as [|c s IH]; intros Hs; simpl; [done|].
  apply not_elem_of_cons in Hs as [Hc Hs].
  destruct (N.eqb c sep) eqn:E; [apply N.eqb_eq in E; congruence|].
  by rewrite IH.
Qed.

(** What parsing recovers from a manually built conversation id: the
    target id always, the session type only for p2p and team. *)
Lemma parse_build_fallback (target : list N) (st : SessionType) :
  124%N ∉ target ->
  parseConversationId (buildConversationId None target st)
  = {| sessionType := match st with superTeam => p2p | _ => st end;
       targetId := target |}.
Proof.
  intros Hs. unfold parseConversationId, buildConversationId.
  destruct st; simpl; rewrite (split_no_sep _ _ Hs); reflexivity.
Qed.

(** C9, at the failing input.  The manual fallback builder encodes a
    superTeam conversation with target [u1] as [0|3|u1]; parsing it gives
    session type p2p, not superTeam. *)
Theorem parse_build_fallback_superTeam :
  buildConversationId None (lit "u1") superTeam = lit "0|3|u1"
  /\ parseConversationId (buildConversationId None (lit "u1") superTeam)
     = {| sessionType := p2p; targetId := lit "u1" |}
  /\ sessionType (parseConversationId (buildConversationId None (lit "u1") superTeam))
     <> superTeam.
Proof. repeat split. vm_compute. discriminate. Qed.

(** ** Runs *)

(** Symbolic execution: unfold the monad, the field accessors and the
    field assignments, and nothing else. *)
Ltac exec :=
  cbv beta iota zeta delta
    [bind ret throw tryCatch effect getThis modifyThis getProcessedMessages
     modifyProcessedMessages sdk native logM when forEach modifyStatus isSome
     effects heap completion this processedMessages
     v2Client loginService messageService messageCreator conversationIdUtil
     config status onMessageCallback lastSenderId log reconnectTimer
     reconnectAttempts cleanupInterval boundOnReceiveMessages
     boundOnLoginStatus boundOnKickedOffline boundOnLoginFailed
     boundOnDisconnected stopRequested
     set_v2Client set_loginService set_messageService set_messageCreator
     set_conversationIdUtil set_config set_status set_onMessageCallback
     set_lastSenderId set_log set_reconnectTimer set_reconnectAttempts
     set_cleanupInterval set_boundOnReceiveMessages set_boundOnLoginStatus
     set_boundOnKickedOffline set_boundOnLoginFailed set_boundOnDisconnected
     set_stopRequested
     connected startedAt lastError botAccount lastInboundAt lastOutboundAt
     status_connected status_startedAt status_lastError status_botAccount
     status_lastInboundAt status_lastOutboundAt
     negb andb orb];
  cbn [app].

Lemma run_eta {A} (r : Run A) : mkRun (effects r) (heap r) (completion r) = r.
Proof. by destruct r. Qed.

Lemma heap_eta (h : Heap) : mkHeap (this h) (processedMessages h) = h.
Proof. by destruct h. Qed.

Lemma bind_normal {A B} (m : M A) (k : A -> M B) h tr h' a :
  m h = mkRun tr h' (Normal a) ->
  bind m k h
  = mkRun (tr ++ effects (k a h')) (heap (k a h')) (completion (k a h')).
Proof. intros H. unfold bind. by rewrite H. Qed.

Lemma bind_thrown {A B} (m : M A) (k : A -> M B) h tr h' e :
  m h = mkRun tr h' (Thrown e) -> bind m k h = mkRun tr h' (Thrown e).
Proof. intros H. unfold bind. by rewrite H. Qed.

(** One step of a run: what [bind] does after each primitive. *)
Lemma bind_ret {A B} (a : A) (k : A -> M B) h : bind (ret a) k h = k a h.
Proof. unfold bind, ret. simpl. apply run_eta. Qed.

Lemma bind_getThis {B} (k : NimGateway -> M B) h :
  bind getThis k h = k (this h) h.
Proof. unfold bind, getThis. simpl. apply run_eta. Qed.

Lemma bind_getProcessedMessages {B} (k : gmap (list N) Z -> M B) h :
  bind getProcessedMessages k h = k (processedMessages h) h.
Proof. unfold bind, getProcessedMessages. simpl. apply run_eta. Qed.

Lemma bind_modifyThis {B} f (k : unit -> M B) h :
  bind (modifyThis f) k h = k tt (mkHeap (f (this h)) (processedMessages h)).
Proof. unfold bind, modifyThis. simpl. apply run_eta. Qed.

Lemma bind_modifyProcessedMessages {B} f (k : unit -> M B) h :
  bind (modifyProcessedMessages f) k h
  = k tt (mkHeap (this h) (f (processedMessages h))).
Proof. unfold bind, modifyProcessedMessages. simpl. apply run_eta. Qed.

Lemma bind_modifyStatus {B} f (k : unit -> M B) h :
  bind (modifyStatus f) k h
  = k tt (mkHeap (set_status (f (status (this h))) (this h)) (processedMessages h)).
Proof. unfold modifyStatus. by rewrite bind_modifyThis. Qed.

Lemma bind_effect {B} e (k : unit -> M B) h :
  bind (effect e) k h = prepend [e] (k tt h).
Proof. reflexivity. Qed.

Lemma bind_throw {A B} e (k : A -> M B) h :
  bind (throw e) k h = mkRun [] h (Thrown e).
Proof. reflexivity. Qed.

Lemma bind_logM {B} msg arg (k : unit -> M B) h :
  bind (logM msg arg) k h = prepend [LogCall (log (this h)) msg arg] (k tt h).
Proof. reflexivity. Qed.

Lemma bind_sdk_returns {A B} c (a : A) (k : A -> M B) h :
  bind (sdk c (Returns a)) k h = prepend [SdkReturned c] (k a h).
Proof. reflexivity. Qed.

Lemma bind_sdk_raises {A B} c e (k : A -> M B) h :
  bind (sdk c (@Raises A e)) k h = mkRun [SdkRaised c e] h (Thrown e).
Proof. reflexivity. Qed.

Lemma bind_native_returns {A B} (a : A) (k : A -> M B) h :
  bind (native (Returns a)) k h = k a h.
Proof. apply bind_ret. Qed.

Lemma bind_native_raises {A B} e (k : A -> M B) h :
  bind (native (@Raises A e)) k h = mkRun [] h (Thrown e).
Proof. reflexivity. Qed.

Lemma bind_assoc {A B C} (m : M A) (f : A -> M B) (g : B -> M C) h :
  bind (bind m f) g h = bind m (fun x => bind (f x) g) h.
Proof.
  unfold bind. destruct (m h) as [tr h1 [a|e]]; simpl; [|done].
  destruct (f a h1) as [tr2 h2 [b|e]]; simpl; [|done].
  by rewrite app_assoc.
Qed.

Lemma bind_when_true {B} m (k : unit -> M B) h :
  bind (when true m) k h = bind m k h.
Proof. reflexivity. Qed.

Lemma bind_when_false {B} m (k : unit -> M B) h :
  bind (when false m) k h = k tt h.
Proof. apply bind_ret. Qed.

Lemma completion_prepend {A} tr (r : Run A) : completion (prepend tr r) = completion r.
Proof. reflexivity. Qed.

Lemma heap_prepend {A} tr (r : Run A) : heap (prepend tr r) = heap r.
Proof. reflexivity. Qed.

Lemma effects_prepend {A} tr (r : Run A) : effects (prepend tr r) = tr ++ effects r.
Proof. reflexivity. Qed.

Lemma prepend_prepend {A} tr1 tr2 (r : Run A) :
  prepend tr1 (prepend tr2 r) = prepend (tr1 ++ tr2) r.
Proof. unfold prepend. simpl. by rewrite app_assoc. Qed.

Lemma tryCatch_prepend {A} tr (m : M A) handler h r :
  m h = prepend tr r ->
  tryCatch m handler h
  = match completion r with
    | Normal a => prepend tr r
    | Thrown e => prepend (tr ++ effects r) (handler e (heap r))
    end.
Proof.
  intros H. unfold tryCatch. rewrite H. simpl.
  destruct (completion r); [done|]. unfold prepend. simpl. done.
Qed.

(** Reduce the field accessors and assignments that meet a constructor. *)
Ltac fields :=
  cbn [this processedMessages effects heap completion isSome
       v2Client loginService messageService messageCreator conversationIdUtil
       config status onMessageCallback lastSenderId log reconnectTimer
       reconnectAttempts cleanupInterval boundOnReceiveMessages
       boundOnLoginStatus boundOnKickedOffline boundOnLoginFailed
       boundOnDisconnected stopRequested
       set_v2Client set_loginService set_messageService set_messageCreator
       set_conversationIdUtil set_config set_status set_onMessageCallback
       set_lastSenderId set_log set_reconnectTimer set_reconnectAttempts
       set_cleanupInterval set_boundOnReceiveMessages set_boundOnLoginStatus
       set_boundOnKickedOffline set_boundOnLoginFailed set_boundOnDisconnected
       set_stopRequested
       connected startedAt lastError botAccount lastInboundAt lastOutboundAt
       status_connected status_startedAt status_lastError status_botAccount
       status_lastInboundAt status_lastOutboundAt negb andb orb].

(** Run the primitives at the head of a computation, one after the
    other, without copying what follows them. *)
Ltac step :=
  repeat (first
    [ rewrite bind_assoc
    | rewrite bind_ret
    | rewrite bind_getThis
    | rewrite bind_getProcessedMessages
    | rewrite bind_modifyThis
    | rewrite bind_modifyProcessedMessages
    | rewrite bind_modifyStatus
    | rewrite bind_effect
    | rewrite bind_throw
    | rewrite bind_logM
    | rewrite bind_sdk_returns
    | rewrite bind_sdk_raises
    | rewrite bind_native_returns
    | rewrite bind_native_raises
    | rewrite bind_when_true
    | rewrite bind_when_false
    | rewrite completion_prepend
    | rewrite heap_prepend
    | rewrite effects_prepend
    | rewrite prepend_prepend ];
    cbv beta; fields).

Lemma tryCatch_normal {A} (m : M A) handler h tr h' a :
  m h = mkRun tr h' (Normal a) -> tryCatch m handler h = mkRun tr h' (Normal a).
Proof. intros H. unfold tryCatch. by rewrite H. Qed.

Lemma tryCatch_thrown {A} (m : M A) handler h tr h' e :
  m h = mkRun tr h' (Thrown e) ->
  tryCatch m handler h
  = mkRun (tr ++ effects (handler e h')) (heap (handler e h'))
      (completion (handler e h')).
Proof. intros H. unfold tryCatch. by rewrite H. Qed.

(** ** Hot configuration update *)

(** A field of the merged config: the value [partial] holds for the
    field's key if it has the key, the stored value if it has not. *)
Lemma mergeConfig_field {A} (f : NimConfig -> A) (pick : PartialEntry -> option A) :
  (forall c e, f (assign c e) = default (f c) (pick e)) ->
  forall partial c,
    f (mergeConfig c partial) = default (f c) (valueIn pick partial).
Proof.
  intros Hf partial. unfold mergeConfig, valueIn.
  induction partial as [|e rest IH] using rev_ind; intros c; [done|].
  rewrite fold_left_app, omap_app. cbn [fold_left].
  change (omap pick [e]) with (match pick e with Some v => [v] | None => [] end).
  rewrite Hf. destruct (pick e) as [v|]; cbn [default].
  - by rewrite last_snoc.
  - rewrite app_nil_r. apply IH.
Qed.

(** C10.  With no stored config, [updateConfig] does nothing at all: the
    heap is unchanged, nothing is logged, and a later [start] behaves as
    if the update had never been made.  With a stored config, it replaces
    the config by the shallow merge, logs the keys of [partial] in the
    order in which the caller gave them, and leaves every other field of
    the gateway as it was.  The shallow merge is what its name says:
    every field for which [partial] has a property takes the value of
    that property, and every other field keeps the stored value. *)
Theorem updateConfig_frame (partial : PartialNimConfig) (h : Heap) :
  (config (this h) = None ->
     updateConfig partial h = mkRun [] h (Normal tt)
     /\ forall env cfg override,
          (updateConfig partial >> start env cfg override) h
          = start env cfg override h)
  /\ (forall c, config (this h) = Some c ->
        let r := updateConfig partial h in
        completion r = Normal tt
        /\ this (heap r) = set_config (Some (mergeConfig c partial)) (this h)
        /\ config (this (heap r)) = Some (mergeConfig c partial)
        /\ status (this (heap r)) = status (this h)
        /\ v2Client (this (heap r)) = v2Client (this h)
        /\ loginService (this (heap r)) = loginService (this h)
        /\ messageService (this (heap r)) = messageService (this h)
        /\ messageCreator (this (heap r)) = messageCreator (this h)
        /\ conversationIdUtil (this (heap r)) = conversationIdUtil (this h)
        /\ lastSenderId (this (heap r)) = lastSenderId (this h)
        /\ processedMessages (heap r) = processedMessages h
        /\ effects r
           = [LogCall (log (this h)) "[NIM Gateway] Config updated (hot):"
                (partialKeys partial)])
  /\ (forall c,
        let merged := mergeConfig c partial in
        enabled merged = default (enabled c) (valueIn enabledOf partial)
        /\ appKey merged = default (appKey c) (valueIn appKeyOf partial)
        /\ account merged = default (account c) (valueIn accountOf partial)
        /\ token merged = default (token c) (valueIn tokenOf partial)
        /\ accountWhitelist merged
           = default (accountWhitelist c) (valueIn accountWhitelistOf partial)
        /\ debug merged = default (debug c) (valueIn debugOf partial)).
Proof.
  split; [|split].
  - intros Hc.
    assert (Hrun : updateConfig partial h = mkRun [] h (Normal tt)).
    { unfold updateConfig, bind, getThis. simpl. by rewrite Hc. }
    split; [done|]. intros env cfg override.
    rewrite (bind_normal _ _ _ _ _ _ Hrun). apply run_eta.
  - intros c Hc. destruct h as [g pm]. destruct g. simpl in Hc. subst.
    repeat split.
  - intros c. cbv zeta.
    split_and!; apply mergeConfig_field; by intros ? [].
Qed.

Lemma updateConfig_frame_witness :
  let cfg :=
    {| enabled := true; appKey := lit "k"; account := lit "bot";
       token := lit "t"; accountWhitelist := None; debug := false |} in
  let partial := [P_debug true; P_accountWhitelist (Some (lit "a,b"))] in
  let h := mkHeap (set_config (Some cfg) newGateway) ∅ in
  updateConfig partial (mkHeap newGateway ∅)
    = mkRun [] (mkHeap newGateway ∅) (Normal tt)
  /\ config (this (heap (updateConfig partial h)))
     = Some {| enabled := true; appKey := lit "k"; account := lit "bot";
               token := lit "t"; accountWhitelist := Some (lit "a,b");
               debug := true |}
  /\ effects (updateConfig partial h)
     = [LogCall (log newGateway) "[NIM Gateway] Config updated (hot):"
          (lit "debug, accountWhitelist")]
  /\ accountWhitelist (mergeConfig cfg partial) = Some (lit "a,b")
  /\ appKey (mergeConfig cfg partial) = lit "k".
Proof.
  intros cfg partial h.
  pose proof (updateConfig_frame partial (mkHeap newGateway ∅)) as (Hnone & _ & _).
  pose proof (updateConfig_frame partial h) as (_ & Hsome & Hmerge).
  destruct (Hsome cfg eq_refl) as (_ & _ & Hcfg & _ & _ & _ & _ & _ & _ & _ & _ & Heff).
  destruct (Hmerge cfg) as (_ & Hkey & _ & _ & Hwl & _).
  split; [apply Hnone; reflexivity|].
  split; [exact Hcfg|]. split; [exact Heff|].
  split; [exact Hwl | exact Hkey].
Defined.

(** ** Computations that leave the heap alone *)

Create HintDb pure.

Lemma pure_ret {A} (a : A) : pureM (ret a).
Proof. by intros h. Qed.

Lemma pure_throw {A} e : pureM (@throw A e).
Proof. by intros h. Qed.

Lemma pure_effect e : pureM (effect e).
Proof. by intros h. Qed.

Lemma pure_getThis : pureM getThis.
Proof. by intros h. Qed.

Lemma pure_bind {A B} (m : M A) (k : A -> M B) :
  pureM m -> (forall a, pureM (k a)) -> pureM (bind m k).
Proof.
  intros Hm Hk h. unfold bind. specialize (Hm h).
  destruct (m h) as [tr h' [a|e]]; simpl in *; subst; [apply Hk | done].
Qed.

Lemma pure_tryCatch {A} (m : M A) handler :
  pureM m -> (forall e, pureM (handler e)) -> pureM (tryCatch m handler).
Proof.
  intros Hm Hk h. unfold tryCatch. specialize (Hm h).
  destruct (m h) as [tr h' [a|e]]; simpl in *; subst; [done | apply Hk].
Qed.

Lemma pure_sdk {A} c (r : NativeResult A) : pureM (sdk c r).
Proof. by destruct r; intros h. Qed.

Lemma pure_native {A} (r : NativeResult A) : pureM (native r).
Proof. by destruct r; intros h. Qed.

Lemma pure_logM msg arg : pureM (logM msg arg).
Proof. by intros h. Qed.

Lemma pure_when b m : pureM m -> pureM (when b m).
Proof. destruct b; [done | intros _ h; done]. Qed.

Lemma pure_forEach {A} (l : list A) body :
  (forall x, pureM (body x)) -> pureM (forEach l body).
Proof.
  intros Hb. induction l as [|x l IH]; simpl; [apply pure_ret|].
  apply pure_bind; [apply Hb | by intros _].
Qed.

#[global] Hint Resolve pure_ret pure_throw pure_effect pure_getThis pure_sdk
  pure_native pure_logM pure_when pure_forEach : pure.
#[global] Hint Extern 2 (pureM (bind _ _)) => apply pure_bind; [|intros ?] : pure.
#[global] Hint Extern 2 (pureM (tryCatch _ _)) =>
  apply pure_tryCatch; [|intros ?] : pure.
#[global] Hint Extern 3 (pureM (match ?x with _ => _ end)) => destruct x : pure.

Lemma pure_run {A} (m : M A) h :
  pureM m -> m h = mkRun (effects (m h)) h (completion (m h)).
Proof. intros Hp. specialize (Hp h). destruct (m h); simpl in *. by subst. Qed.


Lemma quiet_intro (m : M unit) :
  pureM m -> (forall h, completion (m h) = Normal tt) -> quietM m.
Proof.
  intros Hp Hc h. specialize (Hp h). specialize (Hc h).
  destruct (m h) as [tr h' c]. simpl in *. subst. by exists tr.
Qed.

Lemma bind_quiet {B} (m : M unit) (k : unit -> M B) h :
  quietM m ->
  bind m k h
  = mkRun (effects (m h) ++ effects (k tt h)) (heap (k tt h))
      (completion (k tt h)).
Proof.
  intros Hq. destruct (Hq h) as [tr Hm].
  rewrite (bind_normal _ _ _ _ _ _ Hm). by rewrite Hm.
Qed.

(** ** Stop *)

Lemma pure_offIfBound bound ev off : pureM (offIfBound bound ev off).
Proof. unfold offIfBound. auto with pure. Qed.
#[global] Hint Resolve pure_offIfBound : pure.

Lemma pure_removeListeners : pureM removeListeners.
Proof. unfold removeListeners. auto 20 with pure. Qed.

Lemma pure_uninitClient : pureM uninitClient.
Proof. unfold uninitClient. auto 20 with pure. Qed.

Lemma quiet_removeListeners : quietM removeListeners.
Proof.
  apply quiet_intro; [apply pure_removeListeners|].
  intros h. unfold removeListeners, tryCatch at 1.
  match goal with
  | |- context [completion (?m h)] => destruct (m h) as [tr h' [[]|e]]
  end; done.
Qed.

Lemma quiet_uninitClient : quietM uninitClient.
Proof.
  apply quiet_intro; [apply pure_uninitClient|].
  intros h. unfold uninitClient, tryCatch at 1.
  match goal with
  | |- context [completion (?m h)] => destruct (m h) as [tr h' [[]|e]]
  end; done.
Qed.

Lemma quiet_heap (m : M unit) h : quietM m -> heap (m h) = h.
Proof. intros Hq. destruct (Hq h) as [tr ->]. done. Qed.

Lemma quiet_completion (m : M unit) h : quietM m -> completion (m h) = Normal tt.
Proof. intros Hq. destruct (Hq h) as [tr ->]. done. Qed.

(** The state and completion of [stop], with and without a live handle. *)
Lemma stop_stopped (h : Heap) :
  v2Client (this h) = None ->
  stop h
  = mkRun
      ((if isSome (reconnectTimer (this h)) then [ClearTimeout] else [])
       ++ [LogCall (log (this h)) "[NIM Gateway] Not running" []])
      (mkHeap (atRemoveListeners (this h)) (processedMessages h))
      (Normal tt).
Proof.
  destruct h as [g pm], g. simpl. intros ->.
  destruct reconnectTimer0; reflexivity.
Qed.

Lemma stop_live (h : Heap) client :
  v2Client (this h) = Some client ->
  stop h
  = mkRun
      ((if isSome (reconnectTimer (this h)) then [ClearTimeout] else [])
       ++ [LogCall (log (this h)) "[NIM Gateway] Stopping NIM gateway..." []]
       ++ effects (removeListeners
                     (mkHeap (atRemoveListeners (this h)) (processedMessages h)))
       ++ effects (uninitClient
                     (mkHeap (atUninit (this h)) (processedMessages h)))
       ++ (if isSome (cleanupInterval (this h)) then [ClearInterval] else [])
       ++ [LogCall (log (this h)) "[NIM Gateway] NIM gateway stopped" [];
           Emit Ev_disconnected; Sleep 1000])
      (mkHeap (stoppedGateway (this h)) (processedMessages h))
      (Normal tt).
Proof.
  destruct h as [g pm], g. simpl. intros ->.
  unfold stop, stopInternal, atRemoveListeners, atUninit, stoppedGateway, cleanup.
  step.
  destruct reconnectTimer0; fields; step;
    rewrite (bind_quiet removeListeners) by apply quiet_removeListeners;
    step;
    rewrite (bind_quiet uninitClient) by apply quiet_uninitClient;
    step;
    destruct cleanupInterval0; fields; step;
    unfold prepend; cbn [effects heap completion logM effect bind];
    rewrite <- ?app_assoc; reflexivity.
Qed.

(** ** Traces around the native teardown *)

Lemma beforeUninit_app (a b : list Effect) :
  existsb isUninit a = false -> beforeUninit (a ++ b) = a ++ beforeUninit b.
Proof.
  induction a as [|e a IH]; simpl; [done|].
  destruct (isUninit e); simpl; [done|]. intros H. by rewrite IH.
Qed.

Lemma afterUninit_app (a b : list Effect) :
  existsb isUninit a = false -> afterUninit (a ++ b) = afterUninit b.
Proof.
  induction a as [|e a IH]; simpl; [done|].
  destruct (isUninit e); simpl; [done|]. intros H. by rewrite IH.
Qed.


Lemma avoids_ret {A} f (a : A) : avoids f (ret a).
Proof. by intros h. Qed.

Lemma avoids_throw {A} f e : avoids f (@throw A e).
Proof. by intros h. Qed.

Lemma avoids_getThis f : avoids f getThis.
Proof. by intros h. Qed.

Lemma avoids_getProcessedMessages f : avoids f getProcessedMessages.
Proof. by intros h. Qed.

Lemma avoids_modifyThis f g : avoids f (modifyThis g).
Proof. by intros h. Qed.

Lemma avoids_modifyProcessedMessages f g : avoids f (modifyProcessedMessages g).
Proof. by intros h. Qed.

Lemma avoids_modifyStatus f g : avoids f (modifyStatus g).
Proof. by intros h. Qed.

Lemma avoids_effect f e : f e = false -> avoids f (effect e).
Proof. intros He h. simpl. by rewrite He. Qed.

Lemma avoids_logM f msg arg :
  (forall lg, f (LogCall lg msg arg) = false) -> avoids f (logM msg arg).
Proof. intros He h. simpl. by rewrite He. Qed.

Lemma avoids_sdk {A} f c (r : NativeResult A) :
  f (SdkReturned c) = false -> (forall e, f (SdkRaised c e) = false) ->
  avoids f (sdk c r).
Proof. intros H1 H2 h. destruct r; simpl; by rewrite ?H1, ?H2. Qed.

Lemma avoids_native {A} f (r : NativeResult A) : avoids f (native r).
Proof. intros h. by destruct r. Qed.

Lemma avoids_bind {A B} f (m : M A) (k : A -> M B) :
  avoids f m -> (forall a, avoids f (k a)) -> avoids f (bind m k).
Proof.
  intros Hm Hk h. unfold bind. specialize (Hm h).
  destruct (m h) as [tr h' [a|e]]; simpl in *; [|done].
  rewrite existsb_app, Hm. apply Hk.
Qed.

Lemma avoids_tryCatch {A} f (m : M A) handler :
  avoids f m -> (forall e, avoids f (handler e)) -> avoids f (tryCatch m handler).
Proof.
  intros Hm Hk h. unfold tryCatch. specialize (Hm h).
  destruct (m h) as [tr h' [a|e]]; simpl in *; [done|].
  rewrite existsb_app, Hm. apply Hk.
Qed.

Lemma avoids_when f b m : avoids f m -> avoids f (when b m).
Proof. destruct b; [done | intros _ h; done]. Qed.

Lemma avoids_forEach {A} f (l : list A) body :
  (forall x, avoids f (body x)) -> avoids f (forEach l body).
Proof.
  intros Hb. induction l as [|x l IH]; simpl; [apply avoids_ret|].
  apply avoids_bind; [apply Hb | by intros _].
Qed.

(** Decompose a computation into its primitives. *)
Ltac avoiding :=
  repeat first
    [ apply avoids_bind; [|intros ?]
    | apply avoids_tryCatch; [|intros ?]
    | apply avoids_ret
    | apply avoids_throw
    | apply avoids_getThis
    | apply avoids_getProcessedMessages
    | apply avoids_modifyThis
    | apply avoids_modifyProcessedMessages
    | apply avoids_modifyStatus
    | apply avoids_native
    | apply avoids_effect; reflexivity
    | apply avoids_logM; reflexivity
    | apply avoids_sdk; [reflexivity | reflexivity]
    | apply avoids_when
    | apply avoids_forEach; intros ?
    | match goal with
      | |- avoids _ (match ?x with _ => _ end) => destruct x
      end ].

(** Removing the listeners never calls [uninit]. *)
Lemma removeListeners_no_uninit h :
  existsb isUninit (effects (removeListeners h)) = false.
Proof.
  revert h. change (avoids isUninit removeListeners).
  unfold removeListeners, offIfBound. avoiding.
Qed.

(** With a client, [uninitClient] invokes [uninit], and nothing it does
    afterwards removes a listener. *)
Lemma uninitClient_effects h client :
  v2Client (this h) = Some client ->
  exists e rest,
    effects (uninitClient h)
    = LogCall (log (this h)) "[NIM Gateway] Calling uninit..." [] :: e :: rest
    /\ isUninit e = true
    /\ existsb isOff rest = false.
Proof.
  destruct h as [g pm], g. simpl. intros ->. unfold uninitClient. exec.
  destruct (client_uninit client) as [[err|]|e]; exec; eauto.
Qed.

(** With the five callbacks bound and no removal raising, the listeners
    are removed one after the other. *)
Lemma removeListeners_effects h :
  running (this h) -> offsReturn (this h) ->
  effects (removeListeners h)
  = List.map (fun b => SdkReturned (Sdk_off b.1 b.2)) boundCallbacks.
Proof.
  intros (Hc & Hl & Hm & H1 & H2 & H3 & H4 & H5) [Hms Hls].
  destruct h as [g pm], g. simpl in *. subst.
  destruct loginService0 as [ls|]; [|done].
  destruct messageService0 as [ms|]; [|done].
  unfold removeListeners, offIfBound. exec.
  rewrite (Hms ms receiveMessages eq_refl).
  rewrite !(Hls ls _ eq_refl). reflexivity.
Qed.

(** C4, as the code has it.  Without a native handle, [stop] does not
    raise, calls nothing native, emits nothing and does not wait; it
    leaves config, status, native references, notification target and the
    dedup map as they were, but it does set the stop-requested flag,
    cancel a pending reconnect timer and reset the reconnect attempts, so
    the state is unchanged exactly when a stop had already left it that
    way.  In every state, a second [stop] right after a [stop] changes
    nothing and only logs: two stops end in the state of one. *)
Theorem stop_when_stopped :
  (forall h : Heap,
     v2Client (this h) = None ->
     let r := stop h in
     completion r = Normal tt
     /\ existsb isSleep (effects r) = false
     /\ existsb isSdk (effects r) = false
     /\ existsb isEmit (effects r) = false
     /\ this (heap r)
        = set_reconnectAttempts 0
            (set_reconnectTimer None (set_stopRequested true (this h)))
     /\ processedMessages (heap r) = processedMessages h
     /\ config (this (heap r)) = config (this h)
     /\ status (this (heap r)) = status (this h)
     /\ lastSenderId (this (heap r)) = lastSenderId (this h)
     /\ v2Client (this (heap r)) = None
     /\ (stopRequested (this h) = true -> reconnectTimer (this h) = None ->
         reconnectAttempts (this h) = 0 -> heap r = h))
  /\ (forall h : Heap,
        let r1 := stop h in
        let r2 := (stop >> stop) h in
        heap r2 = heap r1
        /\ completion r2 = completion r1
        /\ completion r1 = Normal tt
        /\ effects r2
           = effects r1 ++ [LogCall (log (this h)) "[NIM Gateway] Not running" []]).
Proof.
  split.
  - intros h Hc. cbv zeta. rewrite (stop_stopped h Hc).
    destruct h as [g pm], g. simpl in Hc. subst. cbn [effects heap completion].
    repeat split; try (destruct reconnectTimer0; reflexivity).
    simpl. intros -> -> ->. reflexivity.
  - intros h. cbv zeta.
    assert (Hsecond : forall h' : Heap,
              v2Client (this h') = None -> stopRequested (this h') = true ->
              reconnectTimer (this h') = None -> reconnectAttempts (this h') = 0 ->
              stop h' = mkRun [LogCall (log (this h')) "[NIM Gateway] Not running" []]
                          h' (Normal tt)).
    { intros h' H1 H2 H3 H4. rewrite (stop_stopped h' H1).
      destruct h' as [g' pm'], g'. simpl in *. by subst. }
    destruct (v2Client (this h)) as [client|] eqn:Hc.
    + pose proof (stop_live h client Hc) as Hrun.
      rewrite (bind_normal _ _ _ _ _ _ Hrun). rewrite Hrun.
      rewrite Hsecond by (destruct h as [g pm], g; reflexivity).
      cbn [effects heap completion]. repeat split.
    + pose proof (stop_stopped h Hc) as Hrun.
      rewrite (bind_normal _ _ _ _ _ _ Hrun). rewrite Hrun.
      rewrite Hsecond
        by (destruct h as [g pm], g; simpl in Hc; subst; reflexivity).
      cbn [effects heap completion]. repeat split.
      destruct h as [g pm], g. simpl in Hc. subst.
      destruct reconnectTimer0; reflexivity.
Qed.

Lemma stop_when_stopped_witness :
  v2Client (this failedStartHeap) = None
  /\ completion (stop failedStartHeap) = Normal tt
  /\ existsb isSleep (effects (stop failedStartHeap)) = false
  /\ heap (stop (heap (stop failedStartHeap))) = heap (stop failedStartHeap).
Proof.
  assert (Hc : v2Client (this failedStartHeap) = None) by reflexivity.
  destruct (proj1 stop_when_stopped failedStartHeap Hc)
    as (Hn & Hs & _).
  destruct (proj1 stop_when_stopped (heap (stop failedStartHeap)) eq_refl)
    as (_ & _ & _ & _ & _ & _ & _ & _ & _ & _ & Hid).
  split; [exact Hc|]. split; [exact Hn|]. split; [exact Hs|].
  apply Hid; reflexivity.
Defined.

(** C4 as stated fails: after a [start] whose initialisation failed there
    is no native handle, yet [stop] changes the gateway (it sets
    [stopRequested]), and the change shows: an external reconnection
    trigger schedules a reconnect before the [stop] and none after it. *)
Lemma stop_when_stopped_changes_state :
  v2Client (this failedStartHeap) = None
  /\ heap (stop failedStartHeap) <> failedStartHeap
  /\ stopRequested (this failedStartHeap) = false
  /\ stopRequested (this (heap (stop failedStartHeap))) = true
  /\ existsb (fun e => match e with SetTimeout _ => true | _ => false end)
       (effects (reconnectIfNeeded failedStartHeap)) = true
  /\ effects (reconnectIfNeeded (heap (stop failedStartHeap))) = [].
Proof.
  repeat split.
  intros H. apply (f_equal (fun h => stopRequested (this h))) in H.
  vm_compute in H. discriminate.
Qed.

(** C5, as the code has it.  With a live handle as [start] leaves it:
    when no listener removal raises, all five bound callbacks are removed
    before [uninit] is invoked.  In every case [uninit] is invoked, no
    listener is removed after it, [stop] completes normally, and
    afterwards all native references are null, no reconnect timer is
    pending and the status shows disconnected. *)
Theorem stop_unregisters_before_uninit (h : Heap) :
  running (this h) ->
  let r := stop h in
  (offsReturn (this h) -> unregisteredBeforeUninit (effects r) = true)
  /\ existsb isUninit (effects r) = true
  /\ existsb isOff (afterUninit (effects r)) = false
  /\ completion r = Normal tt
  /\ v2Client (this (heap r)) = None
  /\ loginService (this (heap r)) = None
  /\ messageService (this (heap r)) = None
  /\ messageCreator (this (heap r)) = None
  /\ conversationIdUtil (this (heap r)) = None
  /\ reconnectTimer (this (heap r)) = None
  /\ (isSome (reconnectTimer (this h)) = true ->
      head (effects r) = Some ClearTimeout)
  /\ connected (status (this (heap r))) = false.
Proof.
  intros Hrun. cbv zeta.
  destruct (v2Client (this h)) as [client|] eqn:Hc;
    [|destruct Hrun as [Hrun _]; by rewrite Hc in Hrun].
  rewrite (stop_live h client Hc). cbn [effects heap completion].
  assert (Hc2 : v2Client (this (mkHeap (atUninit (this h)) (processedMessages h)))
                = Some client).
  { destruct h as [g pm], g. simpl in Hc. by subst. }
  destruct (uninitClient_effects _ client Hc2) as (e & rest & -> & He & Hrest).
  pose proof (removeListeners_no_uninit
                (mkHeap (atRemoveListeners (this h)) (processedMessages h))) as Hno.
  set (pre := (if isSome (reconnectTimer (this h)) then [ClearTimeout] else [])).
  set (off := effects (removeListeners _)) in *.
  set (post := (if isSome (cleanupInterval (this h)) then [ClearInterval] else [])
               ++ _).
  assert (Hpre : existsb isUninit pre = false)
    by (subst pre; by destruct (reconnectTimer (this h))).
  assert (Hpost : existsb isOff post = false)
    by (subst post; by destruct (cleanupInterval (this h))).
  split; [|split; [|split]].
  - intros Hoffs. unfold unregisteredBeforeUninit.
    assert (Hoff : off = List.map (fun b => SdkReturned (Sdk_off b.1 b.2))
                           boundCallbacks).
    { subst off. apply removeListeners_effects.
      - destruct Hrun as (H0 & H1 & H2 & H3 & H4 & H5 & H6 & H7).
        destruct h as [g pm], g. simpl in *. by subst.
      - destruct Hoffs as [H1 H2].
        destruct h as [g pm], g. simpl in *. by split. }
    rewrite Hoff. apply andb_true_iff. split.
    + rewrite !existsb_app. simpl. rewrite He. by rewrite !orb_true_r.
    + rewrite (beforeUninit_app pre) by done. simpl.
      rewrite He. simpl.
      rewrite !existsb_app. simpl. by rewrite !orb_true_r.
  - rewrite !existsb_app. simpl. rewrite He. by rewrite !orb_true_r.
  - rewrite (afterUninit_app pre) by done. simpl.
    rewrite (afterUninit_app off) by done. simpl. rewrite He.
    rewrite existsb_app. by rewrite Hrest, Hpost.
  - repeat split. subst pre. by intros ->.
Qed.

Lemma stop_unregisters_before_uninit_witness :
  running (this (runningHeap false []))
  /\ offsReturn (this (runningHeap false []))
  /\ unregisteredBeforeUninit (effects (stop (runningHeap false []))) = true
  /\ v2Client (this (heap (stop (runningHeap false [])))) = None.
Proof.
  assert (Hr : running (this (runningHeap false []))) by (repeat split).
  assert (Ho : offsReturn (this (runningHeap false []))).
  { split; intros s ev Hs; vm_compute in Hs; injection Hs as <-; reflexivity. }
  destruct (stop_unregisters_before_uninit (runningHeap false []) Hr)
    as (H1 & _ & _ & _ & H5 & _).
  split; [exact Hr|]. split; [exact Ho|]. split; [exact (H1 Ho) | exact H5].
Defined.

(** C5 as stated fails when a listener removal raises: with the login
    service's removal of the login-status listener raising, [stop] on a
    live handle still invokes [uninit], although the kicked-offline,
    login-failed and disconnected callbacks were never removed. *)
Lemma stop_off_raises_skips_removals :
  running (this (runningHeap true []))
  /\ existsb isUninit (effects (stop (runningHeap true []))) = true
  /\ unregisteredBeforeUninit (effects (stop (runningHeap true []))) = false
  /\ existsb (unregisters kickedOffline OnKickedOffline)
       (effects (stop (runningHeap true []))) = false.
Proof. repeat split. Qed.

(** ** Start *)

(** What the [try] block of [startInternal] does when the SDK
    initialises without error: the gateway ends up running. *)
Lemma startBody_succeeds env cfg override (h : Heap) :
  sdkInitSucceeds env cfg override ->
  completion (startBody env cfg override h) = Normal tt
  /\ running (this (heap (startBody env cfg override h)))
  /\ config (this (heap (startBody env cfg override h))) = config (this h)
  /\ processedMessages (heap (startBody env cfg override h)) = processedMessages h.
Proof.
  intros (client & ls & ms & Hnew & Hpath & Hinit & Hls & Hms & Hmon & Hlon & Hlogin).
  destruct h as [g pm], g. unfold startBody. rewrite Hnew. step.
  assert (Hdata : exists dataPath,
    (if truthy_opt override then ret (String_of override)
     else native (getSdkDataPath env (account cfg)))
    = ret dataPath).
  { destruct (truthy_opt override); [eauto|].
    destruct Hpath as [?|[p Hp]]; [done|]. rewrite Hp. eauto. }
  destruct Hdata as [dataPath ->]. step.
  rewrite Hinit. step. rewrite Hls, Hms. step.
  rewrite Hmon. step. rewrite !Hlon. step. rewrite Hlogin. step.
  unfold logM. step. cbn.
  repeat split.
Qed.

Lemma tryCatch_completion_normal {A} (m : M A) handler h a :
  completion (m h) = Normal a -> tryCatch m handler h = m h.
Proof. intros H. unfold tryCatch. by rewrite H. Qed.

(** C3.  Provided the SDK initialises without error, [start] fails in
    exactly two cases, checked in this order: a native handle already
    exists (already running; the config is not stored); else the config
    is disabled, and [start] stores it and succeeds without any native
    call and without a handle; else a credential is missing (missing
    credentials); else [start] succeeds with a live handle. *)
Theorem start_failure_cases env (cfg : NimConfig) override (h : Heap) :
  sdkInitSucceeds env cfg override ->
  let r := start env cfg override h in
  if isSome (v2Client (this h)) then
    completion r = Thrown (Error (lit "NIM gateway already running"))
    /\ config (this (heap r)) = config (this h)
    /\ v2Client (this (heap r)) = v2Client (this h)
    /\ effects r = []
  else if negb (enabled cfg) then
    completion r = Normal tt
    /\ config (this (heap r)) = Some cfg
    /\ v2Client (this (heap r)) = None
    /\ existsb isSdk (effects r) = false
  else if negb (truthy (appKey cfg)) || negb (truthy (account cfg))
          || negb (truthy (token cfg)) then
    completion r
    = Thrown (Error (lit "NIM appKey, account and token are required"))
    /\ v2Client (this (heap r)) = None
    /\ existsb isSdk (effects r) = false
  else
    completion r = Normal tt
    /\ config (this (heap r)) = Some cfg
    /\ running (this (heap r)).
Proof.
  intros Hsdk. cbv zeta.
  destruct h as [g pm], g. unfold start, startInternal. fields.
  destruct v2Client0 as [client|]; step; [by repeat split|].
  destruct (enabled cfg); fields; [|by repeat split].
  destruct (truthy (appKey cfg)), (truthy (account cfg)), (truthy (token cfg));
    fields; step; try by repeat split.
  match goal with
  | |- context [tryCatch ?m ?hd ?h1] =>
      destruct (startBody_succeeds env cfg override h1 Hsdk)
        as (Hc & Hrun & Hcfg & _);
      rewrite (tryCatch_completion_normal m hd h1 tt Hc)
  end.
  split; [exact Hc|]. split; [|exact Hrun].
  rewrite Hcfg. reflexivity.
Qed.

Lemma start_failure_cases_witness :
  sdkInitSucceeds (sampleEnv false None []) sampleConfig None
  /\ completion (start (sampleEnv false None []) sampleConfig None freshHeap)
     = Normal tt
  /\ completion (start (sampleEnv false None []) sampleConfig None
                   (runningHeap false []))
     = Thrown (Error (lit "NIM gateway already running")).
Proof.
  assert (Hsdk : sdkInitSucceeds (sampleEnv false None []) sampleConfig None).
  { exists (sampleClient false None []), (sampleLoginService false),
      (sampleMessageService []).
    repeat split. right. eexists. reflexivity. }
  split; [exact Hsdk|]. split.
  - apply (start_failure_cases (sampleEnv false None []) sampleConfig None
             freshHeap Hsdk).
  - apply (start_failure_cases (sampleEnv false None []) sampleConfig None
             (runningHeap false []) Hsdk).
Defined.

(** ** Computations that leave a part of the heap alone *)


Lemma preserves_pure {A X} (view : Heap -> X) (m : M A) :
  pureM m -> preserves view m.
Proof. intros Hp h. by rewrite Hp. Qed.

Lemma preserves_bind {A B X} (view : Heap -> X) (m : M A) (k : A -> M B) :
  preserves view m -> (forall a, preserves view (k a)) -> preserves view (bind m k).
Proof.
  intros Hm Hk h. unfold bind. specialize (Hm h).
  destruct (m h) as [tr h' [a|e]]; simpl in *; [|done].
  by rewrite Hk.
Qed.

Lemma preserves_tryCatch {A X} (view : Heap -> X) (m : M A) handler :
  preserves view m -> (forall e, preserves view (handler e)) ->
  preserves view (tryCatch m handler).
Proof.
  intros Hm Hk h. unfold tryCatch. specialize (Hm h).
  destruct (m h) as [tr h' [a|e]]; simpl in *; [done|].
  by rewrite Hk.
Qed.

Lemma preserves_modifyThis {X} (view : Heap -> X) f :
  (forall g pm, view (mkHeap (f g) pm) = view (mkHeap g pm)) ->
  preserves view (modifyThis f).
Proof. intros Hf [g pm]. simpl. apply Hf. Qed.

Lemma preserves_modifyStatus {X} (view : Heap -> X) f :
  (forall g pm s, view (mkHeap (set_status s g) pm) = view (mkHeap g pm)) ->
  preserves view (modifyStatus f).
Proof. intros Hf. apply preserves_modifyThis. intros g pm. apply Hf. Qed.

Lemma preserves_modifyProcessedMessages {X} (view : Heap -> X) f :
  (forall g pm, view (mkHeap g (f pm)) = view (mkHeap g pm)) ->
  preserves view (modifyProcessedMessages f).
Proof. intros Hf [g pm]. simpl. apply Hf. Qed.

(** Decompose a computation into its primitives. *)
Ltac preserving :=
  repeat first
    [ apply preserves_bind; [|intros ?]
    | apply preserves_tryCatch; [|intros ?]
    | apply preserves_modifyThis; intros [] ?; reflexivity
    | apply preserves_modifyStatus; intros [] ? ?; reflexivity
    | apply preserves_modifyProcessedMessages; intros ? ?; reflexivity
    | apply preserves_pure; solve [auto 20 with pure]
    | match goal with
      | |- preserves _ (match ?x with _ => _ end) => destruct x
      end ].

Lemma startBody_keepsConfig env cfg override :
  preserves (fun h => config (this h)) (startBody env cfg override).
Proof. unfold startBody. preserving. Qed.

(** The [catch] block of [startInternal]: what it leaves, and how it
    completes. *)
Lemma startCatch_run (e : JsError) (h : Heap) :
  let r := startCatch e h in
  completion r = Thrown e
  /\ v2Client (this (heap r)) = None
  /\ loginService (this (heap r)) = None
  /\ messageService (this (heap r)) = None
  /\ messageCreator (this (heap r)) = None
  /\ conversationIdUtil (this (heap r)) = None
  /\ config (this (heap r)) = config (this h)
  /\ status (this (heap r))
     = {| connected := false; startedAt := None;
          lastError := Some (message e);
          botAccount :=
            match config (this h) with
            | Some c => if truthy (account c) then Some (account c) else None
            | None => None
            end;
          lastInboundAt := None; lastOutboundAt := None |}
  /\ effects r
     = (if isSome (cleanupInterval (this h)) then [ClearInterval] else [])
       ++ [Emit (Ev_error e)].
Proof.
  destruct h as [g pm], g. cbv zeta. unfold startCatch, cleanup. step.
  destruct cleanupInterval0; step; cbn; repeat split.
Qed.

(** C6.  When the [try] block of [start] raises [e], [start] itself
    raises [e]; afterwards all native references are null, the stored
    config is the one passed in, the status is disconnected with the
    message of [e] as its last error, and the last thing [start] did was
    to emit the error event carrying [e]. *)
Theorem start_error_is_cleaned_up env (cfg : NimConfig) override (h : Heap)
    (e : JsError) :
  v2Client (this h) = None ->
  enabled cfg = true ->
  truthy (appKey cfg) = true ->
  truthy (account cfg) = true ->
  truthy (token cfg) = true ->
  completion (startBody env cfg override
                (mkHeap (atTry cfg (this h)) (processedMessages h)))
  = Thrown e ->
  let r := start env cfg override h in
  completion r = Thrown e
  /\ v2Client (this (heap r)) = None
  /\ loginService (this (heap r)) = None
  /\ messageService (this (heap r)) = None
  /\ messageCreator (this (heap r)) = None
  /\ conversationIdUtil (this (heap r)) = None
  /\ config (this (heap r)) = Some cfg
  /\ status (this (heap r))
     = {| connected := false; startedAt := None;
          lastError := Some (message e); botAccount := Some (account cfg);
          lastInboundAt := None; lastOutboundAt := None |}
  /\ exists tr, effects r = tr ++ [Emit (Ev_error e)].
Proof.
  intros Hc Hen Hk Ha Ht Hbody. cbv zeta.
  destruct h as [g pm], g. simpl in Hc. subst.
  unfold atTry in Hbody. revert Hbody. fields. intros Hbody.
  unfold start, startInternal. step.
  rewrite Hen, Hk, Ha, Ht. fields. step.
  match goal with
  | |- context [tryCatch ?m ?hd ?h1] =>
      set (r0 := m h1) in *;
      assert (Htry : tryCatch m hd h1
                     = prepend (effects r0) (startCatch e (heap r0)))
        by (unfold tryCatch; fold r0; by rewrite Hbody);
      rewrite Htry; clear Htry
  end.
  assert (Hcfg : config (this (heap r0)) = Some cfg).
  { subst r0. by rewrite startBody_keepsConfig. }
  destruct (startCatch_run e (heap r0))
    as (H1 & H2 & H3 & H4 & H5 & H6 & H7 & H8 & H9).
  rewrite Hcfg in H7, H8. rewrite Ha in H8.
  step. repeat split; try assumption.
  rewrite H9. eexists. rewrite !app_assoc. reflexivity.
Qed.

Lemma start_error_is_cleaned_up_witness :
  let env := sampleEnv false (Some sampleInitError) [] in
  let e := Error (lit "NIM SDK V2 initialization failed: bad appkey") in
  completion (startBody env sampleConfig None
                (mkHeap (atTry sampleConfig (this freshHeap))
                   (processedMessages freshHeap)))
  = Thrown e
  /\ completion (start env sampleConfig None freshHeap) = Thrown e
  /\ config (this (heap (start env sampleConfig None freshHeap)))
     = Some sampleConfig
  /\ lastError (status (this (heap (start env sampleConfig None freshHeap))))
     = Some (message e).
Proof.
  intros env e.
  assert (Hbody : completion (startBody env sampleConfig None
                    (mkHeap (atTry sampleConfig (this freshHeap))
                       (processedMessages freshHeap))) = Thrown e)
    by reflexivity.
  destruct (start_error_is_cleaned_up env sampleConfig None freshHeap e
              eq_refl eq_refl eq_refl eq_refl eq_refl Hbody)
    as (H1 & _ & _ & _ & _ & _ & H7 & H8 & _).
  split; [exact Hbody|]. split; [exact H1|]. split; [exact H7|].
  by rewrite H8.
Defined.

(** ** Sending replies *)

Lemma sendAttempts_app (a b : list Effect) :
  sendAttempts (a ++ b) = sendAttempts a ++ sendAttempts b.
Proof.
  induction a as [|e a IH]; simpl; [done|].
  destruct e as [[]|[]| | | | | | | | | |]; simpl; by rewrite ?IH.
Qed.

Lemma markerReports_app (a b : list Effect) :
  markerReports (a ++ b) = markerReports a ++ markerReports b.
Proof. apply omap_app. Qed.

Lemma markerReports_avoided (tr : list Effect) :
  existsb isReport tr = false -> markerReports tr = [].
Proof.
  induction tr as [|e tr IH]; simpl; [done|].
  unfold isReport at 1. intros H. apply orb_false_iff in H as [He Htr].
  unfold markerReports in *. simpl.
  destruct (reportOfEffect e); [done | by apply IH].
Qed.

Lemma pure_sendText to text : pureM (sendText to text).
Proof. unfold sendText. auto 20 with pure. Qed.

Lemma pure_sendLongText to text : pureM (sendLongText to text).
Proof.
  unfold sendLongText. destruct (splitMessageIntoChunks _ _ _); [|apply pure_ret].
  apply pure_forEach. intros chunk.
  apply pure_bind; [apply pure_sendText | intros _; auto with pure].
Qed.

Lemma pure_sendMedia env to filePath : pureM (sendMedia env to filePath).
Proof. unfold sendMedia, sendNimMediaMessage. auto 20 with pure. Qed.

Lemma sendMedia_no_report env to filePath :
  avoids isReport (sendMedia env to filePath).
Proof. unfold sendMedia, sendNimMediaMessage. avoiding. Qed.

(** One iteration of the media loop: its [try]/[catch] never throws,
    leaves the heap alone, and reports on the marker. *)
Lemma sendMarkers_run env to (markers : list MediaMarker) (h : Heap) :
  forall i n,
    let r := sendMarkers env to markers i n h in
    completion r = Normal tt
    /\ heap r = h
    /\ markerReports (effects r) = List.map (reportFor env to h) markers
    /\ sendAttempts (effects r) = mediaAttemptsFor env to h markers.
Proof.
  induction markers as [|marker rest IH]; intros i n; [by repeat split|].
  cbv zeta. cbn [sendMarkers List.map mediaAttemptsFor flat_map].
  fold (mediaAttemptsFor env to h rest). unfold reportFor at 1.
  pose proof (pure_run (sendMedia env to (marker_path marker)) h
                (pure_sendMedia _ _ _)) as Hmedia.
  pose proof (sendMedia_no_report env to (marker_path marker) h) as Hnorep.
  destruct (IH (i + 1) n) as (IHc & IHh & IHr & IHs).
  destruct (existsSync env (marker_path marker)) eqn:Hex; cbn [negb].
  - (* the file exists: try to send it *)
    destruct (completion (sendMedia env to (marker_path marker) h)) as [[]|e] eqn:Hc.
    + (* sent *)
      assert (Htry :
        tryCatch
          (sendMedia env to (marker_path marker) >>
           logM "[NIM Gateway] Sent media:" (marker_path marker) >> ret false)
          (fun error =>
             effect (Console "[NIM Gateway] Failed to send media" (marker_path marker)) >>
             ret false) h
        = mkRun (effects (sendMedia env to (marker_path marker) h)
                 ++ [LogCall (log (this h)) "[NIM Gateway] Sent media:"
                       (marker_path marker)])
            h (Normal false)).
      { apply tryCatch_normal. rewrite (bind_normal _ _ _ _ _ _ Hmedia).
        reflexivity. }
      rewrite (bind_normal _ _ _ _ _ _ Htry). cbn [negb andb].
      destruct (i <? n - 1); cbn [when];
        [rewrite bind_effect | rewrite bind_ret];
        cbn [effects heap completion prepend];
        rewrite IHc, IHh; (split; [done|]); (split; [done|]);
        rewrite ?markerReports_app, ?sendAttempts_app, IHr, IHs;
        rewrite (markerReports_avoided _ Hnorep); by rewrite ?app_nil_r.
    + (* sending failed: caught *)
      assert (Htry :
        tryCatch
          (sendMedia env to (marker_path marker) >>
           logM "[NIM Gateway] Sent media:" (marker_path marker) >> ret false)
          (fun error =>
             effect (Console "[NIM Gateway] Failed to send media" (marker_path marker)) >>
             ret false) h
        = mkRun (effects (sendMedia env to (marker_path marker) h)
                 ++ [Console "[NIM Gateway] Failed to send media" (marker_path marker)])
            h (Normal false)).
      { erewrite tryCatch_thrown; [|by apply (bind_thrown _ _ _ _ _ _ Hmedia)].
        reflexivity. }
      rewrite (bind_normal _ _ _ _ _ _ Htry). cbn [negb andb].
      destruct (i <? n - 1); cbn [when];
        [rewrite bind_effect | rewrite bind_ret];
        cbn [effects heap completion prepend];
        rewrite IHc, IHh; (split; [done|]); (split; [done|]);
        rewrite ?markerReports_app, ?sendAttempts_app, IHr, IHs;
        rewrite (markerReports_avoided _ Hnorep); by rewrite ?app_nil_r.
  - (* the file does not exist: log and continue *)
    assert (Htry :
      tryCatch
        (logM "[NIM Gateway] Media file not found:" (marker_path marker) >> ret true)
        (fun error =>
           effect (Console "[NIM Gateway] Failed to send media" (marker_path marker)) >>
           ret false) h
      = mkRun [LogCall (log (this h)) "[NIM Gateway] Media file not found:"
                 (marker_path marker)] h (Normal true)) by reflexivity.
    rewrite (bind_normal _ _ _ _ _ _ Htry). cbn [negb andb when].
    rewrite bind_ret. cbn [effects heap completion].
    rewrite IHc, IHh. split; [done|]. split; [done|].
    rewrite markerReports_app, IHr. simpl. by rewrite IHs.
Qed.

(** The text of a reply is sent outside the [try] of the marker loop:
    when sending the stripped text fails, the failure leaves
    [sendReplyWithMedia] and nothing follows the text send. *)
Lemma sendReplyWithMedia_text_failure parser env (to text : list N) (h : Heap) e :
  let markers := parseMediaMarkers parser text in
  let strippedText := stripMediaMarkers parser text markers in
  markers <> [] ->
  truthy (trim strippedText) = true ->
  completion (sendLongText to strippedText h) = Thrown e ->
  let r := sendReplyWithMedia parser env to text h in
  completion r = Thrown e
  /\ effects r
     = LogCall (log (this h)) "[NIM Gateway] Found media marker(s) in reply"
         (decimal (len markers))
       :: effects (sendLongText to strippedText h).
Proof.
  intros markers strippedText Hne Htrim Htext. cbv zeta.
  unfold sendReplyWithMedia. fold markers. fold strippedText.
  destruct (len markers =? 0) eqn:Hlen.
  { apply Z.eqb_eq in Hlen. destruct markers; [done|]. unfold len in Hlen.
    simpl in Hlen. lia. }
  rewrite bind_logM, Htrim, bind_when_true, bind_assoc.
  pose proof (pure_run (sendLongText to strippedText) h
                (pure_sendLongText _ _)) as Hrun.
  rewrite Htext in Hrun.
  rewrite (bind_thrown _ _ _ _ _ _ Hrun). by split.
Qed.

(** C7.  For a reply text in which the parser finds markers,
    [sendReplyWithMedia] first sends the stripped text as chunked text,
    if and only if it is not blank.  When that text send fails, the
    failure is not caught: the call ends with it and nothing follows the
    text send.  When it does not fail, [sendReplyWithMedia] completes
    normally and leaves the heap alone; after the text it waits, then it
    goes through the markers in order, once each: a marker whose file does
    not exist is reported as not found and nothing is sent for it; for
    every other marker the file is handed to [sendMedia], and whether
    that succeeds or fails (the failure is caught and reported) the
    following markers are still processed. *)
Theorem sendReplyWithMedia_order parser env (to text : list N) (h : Heap) :
  let markers := parseMediaMarkers parser text in
  let strippedText := stripMediaMarkers parser text markers in
  let textRun := sendLongText to strippedText h in
  let r := sendReplyWithMedia parser env to text h in
  markers <> [] ->
  (forall e,
     truthy (trim strippedText) = true -> completion textRun = Thrown e ->
     completion r = Thrown e
     /\ effects r
        = LogCall (log (this h)) "[NIM Gateway] Found media marker(s) in reply"
            (decimal (len markers))
          :: effects textRun)
  /\ ((truthy (trim strippedText) = true -> completion textRun = Normal tt) ->
      completion r = Normal tt
      /\ heap r = h
      /\ exists media,
           effects r
           = [LogCall (log (this h)) "[NIM Gateway] Found media marker(s) in reply"
                (decimal (len markers))]
             ++ (if truthy (trim strippedText)
                 then effects textRun ++ [Sleep 100] else [])
             ++ media
           /\ markerReports media = List.map (reportFor env to h) markers
           /\ sendAttempts media = mediaAttemptsFor env to h markers).
Proof.
  intros markers strippedText textRun r Hne. split.
  { intros e Htrim Hthrown.
    exact (sendReplyWithMedia_text_failure parser env to text h e Hne Htrim Hthrown). }
  intros Htext. subst r.
  unfold sendReplyWithMedia. fold markers. fold strippedText.
  destruct (len markers =? 0) eqn:Hlen.
  { apply Z.eqb_eq in Hlen. destruct markers; [done|]. unfold len in Hlen.
    simpl in Hlen. lia. }
  rewrite bind_logM.
  destruct (sendMarkers_run env to markers h 0 (len markers)) as (Hc & Hh & Hr & Hs).
  destruct (truthy (trim strippedText)) eqn:Htrim.
  - specialize (Htext eq_refl).
    pose proof (pure_run (sendLongText to strippedText) h
                  (pure_sendLongText _ _)) as Hrun.
    fold textRun in Hrun. rewrite Htext in Hrun.
    rewrite bind_when_true, bind_assoc.
    rewrite (bind_normal _ _ _ _ _ _ Hrun). rewrite bind_effect.
    cbn [effects heap completion prepend].
    rewrite Hc, Hh. split; [done|]. split; [done|].
    exists (effects (sendMarkers env to markers 0 (len markers) h)).
    split; [|done]. cbn [app]. by rewrite <- !app_assoc.
  - rewrite bind_when_false. cbn [effects heap completion prepend].
    rewrite Hc, Hh. split; [done|]. split; [done|].
    exists (effects (sendMarkers env to markers 0 (len markers) h)).
    by split.
Qed.

Lemma sendReplyWithMedia_order_witness :
  let parser := sampleParser sampleMarkers (lit "Here: and") in
  let env := sampleEnv false None [lit "/tmp/a.png"] in
  let h := runningHeap false [lit "/tmp/a.png"] in
  let text := lit "Here: ![x](/tmp/a.png) ![y](/tmp/missing.png) and [doc](/tmp/b.pdf)" in
  let rejected := sendReplyWithMedia parser textRejectingEnv (lit "alice") text
                    textRejectingHeap in
  parseMediaMarkers parser text <> []
  /\ completion (sendLongText (lit "alice") (lit "Here: and") h) = Normal tt
  /\ completion (sendReplyWithMedia parser env (lit "alice") text h) = Normal tt
  /\ markerReports (effects (sendReplyWithMedia parser env (lit "alice") text h))
     = [Failed (lit "/tmp/a.png"); NotFound (lit "/tmp/missing.png");
        Sent (lit "/tmp/b.pdf")]
  /\ sendAttempts (effects (sendReplyWithMedia parser env (lit "alice") text h))
     = [TextMessage (lit "Here: and");
        ImageMessage (lit "/tmp/a.png") (lit "/tmp/a.png");
        FileMessage (lit "/tmp/b.pdf") (lit "/tmp/b.pdf")]
  /\ completion (sendLongText (lit "alice") (lit "Here: and") textRejectingHeap)
     = Thrown (Error (lit "text rejected"))
  /\ completion rejected = Thrown (Error (lit "text rejected"))
  /\ effects rejected
     = LogCall (log (this textRejectingHeap))
         "[NIM Gateway] Found media marker(s) in reply" (lit "3")
       :: effects (sendLongText (lit "alice") (lit "Here: and") textRejectingHeap).
Proof.
  intros parser env h text rejected.
  assert (Hne : parseMediaMarkers parser text <> []) by done.
  assert (Htext : completion (sendLongText (lit "alice") (lit "Here: and") h)
                  = Normal tt) by reflexivity.
  assert (Hthrown :
            completion (sendLongText (lit "alice") (lit "Here: and") textRejectingHeap)
            = Thrown (Error (lit "text rejected"))) by reflexivity.
  destruct (proj2 (sendReplyWithMedia_order parser env (lit "alice") text h Hne)
              (fun _ => Htext)) as (Hc & _ & _).
  destruct (proj1 (sendReplyWithMedia_order parser textRejectingEnv (lit "alice")
                     text textRejectingHeap Hne)
              (Error (lit "text rejected")) eq_refl Hthrown) as (Hrc & Hre).
  split; [exact Hne|]. split; [exact Htext|]. split; [exact Hc|].
  split; [reflexivity|]. split; [reflexivity|].
  split; [exact Hthrown|]. split; [exact Hrc | exact Hre].
Defined.

(** C7 as the specification states it fails when the text cannot be
    sent: here the files of the first and the third marker exist and the
    SDK would accept them, but it rejects the text, and no marker is
    reported or sent. *)
Lemma sendReplyWithMedia_rejected_text_skips_markers :
  let parser := sampleParser sampleMarkers (lit "Here: and") in
  let text := lit "Here: ![x](/tmp/a.png) ![y](/tmp/missing.png) and [doc](/tmp/b.pdf)" in
  let r := sendReplyWithMedia parser textRejectingEnv (lit "alice") text
             textRejectingHeap in
  parseMediaMarkers parser text = sampleMarkers
  /\ truthy (trim (stripMediaMarkers parser text sampleMarkers)) = true
  /\ List.map (reportFor textRejectingEnv (lit "alice") textRejectingHeap)
       sampleMarkers
     = [Sent (lit "/tmp/a.png"); NotFound (lit "/tmp/missing.png");
        Sent (lit "/tmp/b.pdf")]
  /\ completion r = Thrown (Error (lit "text rejected"))
  /\ markerReports (effects r) = []
  /\ sendAttempts (effects r) = [TextMessage (lit "Here: and")]
  /\ markerReports (effects r)
     <> List.map (reportFor textRejectingEnv (lit "alice") textRejectingHeap)
          (parseMediaMarkers parser text).
Proof.
  intros parser text r. by vm_compute.
Qed.

Lemma pure_sendMarkers env to markers : forall i n, pureM (sendMarkers env to markers i n).
Proof.
  induction markers as [|marker rest IH]; intros i n; simpl; [apply pure_ret|].
  apply pure_bind.
  - apply pure_tryCatch; [|auto with pure].
    destruct (negb _); [auto with pure|].
    apply pure_bind; [apply pure_sendMedia | auto with pure].
  - intros continued. apply pure_bind; [auto with pure | intros _; apply IH].
Qed.

Lemma pure_sendReplyWithMedia parser env to text :
  pureM (sendReplyWithMedia parser env to text).
Proof.
  unfold sendReplyWithMedia. destruct (_ =? _); [apply pure_sendLongText|].
  apply pure_bind; [auto with pure | intros _].
  apply pure_bind; [|intros _; apply pure_sendMarkers].
  apply pure_when. apply pure_bind; [apply pure_sendLongText | auto with pure].
Qed.

(** Sending never emits a [message] event and never calls the
    application callback. *)
Lemma sendText_no_inbound to text : avoids isInbound (sendText to text).
Proof. unfold sendText. avoiding. Qed.

Lemma sendLongText_no_inbound to text : avoids isInbound (sendLongText to text).
Proof.
  unfold sendLongText. destruct (splitMessageIntoChunks _ _ _); [|apply avoids_ret].
  apply avoids_forEach. intros chunk.
  apply avoids_bind; [apply sendText_no_inbound | intros _; avoiding].
Qed.

Lemma sendMedia_no_inbound env to filePath :
  avoids isInbound (sendMedia env to filePath).
Proof. unfold sendMedia, sendNimMediaMessage. avoiding. Qed.

Lemma sendMarkers_no_inbound env to markers :
  forall i n, avoids isInbound (sendMarkers env to markers i n).
Proof.
  induction markers as [|marker rest IH]; intros i n; simpl; [apply avoids_ret|].
  apply avoids_bind.
  - apply avoids_tryCatch; [|intros ?; avoiding].
    destruct (negb _); [avoiding|].
    apply avoids_bind; [apply sendMedia_no_inbound | intros _; avoiding].
  - intros continued. apply avoids_bind; [avoiding | intros _; apply IH].
Qed.

Lemma sendReplyWithMedia_no_inbound parser env to text :
  avoids isInbound (sendReplyWithMedia parser env to text).
Proof.
  unfold sendReplyWithMedia. destruct (_ =? _); [apply sendLongText_no_inbound|].
  apply avoids_bind; [avoiding | intros _].
  apply avoids_bind; [|intros _; apply sendMarkers_no_inbound].
  apply avoids_when.
  apply avoids_bind; [apply sendLongText_no_inbound | intros _; avoiding].
Qed.

Lemma replyFn_no_inbound parser env clk to text :
  avoids isInbound (replyFn parser env clk to text).
Proof.
  unfold replyFn. apply avoids_bind; [avoiding | intros _].
  apply avoids_bind; [apply sendReplyWithMedia_no_inbound | intros _; avoiding].
Qed.

(** ** Inbound messages *)

Lemma replyFn_preserves {X} (view : Heap -> X) parser env clk to text :
  (forall g pm s, view (mkHeap (set_status s g) pm) = view (mkHeap g pm)) ->
  preserves view (replyFn parser env clk to text).
Proof.
  intros Hv. unfold replyFn. apply preserves_bind; [preserving | intros _].
  apply preserves_bind;
    [apply preserves_pure, pure_sendReplyWithMedia | intros _].
  by apply preserves_modifyStatus.
Qed.

Lemma deliver_preserves {X} (view : Heap -> X) parser env clk msg im :
  (forall g pm s, view (mkHeap (set_status s g) pm) = view (mkHeap g pm)) ->
  (forall g pm s, view (mkHeap (set_lastSenderId s g) pm) = view (mkHeap g pm)) ->
  preserves view (deliver parser env clk msg im).
Proof.
  intros Hs Hl. unfold deliver.
  apply preserves_bind; [by apply preserves_modifyStatus | intros _].
  apply preserves_bind; [preserving | intros _].
  apply preserves_bind; [apply preserves_modifyThis; intros; apply Hl | intros _].
  apply preserves_bind; [preserving | intros _].
  apply preserves_bind; [preserving | intros g].
  destruct (onMessageCallback g); [|preserving].
  apply preserves_tryCatch; [preserving | intros e].
  apply preserves_bind; [preserving | intros _].
  by apply replyFn_preserves.
Qed.

Lemma pure_buildContent env msg msgType : pureM (buildContent env msg msgType).
Proof. unfold buildContent. auto 20 with pure. Qed.

Lemma handleAccepted_preserves {X} (view : Heap -> X) parser env clk msg :
  (forall g pm s, view (mkHeap (set_status s g) pm) = view (mkHeap g pm)) ->
  (forall g pm s, view (mkHeap (set_lastSenderId s g) pm) = view (mkHeap g pm)) ->
  preserves view (handleAccepted parser env clk msg).
Proof.
  intros Hs Hl. unfold handleAccepted.
  destruct (negb _); [preserving|]. destruct (negb _); [preserving|].
  apply preserves_bind; [apply preserves_pure, pure_buildContent | intros built].
  destruct built as [[content attachments]|]; [|preserving].
  by apply deliver_preserves.
Qed.

Lemma delivered_app (a b : list Effect) :
  delivered (a ++ b) = (delivered a + delivered b)%nat.
Proof. unfold delivered. by rewrite List.filter_app, length_app. Qed.

Lemma callbackInvocations_app (a b : list Effect) :
  callbackInvocations (a ++ b) = (callbackInvocations a + callbackInvocations b)%nat.
Proof. unfold callbackInvocations. by rewrite List.filter_app, length_app. Qed.

Lemma no_inbound_counts (tr : list Effect) :
  existsb isInbound tr = false ->
  delivered tr = 0%nat /\ callbackInvocations tr = 0%nat.
Proof.
  unfold delivered, callbackInvocations.
  induction tr as [|e tr IH]; simpl; [done|].
  intros H. apply orb_false_iff in H as [He Htr].
  unfold isInbound in He. apply orb_false_iff in He as [-> ->].
  by apply IH.
Qed.

(** A [try] whose [catch] only logs: it completes normally, in the heap
    the [try] block left. *)
Lemma tryCatch_logged (m : M unit) (f : JsError -> Effect) h :
  tryCatch m (fun err => effect (f err)) h
  = mkRun (effects (m h)
           ++ match completion (m h) with Thrown e => [f e] | Normal _ => [] end)
      (heap (m h)) (Normal tt).
Proof.
  unfold tryCatch. destruct (m h) as [tr h' [[]|e]]; simpl; [|done].
  by rewrite app_nil_r.
Qed.

(** The dedup check, as a function of the heap. *)
Lemma isMessageProcessed_run (nowCleanup nowSeen : Z) (messageId : list N) (h : Heap) :
  isMessageProcessed nowCleanup nowSeen messageId h
  = let cleaned := evictExpired nowCleanup (processedMessages h) in
    if isSome (cleaned !! messageId)
    then mkRun [] (mkHeap (this h) cleaned) (Normal true)
    else mkRun [] (mkHeap (this h) (<[messageId := nowSeen]> cleaned)) (Normal false).
Proof.
  unfold isMessageProcessed, cleanupProcessedMessages. step.
  destruct (isSome _); step; reflexivity.
Qed.

Lemma evictExpired_lookup (now : Z) (pm : gmap (list N) Z) (id : list N) :
  evictExpired now pm !! id
  = match pm !! id with
    | Some t => if decide (now - t > MESSAGE_DEDUP_TTL) then None else Some t
    | None => None
    end.
Proof.
  unfold evictExpired. destruct (pm !! id) as [t|] eqn:Hid.
  - destruct (decide (now - t > MESSAGE_DEDUP_TTL)) as [Hold|Hnew].
    + apply map_lookup_filter_None. right. intros t' Ht'. simpl.
      rewrite Hid in Ht'. injection Ht' as <-. tauto.
    + apply map_lookup_filter_Some. by split.
  - apply map_lookup_filter_None. by left.
Qed.

(** Delivery emits exactly one [message] event, and calls the callback
    exactly once when one is set. *)
Lemma deliver_counts parser env clk msg im (h : Heap) :
  let r := deliver parser env clk msg im h in
  delivered (effects r) = 1%nat
  /\ callbackInvocations (effects r)
     = (if isSome (onMessageCallback (this h)) then 1 else 0)%nat.
Proof.
  destruct h as [g pm], g. cbv zeta. unfold deliver. step.
  destruct onMessageCallback0 as [callback|]; fields.
  - unfold tryCatch.
    destruct (cb_outcome callback im) as [e|] eqn:Hout;
      cbn [bind effect throw ret effects heap completion app prepend]; [|done].
    match goal with
    | |- context [effects (replyFn ?p ?e ?c ?t ?x ?hh)] =>
        destruct (no_inbound_counts _ (replyFn_no_inbound p e c t x hh))
          as [Hd Hc];
        revert Hd Hc; generalize (effects (replyFn p e c t x hh));
        intros tr Hd Hc
    end.
    unfold delivered, callbackInvocations in *.
    cbn [List.filter isMessageEvent isInvokeCallback length].
    rewrite Hd, Hc. done.
  - done.
Qed.

(** An accepted message that passes the remaining filters is delivered
    once. *)
Lemma handleAccepted_counts parser env clk msg (h : Heap) :
  isSupportedType (convertMessageType (v2_messageType msg)) = true ->
  sessionType (parseConversationId
                 (String_of (or_else (v2_conversationId msg) (Some [])))) = p2p ->
  match convertMessageType (v2_messageType msg) with
  | text_t => truthy (trim (String_of (or_else (v2_text msg) (Some []))))
  | _ => true
  end = true ->
  let r := handleAccepted parser env clk msg h in
  delivered (effects r) = 1%nat
  /\ callbackInvocations (effects r)
     = (if isSome (onMessageCallback (this h)) then 1 else 0)%nat.
Proof.
  intros Hty Hconv Htext. cbv zeta. unfold handleAccepted.
  rewrite Hty, Hconv. rewrite bool_decide_eq_true_2 by done. cbn [negb].
  assert (Hbuilt : exists content attachments,
            buildContent env msg (convertMessageType (v2_messageType msg)) h
            = mkRun [] h (Normal (Some (content, attachments)))).
  { unfold buildContent.
    destruct (convertMessageType (v2_messageType msg)); try discriminate Hty.
    - rewrite Htext. cbn [negb]. eauto.
    - cbn [isMediaType]. destruct (v2_attachment msg) as [a|]; [|eauto].
      destruct (truthy_opt (v2a_url a)); [|eauto].
      destruct (downloadNimMedia _ _ _ _); eauto.
    - cbn [isMediaType]. destruct (v2_attachment msg) as [a|]; [|eauto].
      destruct (truthy_opt (v2a_url a)); [|eauto].
      destruct (downloadNimMedia _ _ _ _); eauto.
    - cbn [isMediaType]. destruct (v2_attachment msg) as [a|]; [|eauto].
      destruct (truthy_opt (v2a_url a)); [|eauto].
      destruct (downloadNimMedia _ _ _ _); eauto.
    - cbn [isMediaType]. destruct (v2_attachment msg) as [a|]; [|eauto].
      destruct (truthy_opt (v2a_url a)); [|eauto].
      destruct (downloadNimMedia _ _ _ _); eauto. }
  destruct Hbuilt as (content & attachments & Hbuilt).
  rewrite (bind_normal _ _ _ _ _ _ Hbuilt). cbn [effects heap completion app].
  apply deliver_counts.
Qed.

(** The [try] block of the handler, stage by stage. *)
Lemma handleIncomingBody_run parser env clk msg (h : Heap) :
  handleIncomingBody parser env clk msg h
  = if isSelfMessage (config (this h)) (senderIdOf msg)
    then logM "[NIM Gateway] Ignoring self message" [] h
    else if rejectedByWhitelist (config (this h)) (senderIdOf msg)
    then logM "[NIM Gateway] Ignoring message from non-whitelisted account:"
              (senderIdOf msg) h
    else
      let cleaned := evictExpired (now_cleanup clk) (processedMessages h) in
      if isSome (cleaned !! messageIdOf msg)
      then logM "[NIM Gateway] Duplicate message ignored:" (messageIdOf msg)
                (mkHeap (this h) cleaned)
      else handleAccepted parser env clk msg
             (mkHeap (this h) (<[messageIdOf msg := now_seen clk]> cleaned)).
Proof.
  unfold handleIncomingBody. rewrite bind_getThis.
  destruct (isSelfMessage _ _); [done|].
  destruct (rejectedByWhitelist _ _); [done|].
  unfold bind at 1. rewrite isMessageProcessed_run. cbv zeta.
  destruct (isSome _); cbn [effects heap completion app]; apply run_eta.
Qed.

(** A message that one of the filters before the type check rejects:
    nothing is delivered. *)
Lemma handleIncomingMessage_dropped parser env clk msg (h : Heap) :
  isSelfMessage (config (this h)) (senderIdOf msg)
  || rejectedByWhitelist (config (this h)) (senderIdOf msg) = true ->
  let r := handleIncomingMessage parser env clk msg h in
  delivered (effects r) = 0%nat
  /\ callbackInvocations (effects r) = 0%nat
  /\ heap r = h.
Proof.
  intros Hdrop. cbv zeta. unfold handleIncomingMessage.
  rewrite tryCatch_logged, handleIncomingBody_run.
  destruct (isSelfMessage _ _); [by repeat split|].
  simpl in Hdrop. rewrite Hdrop. by repeat split.
Qed.

(** A message that passes the other filters and whose id is in the dedup
    map after eviction: dropped as a duplicate, the map evicted but
    otherwise as it was. *)
Lemma handleIncomingMessage_duplicate parser env clk msg (h : Heap) :
  passesOtherFilters (config (this h)) msg = true ->
  isSome (evictExpired (now_cleanup clk) (processedMessages h) !! messageIdOf msg)
  = true ->
  handleIncomingMessage parser env clk msg h
  = mkRun [LogCall (log (this h)) "[NIM Gateway] Duplicate message ignored:"
             (messageIdOf msg)]
      (mkHeap (this h) (evictExpired (now_cleanup clk) (processedMessages h)))
      (Normal tt).
Proof.
  unfold passesOtherFilters. intros Hp Hdup.
  repeat (apply andb_true_iff in Hp as [Hp ?]).
  apply negb_true_iff in Hp.
  match goal with H : negb (rejectedByWhitelist _ _) = true |- _ =>
    apply negb_true_iff in H; rename H into Hw end.
  unfold handleIncomingMessage.
  rewrite tryCatch_logged, handleIncomingBody_run, Hp, Hw. cbv zeta.
  rewrite Hdup. reflexivity.
Qed.

(** A message that passes the other filters and whose id is not in the
    dedup map after eviction: delivered once, its id recorded with the
    time of the recording. *)
Lemma handleIncomingMessage_fresh parser env clk msg (h : Heap) :
  passesOtherFilters (config (this h)) msg = true ->
  isSome (evictExpired (now_cleanup clk) (processedMessages h) !! messageIdOf msg)
  = false ->
  let r := handleIncomingMessage parser env clk msg h in
  delivered (effects r) = 1%nat
  /\ callbackInvocations (effects r)
     = (if isSome (onMessageCallback (this h)) then 1 else 0)%nat
  /\ processedMessages (heap r)
     = <[messageIdOf msg := now_seen clk]>
         (evictExpired (now_cleanup clk) (processedMessages h))
  /\ config (this (heap r)) = config (this h)
  /\ onMessageCallback (this (heap r)) = onMessageCallback (this h).
Proof.
  unfold passesOtherFilters. intros Hp Hdup.
  apply andb_true_iff in Hp as [Hp Htext].
  apply andb_true_iff in Hp as [Hp Hconv].
  apply andb_true_iff in Hp as [Hp Hty].
  apply andb_true_iff in Hp as [Hself Hw].
  apply negb_true_iff in Hself, Hw. apply bool_decide_eq_true in Hconv.
  cbv zeta. unfold handleIncomingMessage.
  rewrite tryCatch_logged, handleIncomingBody_run, Hself, Hw. cbv zeta.
  rewrite Hdup. cbn [effects heap completion].
  set (h1 := mkHeap (this h) _).
  destruct (handleAccepted_counts parser env clk msg h1 Hty Hconv Htext)
    as [Hd Hc].
  rewrite delivered_app, callbackInvocations_app, Hd, Hc.
  split; [by destruct (completion _)|]. split; [by destruct (completion _)|].
  split; [|split].
  - rewrite (handleAccepted_preserves processedMessages); by try intros [].
  - rewrite (handleAccepted_preserves (fun h => config (this h)));
      by try intros [].
  - rewrite (handleAccepted_preserves (fun h => onMessageCallback (this h)));
      by try intros [].
Qed.

(** C1.  Take two events carrying the same id [m], both passing the
    other filters, and a dedup map in which [m] is absent or expired.
    The handler delivers the first and records [m] with the time of the
    recording.  If the second is handled while no more than the TTL has
    elapsed since then, it is dropped: one message and one callback
    invocation in all, and the recorded time of [m] is not refreshed.  If
    more than the TTL has elapsed, it is delivered too: two in all.
    Every lookup, hit or miss, first evicts the entries older than the
    TTL and keeps the others.  The TTL is 300000 ms, five minutes. *)
Theorem dedup_within_ttl parser env (clk1 clk2 : Clock) (msg1 msg2 : V2Message)
    (h : Heap) (m : list N) :
  messageIdOf msg1 = m ->
  messageIdOf msg2 = m ->
  passesOtherFilters (config (this h)) msg1 = true ->
  passesOtherFilters (config (this h)) msg2 = true ->
  (forall t, processedMessages h !! m = Some t ->
             now_cleanup clk1 - t > MESSAGE_DEDUP_TTL) ->
  let r1 := handleIncomingMessage parser env clk1 msg1 h in
  let r2 := handleIncomingMessage parser env clk2 msg2 (heap r1) in
  let registered := if isSome (onMessageCallback (this h)) then 1%nat else 0%nat in
  delivered (effects r1) = 1%nat
  /\ callbackInvocations (effects r1) = registered
  /\ processedMessages (heap r1) !! m = Some (now_seen clk1)
  /\ (now_cleanup clk2 - now_seen clk1 <= MESSAGE_DEDUP_TTL ->
      delivered (effects r1 ++ effects r2) = 1%nat
      /\ callbackInvocations (effects r1 ++ effects r2) = registered
      /\ processedMessages (heap r2) !! m = Some (now_seen clk1)
      /\ (forall id t, processedMessages (heap r1) !! id = Some t ->
          processedMessages (heap r2) !! id
          = if decide (now_cleanup clk2 - t > MESSAGE_DEDUP_TTL)
            then None else Some t))
  /\ (now_cleanup clk2 - now_seen clk1 > MESSAGE_DEDUP_TTL ->
      delivered (effects r1 ++ effects r2) = 2%nat
      /\ callbackInvocations (effects r1 ++ effects r2) = (2 * registered)%nat
      /\ processedMessages (heap r2) !! m = Some (now_seen clk2))
  /\ (forall id t, id <> m -> processedMessages h !! id = Some t ->
      processedMessages (heap r1) !! id
      = if decide (now_cleanup clk1 - t > MESSAGE_DEDUP_TTL) then None else Some t)
  /\ MESSAGE_DEDUP_TTL = 300000.
Proof.
  intros Hid1 Hid2 Hp1 Hp2 Hfresh. cbv zeta.
  assert (Hnew : isSome (evictExpired (now_cleanup clk1) (processedMessages h)
                           !! messageIdOf msg1) = false).
  { rewrite Hid1, evictExpired_lookup.
    destruct (processedMessages h !! m) as [t|] eqn:Hm; [|done].
    destruct (decide _) as [|Hn]; [done|]. destruct Hn. by apply Hfresh. }
  destruct (handleIncomingMessage_fresh parser env clk1 msg1 h Hp1 Hnew)
    as (Hd1 & Hc1 & Hpm1 & Hcfg1 & Hcb1).
  set (r1 := handleIncomingMessage parser env clk1 msg1 h) in *.
  rewrite Hid1 in Hpm1.
  assert (Hseen : processedMessages (heap r1) !! m = Some (now_seen clk1)).
  { rewrite Hpm1. apply lookup_insert_eq. }
  assert (Hp2' : passesOtherFilters (config (this (heap r1))) msg2 = true)
    by (by rewrite Hcfg1).
  split; [done|]. split; [done|]. split; [done|].
  split; [|split; [|split; [|reflexivity]]].
  - intros Hwithin.
    assert (Hdup : isSome (evictExpired (now_cleanup clk2)
                             (processedMessages (heap r1)) !! messageIdOf msg2) = true).
    { rewrite Hid2, evictExpired_lookup, Hseen.
      destruct (decide _) as [Hn|]; [lia | done]. }
    rewrite (handleIncomingMessage_duplicate parser env clk2 msg2 (heap r1) Hp2' Hdup).
    cbn [effects heap processedMessages].
    rewrite delivered_app, callbackInvocations_app, Hd1, Hc1.
    split; [done|]. split; [unfold callbackInvocations; simpl; lia|]. split.
    + rewrite evictExpired_lookup, Hseen.
      destruct (decide _) as [Hn|]; [lia | done].
    + intros id t Hlook. by rewrite evictExpired_lookup, Hlook.
  - intros Hafter.
    assert (Hnew2 : isSome (evictExpired (now_cleanup clk2)
                              (processedMessages (heap r1)) !! messageIdOf msg2) = false).
    { rewrite Hid2, evictExpired_lookup, Hseen.
      destruct (decide _) as [|Hn]; [done | lia]. }
    destruct (handleIncomingMessage_fresh parser env clk2 msg2 (heap r1) Hp2' Hnew2)
      as (Hd2 & Hc2 & Hpm2 & _).
    rewrite delivered_app, callbackInvocations_app, Hd1, Hc1, Hd2, Hc2, Hcb1.
    split; [done|]. split; [lia|].
    rewrite Hpm2, Hid2. apply lookup_insert_eq.
  - intros id t Hne Hlook.
    rewrite Hpm1, lookup_insert_ne by done.
    by rewrite evictExpired_lookup, Hlook.
Qed.

Lemma dedup_within_ttl_witness :
  let parser := sampleParser [] [] in
  let env := sampleEnv false None [] in
  let r1 := handleIncomingMessage parser env (sampleClock 5000) sampleMessage
              listeningHeap in
  let within := handleIncomingMessage parser env (sampleClock (5000 + 300000))
                  sampleMessage (heap r1) in
  let after := handleIncomingMessage parser env (sampleClock (5000 + 300001))
                 sampleMessage (heap r1) in
  passesOtherFilters (config (this listeningHeap)) sampleMessage = true
  /\ delivered (effects r1 ++ effects within) = 1%nat
  /\ callbackInvocations (effects r1 ++ effects within) = 1%nat
  /\ delivered (effects r1 ++ effects after) = 2%nat.
Proof.
  intros parser env r1 within after.
  assert (Hp : passesOtherFilters (config (this listeningHeap)) sampleMessage = true)
    by reflexivity.
  assert (Hfresh : forall t, processedMessages listeningHeap !! lit "m1" = Some t ->
                     now_cleanup (sampleClock 5000) - t > MESSAGE_DEDUP_TTL)
    by (intros t Ht; vm_compute in Ht; discriminate).
  destruct (dedup_within_ttl parser env (sampleClock 5000)
              (sampleClock (5000 + 300000)) sampleMessage sampleMessage
              listeningHeap (lit "m1") eq_refl eq_refl Hp Hp Hfresh)
    as (_ & _ & _ & Hwithin & _).
  destruct (dedup_within_ttl parser env (sampleClock 5000)
              (sampleClock (5000 + 300001)) sampleMessage sampleMessage
              listeningHeap (lit "m1") eq_refl eq_refl Hp Hp Hfresh)
    as (_ & _ & _ & _ & Hafter & _).
  split; [exact Hp|].
  destruct Hwithin as (H1 & H2 & _); [vm_compute; discriminate|].
  destruct Hafter as (H3 & _); [reflexivity|].
  split; [exact H1|]. split; [exact H2 | exact H3].
Defined.

(** ** The allow-list *)

Lemma rejectedByWhitelist_spec (c : NimConfig) (w sender : list N) :
  accountWhitelist c = Some w ->
  whitelistEntries w <> [] ->
  rejectedByWhitelist (Some c) sender
  = negb (bool_decide (sender ∈ whitelistEntries w)).
Proof.
  intros Hw Hne. unfold rejectedByWhitelist. rewrite Hw. cbn [String_of truthy_opt].
  destruct w as [|ch w']; [done|]. cbn [truthy].
  destruct (whitelistEntries (ch :: w')) as [|e es] eqn:He; [done|].
  reflexivity.
Qed.

(** C8.  When the configured allow-list splits into a non-empty set, a
    sender outside the set is rejected by the whitelist test and the
    handler delivers nothing for the event and leaves the heap alone; a
    sender in the set passes the test.  With the allow-list [a,b], the
    set is a and b: sender c is rejected, sender a passes.  When the
    allow-list is unset, or splits into the empty set, or no config is
    stored, no sender is rejected. *)
Theorem allow_list_filter parser env clk (msg : V2Message) (h : Heap) :
  let r := handleIncomingMessage parser env clk msg h in
  (forall c w,
     config (this h) = Some c -> accountWhitelist c = Some w ->
     whitelistEntries w <> [] ->
     (senderIdOf msg ∉ whitelistEntries w ->
        rejectedByWhitelist (config (this h)) (senderIdOf msg) = true
        /\ delivered (effects r) = 0%nat
        /\ callbackInvocations (effects r) = 0%nat
        /\ heap r = h)
     /\ (senderIdOf msg ∈ whitelistEntries w ->
           rejectedByWhitelist (config (this h)) (senderIdOf msg) = false))
  /\ whitelistEntries (lit "a,b") = [lit "a"; lit "b"]
  /\ (forall c, accountWhitelist c = Some (lit "a,b") ->
        rejectedByWhitelist (Some c) (lit "c") = true
        /\ rejectedByWhitelist (Some c) (lit "a") = false)
  /\ (forall sender, rejectedByWhitelist None sender = false)
  /\ (forall c sender, accountWhitelist c = None ->
        rejectedByWhitelist (Some c) sender = false)
  /\ (forall c w sender, accountWhitelist c = Some w -> whitelistEntries w = [] ->
        rejectedByWhitelist (Some c) sender = false).
Proof.
  cbv zeta. split; [|split; [|split; [|split; [|split]]]].
  - intros c w Hc Hw Hne. rewrite Hc. split.
    + intros Hout.
      assert (Hrej : rejectedByWhitelist (Some c) (senderIdOf msg) = true).
      { rewrite (rejectedByWhitelist_spec c w _ Hw Hne).
        by rewrite bool_decide_eq_false_2. }
      split; [done|].
      apply handleIncomingMessage_dropped. rewrite Hc, Hrej. apply orb_true_r.
    + intros Hin. rewrite (rejectedByWhitelist_spec c w _ Hw Hne).
      by rewrite bool_decide_eq_true_2.
  - reflexivity.
  - intros c Hw. unfold rejectedByWhitelist. rewrite Hw. split; reflexivity.
  - done.
  - intros c sender Hw. unfold rejectedByWhitelist. by rewrite Hw.
  - intros c w sender Hw He. unfold rejectedByWhitelist. rewrite Hw.
    cbn [String_of]. rewrite He. by destruct (truthy_opt _).
Qed.

Lemma allow_list_filter_witness :
  let parser := sampleParser [] [] in
  let env := sampleEnv false None [] in
  let fromC :=
    {| v2_messageServerId := Some (lit "m2"); v2_messageClientId := None;
       v2_senderId := Some (lit "c"); v2_messageType := 0;
       v2_conversationId := Some (lit "0|1|c"); v2_text := Some (lit "hi");
       v2_attachment := None; v2_createTime := None |} in
  config (this listeningHeap) = Some sampleConfig
  /\ accountWhitelist sampleConfig = Some (lit "a,b")
  /\ whitelistEntries (lit "a,b") <> []
  /\ (senderIdOf fromC ∉ whitelistEntries (lit "a,b"))
  /\ (senderIdOf sampleMessage ∈ whitelistEntries (lit "a,b"))
  /\ delivered (effects (handleIncomingMessage parser env (sampleClock 5000)
                           fromC listeningHeap)) = 0%nat
  /\ rejectedByWhitelist (config (this listeningHeap)) (senderIdOf sampleMessage)
     = false
  /\ delivered (effects (handleIncomingMessage parser env (sampleClock 5000)
                           sampleMessage listeningHeap)) = 1%nat.
Proof.
  intros parser env fromC.
  assert (Hne : whitelistEntries (lit "a,b") <> []) by done.
  assert (Hout : senderIdOf fromC ∉ whitelistEntries (lit "a,b")).
  { apply (bool_decide_unpack _). vm_compute. exact I. }
  assert (Hin : senderIdOf sampleMessage ∈ whitelistEntries (lit "a,b")).
  { apply (bool_decide_unpack _). vm_compute. exact I. }
  destruct (allow_list_filter parser env (sampleClock 5000) fromC listeningHeap)
    as (HfromC & _).
  destruct (HfromC sampleConfig (lit "a,b") eq_refl eq_refl Hne) as (Hdrop & _).
  destruct (Hdrop Hout) as (_ & Hd & _).
  destruct (allow_list_filter parser env (sampleClock 5000) sampleMessage
              listeningHeap) as (HfromA & _).
  destruct (HfromA sampleConfig (lit "a,b") eq_refl eq_refl Hne) as (_ & Hpass).
  repeat (split; [first [reflexivity | assumption | exact (Hpass Hin)]|]).
  reflexivity.
Defined.

(** * Further properties of the gateway *)

(** Name the fields of the gateway on heap [h]. *)
Ltac open_heap h :=
  destruct h as [[gClient gLogin gService gCreator gUtil gConfig gStatus
                  gCallback gSender gLog gTimer gAttempts gInterval
                  gB1 gB2 gB3 gB4 gB5 gStop] pm].

(** ** Callbacks that fire after the gateway was torn down *)

Lemma stop_nulls_client (h : Heap) :
  v2Client (this (heap (stop h))) = None
  /\ stopRequested (this (heap (stop h))) = true
  /\ reconnectTimer (this (heap (stop h))) = None
  /\ reconnectAttempts (this (heap (stop h))) = 0
  /\ config (this (heap (stop h))) = config (this h)
  /\ processedMessages (heap (stop h)) = processedMessages h.
Proof.
  destruct (v2Client (this h)) as [client|] eqn:Hc.
  - rewrite (stop_live h client Hc). cbn. by destruct (this h).
  - rewrite (stop_stopped h Hc). cbn. by destruct (this h).
Qed.

(** X1.  The stale-callback guard: once the native handle is gone, each of
    the five callbacks the gateway registered with the SDK returns at
    once; it has no effect and changes no state.  [stop] always leaves the
    gateway in that state, so an event the SDK still delivers after [stop]
    is ignored. *)
Theorem stale_callbacks_are_ignored parser env (h : Heap) :
  (v2Client (this h) = None ->
   (forall messages, onReceiveMessages parser env messages h = mkRun [] h (Normal tt))
   /\ (forall now status, onLoginStatus now status h = mkRun [] h (Normal tt))
   /\ onKickedOffline h = mkRun [] h (Normal tt)
   /\ (forall error, onLoginFailed error h = mkRun [] h (Normal tt))
   /\ onDisconnected h = mkRun [] h (Normal tt))
  /\ v2Client (this (heap (stop h))) = None.
Proof.
  split; [|apply stop_nulls_client].
  intros Hc.
  unfold onReceiveMessages, onLoginStatus, onKickedOffline, onLoginFailed,
    onDisconnected.
  repeat split; intros; rewrite bind_getThis, Hc; reflexivity.
Qed.

Lemma stale_callbacks_are_ignored_witness :
  let h := heap (stop (runningHeap false [])) in
  v2Client (this h) = None
  /\ onKickedOffline h = mkRun [] h (Normal tt)
  /\ onLoginStatus 5 1 h = mkRun [] h (Normal tt).
Proof.
  pose proof (stale_callbacks_are_ignored (sampleParser [] []) (sampleEnv false None [])
                (heap (stop (runningHeap false [])))) as [H _].
  assert (Hc : v2Client (this (heap (stop (runningHeap false [])))) = None)
    by (vm_compute; reflexivity).
  destruct (H Hc) as (_ & Hl & Hk & _).
  split; [exact Hc|]. split; [exact Hk | exact (Hl 5 1)].
Defined.

(** ** Reconnection *)


Lemma stop_run (h : Heap) : stop h = mkRun (effects (stop h)) (heap (stop h)) (Normal tt).
Proof.
  destruct (v2Client (this h)) as [client|] eqn:Hc.
  - by rewrite (stop_live h client Hc).
  - by rewrite (stop_stopped h Hc).
Qed.

Lemma bind_stop {B} (k : unit -> M B) h :
  bind stop k h = prepend (effects (stop h)) (k tt (heap (stop h))).
Proof. unfold bind at 1. by rewrite (stop_run h). Qed.

Lemma scheduledDelays_app (a b : list Effect) :
  scheduledDelays (a ++ b) = scheduledDelays a ++ scheduledDelays b.
Proof. apply omap_app. Qed.

(** What [start] leaves alone: the reconnect bookkeeping. *)
Lemma startInternal_keepsReconnect env cfg override :
  preserves
    (fun h => (stopRequested (this h), reconnectAttempts (this h),
               reconnectTimer (this h)))
    (startInternal env cfg override).
Proof. unfold startInternal, startBody, startCatch, cleanup, when. preserving. Qed.

(** A [start] that raises, from a state without a native handle, has
    stored the config and leaves no native handle. *)
Lemma start_thrown env cfg override (h : Heap) e :
  v2Client (this h) = None ->
  completion (start env cfg override h) = Thrown e ->
  config (this (heap (start env cfg override h))) = Some cfg
  /\ v2Client (this (heap (start env cfg override h))) = None.
Proof.
  intros Hc. open_heap h. simpl in Hc. subst.
  unfold start, startInternal. step.
  destruct (enabled cfg); fields; [|step; discriminate].
  destruct (negb (truthy (appKey cfg)) || negb (truthy (account cfg))
            || negb (truthy (token cfg))); step; [done|].
  match goal with
  | |- context [tryCatch ?m ?hd ?h1] => set (r0 := m h1) in *;
      assert (Htry : tryCatch m hd h1
                     = match completion r0 with
                       | Normal a => r0
                       | Thrown e => prepend (effects r0) (startCatch e (heap r0))
                       end)
        by (unfold tryCatch; fold r0; by destruct (completion r0));
      rewrite Htry; clear Htry
  end.
  destruct (completion r0) as [[]|e0] eqn:Hr0.
  - step. rewrite Hr0. discriminate.
  - intros _. step.
    destruct (startCatch_run e0 (heap r0)) as (_ & H2 & _ & _ & _ & _ & H7 & _).
    split; [|exact H2]. rewrite H7. subst r0. by rewrite startBody_keepsConfig.
Qed.

Lemma scheduledDelays_avoided (tr : list Effect) :
  existsb isSetTimeout tr = false -> scheduledDelays tr = [].
Proof.
  induction tr as [|e tr IH]; [done|]. cbn.
  destruct e; cbn; try done; exact IH.
Qed.

Lemma stop_sets_no_timer (h : Heap) : scheduledDelays (effects (stop h)) = [].
Proof.
  assert (Hrm : avoids isSetTimeout removeListeners)
    by (unfold removeListeners, offIfBound; avoiding).
  assert (Hun : avoids isSetTimeout uninitClient)
    by (unfold uninitClient; avoiding).
  destruct (v2Client (this h)) as [client|] eqn:Hc.
  - rewrite (stop_live h client Hc). cbn [effects].
    rewrite !scheduledDelays_app.
    rewrite (scheduledDelays_avoided _ (Hrm _)), (scheduledDelays_avoided _ (Hun _)).
    by destruct (reconnectTimer (this h)), (cleanupInterval (this h)).
  - rewrite (stop_stopped h Hc). cbn [effects].
    by destruct (reconnectTimer (this h)).
Qed.

Lemma timer_free_delays (tr : list Effect) :
  existsb isTimerEffect tr = false -> scheduledDelays tr = [].
Proof.
  induction tr as [|e tr IH]; [done|]. cbn.
  destruct e; cbn; try done; exact IH.
Qed.

(** Without a pending timer, [stop] neither sets nor cancels one. *)
Lemma stop_no_timer_effect (h : Heap) :
  reconnectTimer (this h) = None ->
  existsb isTimerEffect (effects (stop h)) = false.
Proof.
  intros Ht.
  assert (Hrm : avoids isTimerEffect removeListeners)
    by (unfold removeListeners, offIfBound; avoiding).
  assert (Hun : avoids isTimerEffect uninitClient)
    by (unfold uninitClient; avoiding).
  destruct (v2Client (this h)) as [client|] eqn:Hc.
  - rewrite (stop_live h client Hc). cbn [effects]. rewrite Ht.
    rewrite !existsb_app, (Hrm _), (Hun _).
    by destruct (cleanupInterval (this h)).
  - rewrite (stop_stopped h Hc). cbn [effects]. by rewrite Ht.
Qed.

Lemma atRestart_eq (h : Heap) :
  let hs := heap (stop (mkHeap
              (set_reconnectAttempts (reconnectAttempts (this h) + 1)
                 (set_reconnectTimer None (this h)))
              (processedMessages h))) in
  atRestart h = mkHeap (set_stopRequested false (this hs)) (processedMessages hs).
Proof.
  cbv zeta. unfold atRestart. step. rewrite bind_stop. step.
  by destruct (this h).
Qed.

(** The callback of the reconnect timer on a gateway that was not asked
    to stop: it stops the gateway, which sets no timer, and restarts it;
    if the restart raises, it logs that and schedules the next attempt
    2000 ms later. *)
Lemma reconnectTimerFired_run env (t : Timer) (h : Heap) :
  stopRequested (this h) = false ->
  config (this h) <> None ->
  let restart := start env (timer_savedConfig t) None (atRestart h) in
  v2Client (this (atRestart h)) = None
  /\ stopRequested (this (heap restart)) = false
  /\ reconnectAttempts (this (heap restart)) = 0
  /\ reconnectTimer (this (heap restart)) = None
  /\ exists tr,
       existsb isTimerEffect tr = false
       /\ reconnectTimerFired env t h
          = match completion restart with
            | Normal _ => prepend tr restart
            | Thrown e =>
                prepend
                  (tr ++ effects restart
                   ++ [Console "[NIM Gateway] Reconnection attempt failed:" (message e)])
                  (scheduleReconnect 2000 (heap restart))
            end.
Proof.
  intros Hs Hcfg restart.
  pose proof (atRestart_eq h) as Hat. cbv zeta in Hat.
  remember (atRestart h) as hr eqn:Ehr. clear Ehr.
  open_heap h. simpl in Hs, Hcfg. subst gStop.
  revert Hat. fields. intros Hat.
  match type of Hat with context [stop ?x] => set (h2 := x) in * end.
  destruct (stop_nulls_client h2) as (Hc & Hsr & Htm & Hat0 & Hcf & _).
  assert (Hcf' : config (this (heap (stop h2))) = gConfig) by (by rewrite Hcf).
  assert (Hnone : v2Client (this hr) = None)
    by (rewrite Hat; revert Hc; by destruct (this (heap (stop h2)))).
  pose proof (startInternal_keepsReconnect env (timer_savedConfig t) None
                (mkHeap (set_stopRequested false (this hr))
                   (processedMessages hr))) as Hkeep.
  assert (Hstart : restart
                   = startInternal env (timer_savedConfig t) None
                       (mkHeap (set_stopRequested false (this hr))
                          (processedMessages hr)))
    by (unfold restart, start; by rewrite bind_modifyThis).
  rewrite <- Hstart in Hkeep. cbn [this] in Hkeep.
  assert (Hkeep' : stopRequested (this (heap restart)) = false
                   /\ reconnectAttempts (this (heap restart)) = 0
                   /\ reconnectTimer (this (heap restart)) = None).
  { rewrite Hat in Hkeep. revert Hkeep Hat0 Htm.
    destruct (this (heap (stop h2))). cbn. intros [= -> -> ->] -> ->. done. }
  destruct Hkeep' as (Ksr & Kat & Ktm).
  split; [exact Hnone|]. split; [exact Ksr|]. split; [exact Kat|].
  split; [exact Ktm|].
  exists (effects (stop h2)). split; [by apply stop_no_timer_effect|].
  assert (Hbody :
    (modifyThis (fun g => set_reconnectAttempts (reconnectAttempts g + 1) g) >>
     stop >>
     let* g := getThis in
     if negb (isSome (config g)) then ret tt
     else modifyThis (set_stopRequested false) >>
          start env (timer_savedConfig t) None)
      (mkHeap (set_reconnectTimer None
                 (mkGateway gClient gLogin gService gCreator gUtil gConfig gStatus
                    gCallback gSender gLog gTimer gAttempts gInterval
                    gB1 gB2 gB3 gB4 gB5 false)) pm)
    = prepend (effects (stop h2)) restart).
  { step. fold h2. rewrite bind_stop. step. rewrite Hcf'.
    destruct gConfig; [|done]. step.
    unfold restart. by rewrite Hat. }
  unfold reconnectTimerFired. step.
  rewrite (tryCatch_prepend _ _ _ _ _ Hbody).
  destruct (completion restart) as [[]|e] eqn:Hr; [done|].
  step. rewrite Ksr. fields. rewrite Kat. cbn [Z.leb Z.compare].
  change (2000 `min` MAX_RECONNECT_DELAY_MS) with 2000.
  by rewrite <- app_assoc.
Qed.

(** X3.  When the reconnect timer fires on a gateway that was not asked to
    stop, it restarts the gateway with the config it captured.  If that
    [start] raises, the failure is logged and exactly one new attempt is
    scheduled, always 2000 ms later: the attempt counter was reset by the
    [stop] inside the callback, so the doubling branch of the backoff is
    never taken, whatever the delay of the timer that fired.  If the
    [start] completes, no timer is left. *)
Theorem reconnect_retry_delay env (t : Timer) (h : Heap) :
  stopRequested (this h) = false ->
  config (this h) <> None ->
  let restart := start env (timer_savedConfig t) None (atRestart h) in
  let r := reconnectTimerFired env t h in
  completion r = Normal tt
  /\ match completion restart with
     | Thrown e =>
         reconnectTimer (this (heap r))
         = Some {| timer_delayMs := 2000; timer_savedConfig := timer_savedConfig t |}
         /\ scheduledDelays (effects r) = scheduledDelays (effects restart) ++ [2000]
         /\ v2Client (this (heap r)) = None
         /\ stopRequested (this (heap r)) = false
     | Normal _ =>
         reconnectTimer (this (heap r)) = None
         /\ heap r = heap restart
     end.
Proof.
  intros Hs Hcfg restart r.
  destruct (reconnectTimerFired_run env t h Hs Hcfg)
    as (Hnone & Ksr & Kat & Ktm & tr & Htr & Hrun).
  fold restart in Ksr, Kat, Ktm, Hrun. subst r. rewrite Hrun.
  destruct (completion restart) as [[]|e] eqn:Hr.
  - step. rewrite Hr. split; [done|]. split; [exact Ktm | reflexivity].
  - destruct (start_thrown env (timer_savedConfig t) None (atRestart h) e Hnone Hr)
      as (Kcfg & Kc).
    fold restart in Kcfg, Kc. clearbody restart.
    unfold scheduleReconnect. step. rewrite Ktm. step. rewrite Kcfg, Ksr. step.
    rewrite !scheduledDelays_app, (timer_free_delays _ Htr).
    unfold modifyThis. fields. revert Kc Ksr.
    destruct (this (heap restart)). cbn. intros -> ->.
    rewrite app_nil_r. by repeat split.
Qed.

Lemma reconnect_retry_delay_witness :
  let env := sampleEnv false (Some sampleInitError) [] in
  let t := {| timer_delayMs := 16000; timer_savedConfig := sampleConfig |} in
  let r := reconnectTimerFired env t failedStartHeap in
  completion r = Normal tt
  /\ reconnectTimer (this (heap r))
     = Some {| timer_delayMs := 2000; timer_savedConfig := sampleConfig |}
  /\ scheduledDelays (effects r) = [2000].
Proof.
  cbv zeta.
  pose proof (reconnect_retry_delay (sampleEnv false (Some sampleInitError) [])
                {| timer_delayMs := 16000; timer_savedConfig := sampleConfig |}
                failedStartHeap) as H.
  assert (Hs : stopRequested (this failedStartHeap) = false) by (vm_compute; reflexivity).
  assert (Hc : config (this failedStartHeap) <> None) by (vm_compute; discriminate).
  specialize (H Hs Hc). cbv zeta in H. destruct H as [H1 H2].
  split; [exact H1|].
  assert (Hr : completion (start (sampleEnv false (Some sampleInitError) [])
                 (timer_savedConfig
                    {| timer_delayMs := 16000; timer_savedConfig := sampleConfig |})
                 None (atRestart failedStartHeap))
               = Thrown (Error (lit "NIM SDK V2 initialization failed: bad appkey")))
    by (vm_compute; reflexivity).
  rewrite Hr in H2. destruct H2 as (H2 & H3 & _).
  split; [exact H2|]. rewrite H3. vm_compute. reflexivity.
Defined.

(** ** Login status events *)

Lemma onLoginStatus_run (now loginStatus : Z) (h : Heap) client :
  v2Client (this h) = Some client ->
  let r := onLoginStatus now loginStatus h in
  completion r = Normal tt
  /\ v2Client (this (heap r)) = Some client
  /\ length (List.filter isSetInterval (effects r))
     = (if (loginStatus =? 1) && negb (isSome (cleanupInterval (this h)))
        then 1%nat else 0%nat)
  /\ isSome (cleanupInterval (this (heap r)))
     = (loginStatus =? 1) || isSome (cleanupInterval (this h))
  /\ connected (status (this (heap r)))
     = if loginStatus =? 1 then true
       else if loginStatus =? 0 then false
       else connected (status (this h)).
Proof.
  intros Hc. open_heap h. simpl in Hc. subst. cbv zeta.
  unfold onLoginStatus, cleanupMediaFiles. step.
  destruct (loginStatus =? 1); [|destruct (loginStatus =? 0);
                                 [|destruct (loginStatus =? 2)]];
    step; by destruct gInterval; step.
Qed.

(** X4.  However many login-status events the SDK delivers to a running
    gateway, the periodic media cleanup is registered at most once: it is
    registered by the first successful login (status 1) unless an
    interval is already held, and never again.  Every event completes
    normally and keeps the native handle. *)
Theorem cleanup_interval_set_once (events : list (Z * Z)) (h : Heap) client :
  v2Client (this h) = Some client ->
  let r := forEach events (fun ev => onLoginStatus ev.1 ev.2) h in
  completion r = Normal tt
  /\ v2Client (this (heap r)) = Some client
  /\ length (List.filter isSetInterval (effects r))
     = (if existsb (fun ev => ev.2 =? 1) events
           && negb (isSome (cleanupInterval (this h)))
        then 1%nat else 0%nat)
  /\ isSome (cleanupInterval (this (heap r)))
     = existsb (fun ev => ev.2 =? 1) events || isSome (cleanupInterval (this h)).
Proof.
  revert h. induction events as [|[now st] events IH]; intros h Hc; cbv zeta.
  - cbn. done.
  - cbn [forEach existsb fst snd].
    destruct (onLoginStatus_run now st h client Hc) as (H1 & H2 & H3 & H4 & _).
    rewrite (bind_normal _ _ h (effects (onLoginStatus now st h))
               (heap (onLoginStatus now st h)) tt)
      by (rewrite <- H1; symmetry; apply run_eta).
    destruct (IH _ H2) as (I1 & I2 & I3 & I4). cbn [effects heap completion].
    split; [exact I1|]. split; [exact I2|].
    rewrite List.filter_app, length_app, H3, I3, I4, H4.
    split.
    + destruct (st =? 1), (existsb _ events), (isSome (cleanupInterval (this h))); done.
    + destruct (st =? 1), (existsb _ events), (isSome (cleanupInterval (this h))); done.
Qed.

Lemma cleanup_interval_set_once_witness :
  let h := runningHeap false [] in
  let r := forEach [(10, 2); (20, 1); (30, 0); (40, 1)]
             (fun ev => onLoginStatus ev.1 ev.2) h in
  completion r = Normal tt
  /\ length (List.filter isSetInterval (effects r)) = 1%nat.
Proof.
  cbv zeta.
  destruct (cleanup_interval_set_once [(10, 2); (20, 1); (30, 0); (40, 1)]
              (runningHeap false []) (sampleClient false None []))
    as (H1 & _ & H3 & _).
  - vm_compute. reflexivity.
  - split; [exact H1|]. rewrite H3. vm_compute. reflexivity.
Defined.

(** ** Chunking: the shape of the chunks *)

Lemma splitIndexOf_range (remaining : list N) maxLength :
  1 <= maxLength ->
  1 <= splitIndexOf remaining maxLength <= maxLength
  /\ maxLength <= 2 * splitIndexOf remaining maxLength.
Proof.
  intros HN. unfold splitIndexOf.
  pose proof (lastIndexOf_range remaining 10 maxLength) as H1.
  pose proof (lastIndexOf_range remaining 32 maxLength) as H2.
  rewrite Z.max_l in H1, H2 by lia.
  repeat match goal with
  | |- context [if ?b then _ else _] =>
      let E := fresh "E" in destruct b eqn:E
  end;
  repeat match goal with
  | E : _ || _ = false |- _ =>
      apply orb_false_iff in E as [? ?]
  | E : (_ =? _) = false |- _ => apply Z.eqb_neq in E
  | E : (_ <? _) = false |- _ => apply Z.ltb_ge in E
  end; lia.
Qed.

(** One way to reason about the loop: a property of (remainder, chunks
    pushed for it) that holds when the loop ends and is kept by an
    iteration holds of what the loop returns. *)
Lemma splitLoop_rule (maxLength : Z) (Q : list N -> list (list N) -> Prop) :
  1 <= maxLength ->
  Q [] [] ->
  (forall remaining, remaining <> [] -> len remaining <= maxLength ->
     Q remaining [remaining]) ->
  (forall remaining cs, maxLength < len remaining ->
     let k := Z.to_nat (splitIndexOf remaining maxLength) in
     Q (trimStart (drop k remaining)) cs ->
     Q remaining (take k remaining :: cs)) ->
  forall remaining : list N,
  exists cs,
    (forall fuel chunks, (length remaining < fuel)%nat ->
       splitLoop fuel remaining maxLength chunks = Some (chunks ++ cs))
    /\ Q remaining cs.
Proof.
  intros HN Hnil Hlast Hstep remaining.
  remember (length remaining) as n eqn:En.
  assert (Hlen : (length remaining <= n)%nat) by lia. clear En.
  revert remaining Hlen. induction n as [|n IH]; intros remaining Hlen.
  - destruct remaining; [|simpl in Hlen; lia].
    exists []. split; [|done].
    intros [|fuel] chunks Hf; [simpl in Hf; lia|].
    simpl. by rewrite app_nil_r.
  - destruct remaining as [|c0 rest] eqn:Erem.
    { exists []. split; [|done].
      intros [|fuel] chunks Hf; [simpl in Hf; lia|].
      simpl. by rewrite app_nil_r. }
    rewrite <- Erem in *.
    assert (Epos : (len remaining >? 0) = true).
    { rewrite Z.gtb_ltb. apply Z.ltb_lt. subst. unfold len. simpl. lia. }
    destruct (len remaining <=? maxLength) eqn:Efit.
    + exists [remaining]. split.
      * intros [|fuel] chunks Hf; [lia|]. simpl. by rewrite Epos, Efit.
      * apply Hlast; [by subst | by apply Z.leb_le].
    + apply Z.leb_gt in Efit.
      destruct (splitIndexOf_range remaining maxLength HN) as [Hk _].
      set (k := splitIndexOf remaining maxLength) in *.
      assert (Hpre : slice remaining 0 k = take (Z.to_nat k) remaining)
        by (apply slice_prefix; lia).
      assert (Hsuf : slice_from remaining k = drop (Z.to_nat k) remaining)
        by (apply slice_from_suffix; lia).
      assert (Hshort : (length (trimStart (drop (Z.to_nat k) remaining)) <= n)%nat).
      { pose proof (trimStart_length (drop (Z.to_nat k) remaining)) as Ht.
        rewrite length_drop in Ht. unfold len in Efit. lia. }
      destruct (IH _ Hshort) as (cs & Hrun & HQ).
      exists (take (Z.to_nat k) remaining :: cs). split.
      * intros [|fuel] chunks Hf; [lia|].
        cbn [splitLoop]. rewrite Epos.
        destruct (len remaining <=? maxLength) eqn:E'; [apply Z.leb_le in E'; lia|].
        cbv zeta.
        change (splitLoop fuel (trimStart (slice_from remaining k)) maxLength
                  (chunks ++ [slice remaining 0 k])
                = Some (chunks ++ take (Z.to_nat k) remaining :: cs)).
        rewrite Hpre, Hsuf, Hrun; [by rewrite <- app_assoc | lia].
      * by apply Hstep.
Qed.

Lemma trimStart_startsWithText (s : list N) :
  trimStart s = [] \/ startsWithText (trimStart s) = true.
Proof.
  induction s as [|c s IH]; [by left|]. simpl.
  destruct (is_ws c) eqn:E; [exact IH|]. right. simpl. by rewrite E.
Qed.

(** X5.  The shape of the chunks, for a maximum length of at least 1.
    No chunk of a non-empty text is empty; every chunk but the last is at
    least half the maximum length long; every chunk after the first
    begins with a character that is not white space; and a text of
    length L is cut into at most 2L/max + 1 chunks. *)
Theorem splitMessageIntoChunks_shape (T : list N) (maxLength : Z) :
  1 <= maxLength ->
  exists chunks,
    (forall fuel, (length T < fuel)%nat ->
       splitMessageIntoChunks fuel T maxLength = Some chunks)
    /\ (T <> [] -> Forall (fun c : list N => c <> []) chunks)
    /\ Forall (fun c : list N => maxLength <= 2 * len c) (removelast chunks)
    /\ Forall (fun c => startsWithText c = true) (tail chunks)
    /\ maxLength * (len chunks - 1) <= 2 * len T.
Proof.
  intros HN. unfold splitMessageIntoChunks.
  destruct (len T <=? maxLength) eqn:Efit.
  { exists [T]. split; [done|]. split; [by constructor|].
    split; [constructor|]. split; [constructor|]. unfold len. simpl. lia. }
  apply Z.leb_gt in Efit.
  destruct (splitLoop_rule maxLength
    (fun remaining cs =>
       Forall (fun c : list N => c <> []) cs
       /\ Forall (fun c : list N => maxLength <= 2 * len c) (removelast cs)
       /\ Forall (fun c => startsWithText c = true) (tail cs)
       /\ (cs <> [] -> startsWithText remaining = true ->
           Forall (fun c => startsWithText c = true) cs)
       /\ (remaining = [] -> cs = [])
       /\ maxLength * (len cs - 1) <= 2 * len remaining) HN) with (remaining := T)
    as (cs & Hrun & H1 & H2 & H3 & _ & _ & H6).
  - repeat split; try constructor; try done. unfold len. simpl. lia.
  - intros remaining Hne Hfit.
    split; [by constructor|]. split; [constructor|]. split; [constructor|].
    split; [by constructor|]. split; [done|]. unfold len. simpl. lia.
  - intros remaining cs Hlong k (I1 & I2 & I3 & I4 & I5 & I6).
    destruct (splitIndexOf_range remaining maxLength HN) as [Hk Hhalf].
    assert (Hklen : length (take k remaining) = k).
    { rewrite length_take. unfold len in Hlong. lia. }
    assert (Hne : take k remaining <> []).
    { intros E. rewrite E in Hklen. simpl in Hklen. lia. }
    split; [by constructor|].
    assert (Hc : maxLength <= 2 * len (take k remaining))
      by (unfold len; rewrite Hklen; lia).
    assert (Htail : Forall (fun c => startsWithText c = true) cs).
    { destruct cs as [|c cs']; [constructor|].
      destruct (trimStart_startsWithText (drop k remaining)) as [E|E].
      - by specialize (I5 E).
      - by apply I4. }
    split; [|split; [exact Htail|split; [|split]]].
    + destruct cs as [|c cs']; [constructor|].
      change (removelast (take k remaining :: c :: cs'))
        with (take k remaining :: removelast (c :: cs')).
      by constructor.
    + intros _ Hs. constructor; [|exact Htail].
      destruct remaining as [|x rest]; [done|].
      assert (Hk0 : k <> 0%nat) by (unfold k; lia).
      clearbody k. destruct k; [done|]. exact Hs.
    + intros ->. unfold len in Hlong. simpl in Hlong. lia.
    + pose proof (trimStart_length (drop k remaining)) as Ht.
      rewrite length_drop in Ht.
      unfold len in *. rewrite length_cons.
      replace (Z.of_nat (S (length cs)) - 1) with (Z.of_nat (length cs)) by lia.
      rewrite Z.mul_sub_distr_l in I6.
      assert (Z.of_nat k = splitIndexOf remaining maxLength) by (unfold k; lia).
      lia.
  - exists cs. split; [intros fuel Hf; by rewrite (Hrun fuel [])|].
    split; [done|]. done.
Qed.

Lemma splitMessageIntoChunks_shape_witness :
  1 <= 7 /\
  exists chunks,
    (forall fuel, (length (lit "hello world foo bar") < fuel)%nat ->
       splitMessageIntoChunks fuel (lit "hello world foo bar") 7 = Some chunks)
    /\ (lit "hello world foo bar" <> [] -> Forall (fun c : list N => c <> []) chunks)
    /\ Forall (fun c : list N => 7 <= 2 * len c) (removelast chunks)
    /\ Forall (fun c => startsWithText c = true) (tail chunks)
    /\ 7 * (len chunks - 1) <= 2 * len (lit "hello world foo bar").
Proof.
  split; [lia|].
  apply (splitMessageIntoChunks_shape (lit "hello world foo bar") 7). lia.
Defined.

Lemma lastIndexOf_from_absent (s : list N) ch i limit acc :
  ch ∉ s -> lastIndexOf_from s ch i limit acc = acc.
Proof.
  revert i acc. induction s as [|c s IH]; intros i acc Hn; [done|].
  simpl. apply not_elem_of_cons in Hn as [Hne Hn].
  rewrite (IH _ _ Hn).
  destruct (N.eqb_spec c ch); [congruence | done].
Qed.

Lemma lastIndexOf_absent (s : list N) ch position :
  ch ∉ s -> lastIndexOf s ch position = -1.
Proof. apply lastIndexOf_from_absent. Qed.

Lemma splitIndexOf_no_ws (s : list N) maxLength :
  Forall (fun c => is_ws c = false) s -> splitIndexOf s maxLength = maxLength.
Proof.
  intros Hs. unfold splitIndexOf.
  assert (H10 : 10%N ∉ s).
  { intros Hin. rewrite Forall_forall in Hs. by specialize (Hs _ Hin). }
  assert (H32 : 32%N ∉ s).
  { intros Hin. rewrite Forall_forall in Hs. by specialize (Hs _ Hin). }
  by rewrite !lastIndexOf_absent.
Qed.

Lemma trimStart_no_ws (s : list N) :
  Forall (fun c => is_ws c = false) s -> trimStart s = s.
Proof. intros [|c s' Hc _]; [done|]. simpl. by rewrite Hc. Qed.

(** X6.  A text without any white space is cut into consecutive pieces
    of exactly the maximum length (the last one may be shorter), and the
    pieces concatenated are the text: nothing is dropped. *)
Theorem splitMessageIntoChunks_no_whitespace (T : list N) (maxLength : Z) :
  1 <= maxLength ->
  Forall (fun c => is_ws c = false) T ->
  exists chunks,
    (forall fuel, (length T < fuel)%nat ->
       splitMessageIntoChunks fuel T maxLength = Some chunks)
    /\ concat chunks = T
    /\ Forall (fun c : list N => len c = maxLength) (removelast chunks).
Proof.
  intros HN HT. unfold splitMessageIntoChunks.
  destruct (len T <=? maxLength) eqn:Efit.
  { exists [T]. split; [done|]. split; [apply app_nil_r | constructor]. }
  destruct (splitLoop_rule maxLength
    (fun remaining cs =>
       Forall (fun c => is_ws c = false) remaining ->
       concat cs = remaining
       /\ Forall (fun c : list N => len c = maxLength) (removelast cs)) HN)
    with (remaining := T) as (cs & Hrun & HQ).
  - intros _. by split; [|constructor].
  - intros remaining _ _ _. split; [apply app_nil_r | constructor].
  - intros remaining cs Hlong k IH Hrem.
    assert (Ek : k = Z.to_nat maxLength)
      by (unfold k; by rewrite splitIndexOf_no_ws).
    clearbody k. subst k.
    assert (Hdrop : Forall (fun c => is_ws c = false)
                      (drop (Z.to_nat maxLength) remaining))
      by (by apply Forall_drop).
    rewrite (trimStart_no_ws _ Hdrop) in IH.
    destruct (IH Hdrop) as [Hcat Hall].
    split.
    + cbn [concat]. rewrite Hcat. apply take_drop.
    + destruct cs as [|c cs']; [constructor|].
      change (removelast (take (Z.to_nat maxLength) remaining :: c :: cs'))
        with (take (Z.to_nat maxLength) remaining :: removelast (c :: cs')).
      constructor; [|exact Hall].
      unfold len in *. rewrite length_take. lia.
  - exists cs. split; [intros fuel Hf; by rewrite (Hrun fuel [])|]. by apply HQ.
Qed.

Lemma splitMessageIntoChunks_no_whitespace_witness :
  1 <= 4 /\ Forall (fun c => is_ws c = false) (lit "abcdefghij") /\
  exists chunks,
    (forall fuel, (length (lit "abcdefghij") < fuel)%nat ->
       splitMessageIntoChunks fuel (lit "abcdefghij") 4 = Some chunks)
    /\ concat chunks = lit "abcdefghij"
    /\ Forall (fun c : list N => len c = 4) (removelast chunks).
Proof.
  assert (H : Forall (fun c => is_ws c = false) (lit "abcdefghij"))
    by (apply Forall_forall; intros c Hc; vm_compute in Hc;
        repeat (apply elem_of_cons in Hc as [->|Hc]; [reflexivity|]);
        by apply elem_of_nil in Hc).
  split; [lia|]. split; [exact H|].
  apply (splitMessageIntoChunks_no_whitespace (lit "abcdefghij") 4); [lia | exact H].
Defined.

(** X7.  With a maximum length of 0 the loop of [splitMessageIntoChunks]
    does not end on any text that contains a character other than white
    space: every iteration pushes an empty chunk and leaves the remainder
    as it was, so every amount of fuel is used up. *)
Theorem splitMessageIntoChunks_zero_max_diverges (T : list N) :
  trimStart T <> [] ->
  forall fuel, splitMessageIntoChunks fuel T 0 = None.
Proof.
  intros HT fuel. unfold splitMessageIntoChunks.
  assert (Hpos : forall s : list N, trimStart s <> [] -> 0 < len s).
  { intros [|c s] Hs; [done|]. unfold len. simpl. lia. }
  destruct (len T <=? 0) eqn:E; [apply Z.leb_le in E; specialize (Hpos _ HT); lia|].
  clear E. generalize (@nil (list N)) as chunks. revert T HT.
  induction fuel as [|fuel IH]; intros remaining Hrem chunks; [done|].
  pose proof (Hpos _ Hrem) as Hlen. cbn [splitLoop].
  destruct (len remaining >? 0) eqn:E1; [|rewrite Z.gtb_ltb in E1; apply Z.ltb_ge in E1; lia].
  destruct (len remaining <=? 0) eqn:E2; [apply Z.leb_le in E2; lia|].
  cbv zeta.
  assert (Hidx : forall ch, lastIndexOf remaining ch 0 = -1
                            \/ lastIndexOf remaining ch 0 = 0).
  { intros ch. pose proof (lastIndexOf_range remaining ch 0). lia. }
  assert (Hcut : trimStart (slice_from remaining 0) = trimStart remaining)
    by (rewrite slice_from_suffix by lia; done).
  assert (Hidem : trimStart (trimStart remaining) <> []).
  { destruct (trimStart_startsWithText remaining) as [E|E]; [done|].
    destruct (trimStart remaining) as [|c s]; [done|]. simpl in *.
    destruct (is_ws c); done. }
  destruct (Hidx 10%N) as [-> | ->], (Hidx 32%N) as [-> | ->];
    repeat match goal with
    | |- context [if ?b then _ else _] =>
        let v := eval vm_compute in b in change b with v; cbv iota
    end;
    rewrite Hcut; by apply IH.
Qed.

Lemma splitMessageIntoChunks_zero_max_diverges_witness :
  trimStart (lit " a") <> []
  /\ splitMessageIntoChunks 1000 (lit " a") 0 = None.
Proof.
  assert (H : trimStart (lit " a") <> []) by (vm_compute; discriminate).
  split; [exact H|].
  exact (splitMessageIntoChunks_zero_max_diverges (lit " a") H 1000%nat).
Defined.

(** ** Conversation identifiers: the documented format *)

Lemma split_at_sep sep (a b : list N) :
  sep ∉ a -> split sep (a ++ sep :: b) = a :: split sep b.
Proof.
  induction a as [|c a IH]; intros Ha; simpl.
  - by rewrite N.eqb_refl.
  - apply not_elem_of_cons in Ha as [Hc Ha].
    destruct (N.eqb_spec c sep); [congruence|]. by rewrite IH.
Qed.

(** X8.  Parsing an id of the documented form appId|type|targetId, whose
    fields contain no vertical bar, returns the target id, and the session
    type team when the type field reads 2 and p2p for every other type
    field.  An id with fewer than two bars parses to p2p with an empty
    target id. *)
Theorem parseConversationId_format (appId ty target : list N) :
  124%N ∉ appId -> 124%N ∉ ty -> 124%N ∉ target ->
  parseConversationId (appId ++ lit "|" ++ ty ++ lit "|" ++ target)
  = {| sessionType := if bool_decide (parseInt10 ty = Some 2) then team else p2p;
       targetId := target |}
  /\ parseConversationId (appId ++ lit "|" ++ ty)
     = {| sessionType := p2p; targetId := [] |}
  /\ parseConversationId appId = {| sessionType := p2p; targetId := [] |}.
Proof.
  intros Ha Hty Ht. unfold parseConversationId.
  change (lit "|") with [124%N]. cbn [app].
  rewrite !(split_at_sep _ _ _ Ha), (split_at_sep _ _ _ Hty).
  rewrite (split_no_sep _ _ Ht), (split_no_sep _ _ Hty), (split_no_sep _ _ Ha).
  cbn [lookup list_lookup].
  split; [|done].
  destruct (bool_decide (parseInt10 ty = Some 1)) eqn:E1; [|done].
  apply bool_decide_eq_true in E1. rewrite E1. done.
Qed.

Lemma parseConversationId_format_witness :
  parseConversationId (lit "app9|2|team42")
  = {| sessionType := team; targetId := lit "team42" |}
  /\ parseConversationId (lit "app9|2") = {| sessionType := p2p; targetId := [] |}.
Proof.
  assert (Hn : forall s : list N, bool_decide (124%N ∉ s) = true -> 124%N ∉ s)
    by (intros s; apply bool_decide_eq_true_1).
  destruct (parseConversationId_format (lit "app9") (lit "2") (lit "team42"))
    as (H1 & H2 & _); try (apply Hn; vm_compute; reflexivity).
  split; [exact H1 | exact H2].
Defined.

(** ** The inbound pipeline, stage by stage *)

Lemma passesOtherFilters_stages cfg msg :
  passesOtherFilters cfg msg
  = passesSenderFilters cfg msg && passesContentFilters msg.
Proof.
  unfold passesOtherFilters, passesSenderFilters, passesContentFilters.
  by rewrite !andb_assoc.
Qed.

(** A message that one of the content filters rejects: one log entry,
    nothing else. *)
Lemma handleAccepted_filtered parser env clk msg (h : Heap) :
  passesContentFilters msg = false ->
  exists text,
    handleAccepted parser env clk msg h
    = mkRun [LogCall (log (this h)) text []] h (Normal tt).
Proof.
  unfold passesContentFilters, handleAccepted. intros Hf.
  destruct (isSupportedType _) eqn:Hty; cbn [negb andb] in *;
    [|eexists; unfold logM; step; reflexivity].
  destruct (bool_decide _) eqn:Hconv; cbn [negb andb] in *;
    [|eexists; unfold logM; step; reflexivity].
  destruct (convertMessageType (v2_messageType msg)); try discriminate.
  unfold buildContent. rewrite Hf. cbn [negb].
  eexists. step. reflexivity.
Qed.

Lemma buildContent_some env msg (h : Heap) :
  isSupportedType (convertMessageType (v2_messageType msg)) = true ->
  match convertMessageType (v2_messageType msg) with
  | text_t => truthy (trim (String_of (or_else (v2_text msg) (Some []))))
  | _ => true
  end = true ->
  exists content attachments,
    buildContent env msg (convertMessageType (v2_messageType msg)) h
    = mkRun [] h (Normal (Some (content, attachments))).
Proof.
  intros Hty Htext. unfold buildContent.
  destruct (convertMessageType (v2_messageType msg)); try discriminate Hty;
    [rewrite Htext; cbn [negb]; eauto|..];
    cbn [isMediaType]; (destruct (v2_attachment msg) as [a|]; [|eauto]);
    (destruct (truthy_opt (v2a_url a)); [|eauto]);
    destruct (downloadNimMedia _ _ _ _); eauto.
Qed.

Lemma deliver_lastSender parser env clk msg im (h : Heap) :
  lastSenderId (this (heap (deliver parser env clk msg im h)))
  = Some (senderIdOf msg).
Proof.
  unfold deliver. step.
  match goal with
  | |- context [heap (?m ?h1)] =>
      assert (Hp : preserves (fun h => lastSenderId (this h)) m)
  end.
  { destruct (onMessageCallback _); [|preserving].
    apply preserves_tryCatch; [preserving | intros e].
    apply preserves_bind; [preserving | intros _].
    apply replyFn_preserves. by intros []. }
  rewrite Hp. by destruct (this h).
Qed.

(** A message that passes the content filters: it is delivered, and its
    sender becomes the notification target. *)
Lemma handleAccepted_lastSender parser env clk msg (h : Heap) :
  passesContentFilters msg = true ->
  lastSenderId (this (heap (handleAccepted parser env clk msg h)))
  = Some (senderIdOf msg).
Proof.
  unfold passesContentFilters. intros Hp.
  apply andb_true_iff in Hp as [Hp Htext].
  apply andb_true_iff in Hp as [Hty Hconv].
  unfold handleAccepted. rewrite Hty, Hconv. cbn [negb].
  destruct (buildContent_some env msg h Hty Htext) as (c & a & Hb).
  rewrite (bind_normal _ _ _ _ _ _ Hb). cbn [effects heap completion app].
  apply deliver_lastSender.
Qed.

(** X9.  The delivery criterion.  The handler never raises.  It delivers
    an event (one [message] event, and one call of the application
    callback when one is set) exactly when the event passes the sender
    filters, its id is not in the dedup map after eviction, and it passes
    the content filters; otherwise it delivers nothing.  The sender of a
    delivered event becomes the notification target; an event that is not
    delivered leaves the target as it was. *)
Theorem handleIncomingMessage_delivery parser env clk msg (h : Heap) :
  let r := handleIncomingMessage parser env clk msg h in
  let go := passesSenderFilters (config (this h)) msg && isFresh clk h msg
            && passesContentFilters msg in
  completion r = Normal tt
  /\ delivered (effects r) = (if go then 1%nat else 0%nat)
  /\ callbackInvocations (effects r)
     = (if go && isSome (onMessageCallback (this h)) then 1%nat else 0%nat)
  /\ lastSenderId (this (heap r))
     = (if go then Some (senderIdOf msg) else lastSenderId (this h))
  /\ config (this (heap r)) = config (this h)
  /\ onMessageCallback (this (heap r)) = onMessageCallback (this h).
Proof.
  cbv zeta. unfold handleIncomingMessage, passesSenderFilters, isFresh.
  rewrite tryCatch_logged, handleIncomingBody_run. cbn [completion effects heap].
  split; [done|].
  destruct (isSelfMessage _ _); cbn [negb andb]; [by repeat split|].
  destruct (rejectedByWhitelist _ _); cbn [negb andb]; [by repeat split|].
  cbv zeta.
  destruct (isSome (_ !! _)); cbn [negb andb]; [by repeat split|].
  set (h1 := mkHeap (this h) _).
  destruct (passesContentFilters msg) eqn:Hc.
  - pose proof Hc as Hc'. unfold passesContentFilters in Hc'.
    apply andb_true_iff in Hc' as [Hc' Htext].
    apply andb_true_iff in Hc' as [Hty Hconv].
    apply bool_decide_eq_true in Hconv.
    destruct (handleAccepted_counts parser env clk msg h1 Hty Hconv Htext)
      as [Hd Hi].
    rewrite delivered_app, callbackInvocations_app, Hd, Hi.
    rewrite (handleAccepted_lastSender _ _ _ _ _ Hc).
    split; [by destruct (completion _)|]. split; [by destruct (completion _)|].
    split; [done|]. split.
    + rewrite (handleAccepted_preserves (fun h => config (this h)));
        by try intros [].
    + rewrite (handleAccepted_preserves (fun h => onMessageCallback (this h)));
        by try intros [].
  - destruct (handleAccepted_filtered parser env clk msg h1 Hc) as [text ->].
    by repeat split.
Qed.

(** X10.  The content filters come after the dedup step, so an event
    they reject has already used up its id: when an event with a fresh id
    passes the sender filters but is of an unsupported type, belongs to a
    conversation that is not p2p, or is a blank text, nothing is
    delivered and its id is recorded; a later event with the same id,
    handled within the TTL, is not delivered either, even if it would pass
    every filter. *)
Theorem filtered_event_consumes_id parser env clk1 clk2 msg1 msg2 (h : Heap) :
  passesSenderFilters (config (this h)) msg1 = true ->
  isFresh clk1 h msg1 = true ->
  passesContentFilters msg1 = false ->
  messageIdOf msg2 = messageIdOf msg1 ->
  now_cleanup clk2 - now_seen clk1 <= MESSAGE_DEDUP_TTL ->
  let r1 := handleIncomingMessage parser env clk1 msg1 h in
  let r2 := handleIncomingMessage parser env clk2 msg2 (heap r1) in
  delivered (effects r1) = 0%nat
  /\ processedMessages (heap r1) !! messageIdOf msg1 = Some (now_seen clk1)
  /\ delivered (effects r2) = 0%nat
  /\ callbackInvocations (effects r2) = 0%nat.
Proof.
  unfold passesSenderFilters, isFresh. intros Hs Hf Hc Hid Httl.
  apply andb_true_iff in Hs as [Hself Hw].
  apply negb_true_iff in Hself, Hw, Hf. cbv zeta.
  assert (H1 : exists text,
    handleIncomingMessage parser env clk1 msg1 h
    = mkRun [LogCall (log (this h)) text []]
        (mkHeap (this h)
           (<[messageIdOf msg1 := now_seen clk1]>
              (evictExpired (now_cleanup clk1) (processedMessages h))))
        (Normal tt)).
  { unfold handleIncomingMessage.
    rewrite tryCatch_logged, handleIncomingBody_run, Hself, Hw. cbv zeta.
    rewrite Hf.
    match goal with
    | |- context [handleAccepted ?p ?e ?c ?m ?h1] =>
        destruct (handleAccepted_filtered p e c m h1 Hc) as [text ->]
    end.
    by exists text. }
  destruct H1 as [text ->]. cbn [effects heap processedMessages].
  split; [done|]. split; [by rewrite lookup_insert_eq|].
  unfold handleIncomingMessage.
  rewrite tryCatch_logged, handleIncomingBody_run. cbn [this processedMessages].
  destruct (isSelfMessage _ (senderIdOf msg2)); [done|].
  destruct (rejectedByWhitelist _ (senderIdOf msg2)); [done|]. cbv zeta.
  rewrite evictExpired_lookup, Hid. rewrite lookup_insert_eq.
  destruct (decide (now_cleanup clk2 - now_seen clk1 > MESSAGE_DEDUP_TTL)); [lia|].
  done.
Qed.

Lemma filtered_event_consumes_id_witness :
  let parser := sampleParser [] [] in
  let env := sampleEnv false None [] in
  passesOtherFilters (config (this listeningHeap)) sampleMessage = true
  /\ delivered (effects (handleIncomingMessage parser env (sampleClock 1000)
                           sampleNotice listeningHeap)) = 0%nat
  /\ delivered
       (effects (handleIncomingMessage parser env (sampleClock 2000) sampleMessage
                   (heap (handleIncomingMessage parser env (sampleClock 1000)
                            sampleNotice listeningHeap)))) = 0%nat.
Proof.
  cbv zeta. split; [by vm_compute|].
  destruct (filtered_event_consumes_id (sampleParser [] []) (sampleEnv false None [])
              (sampleClock 1000) (sampleClock 2000) sampleNotice sampleMessage
              listeningHeap) as (H1 & _ & H3 & _).
  - by vm_compute.
  - unfold isFresh. rewrite evictExpired_lookup.
    assert (Hpm : processedMessages listeningHeap = ∅) by (by vm_compute).
    rewrite Hpm. by rewrite lookup_empty.
  - by vm_compute.
  - by vm_compute.
  - unfold MESSAGE_DEDUP_TTL. simpl. lia.
  - split; [exact H1 | exact H3].
Defined.

(** ** Sending long texts *)

(** A loop whose body leaves the heap alone: it runs the body on the
    elements in order, up to and including the first one that raises. *)
Lemma forEach_pure_normal {A} (l : list A) (body : A -> M unit) (h : Heap) :
  (forall x, pureM (body x)) ->
  Forall (fun x => completion (body x h) = Normal tt) l ->
  forEach l body h
  = mkRun (concat (List.map (fun x => effects (body x h)) l)) h (Normal tt).
Proof.
  intros Hp. induction 1 as [|x l Hx Hl IH]; [done|].
  cbn [forEach List.map concat].
  rewrite (bind_normal _ _ h (effects (body x h)) h tt)
    by (rewrite (pure_run _ h (Hp x)) at 1; by rewrite Hx).
  by rewrite IH.
Qed.

Lemma forEach_pure_thrown {A} (pre post : list A) (x : A) (body : A -> M unit)
    (h : Heap) e :
  (forall x, pureM (body x)) ->
  Forall (fun x => completion (body x h) = Normal tt) pre ->
  completion (body x h) = Thrown e ->
  forEach (pre ++ x :: post) body h
  = mkRun (concat (List.map (fun x => effects (body x h)) pre) ++ effects (body x h))
      h (Thrown e).
Proof.
  intros Hp Hpre Hx. induction Hpre as [|y pre Hy Hpre IH].
  - cbn [app forEach List.map concat].
    rewrite (bind_thrown _ _ h (effects (body x h)) h e)
      by (rewrite (pure_run _ h (Hp x)) at 1; by rewrite Hx).
    done.
  - cbn [app forEach List.map concat].
    rewrite (bind_normal _ _ h (effects (body y h)) h tt)
      by (rewrite (pure_run _ h (Hp y)) at 1; by rewrite Hy).
    rewrite IH. cbn [effects heap completion]. by rewrite app_assoc.
Qed.

Lemma sendText_then_pace to (chunk : list N) (b : bool) (h : Heap) :
  let m := sendText to chunk >> when b (effect (Sleep 100)) in
  pureM m
  /\ match completion (sendText to chunk h) with
     | Normal _ =>
         completion (m h) = Normal tt
         /\ effects (m h)
            = effects (sendText to chunk h) ++ (if b then [Sleep 100] else [])
     | Thrown e =>
         completion (m h) = Thrown e
         /\ effects (m h) = effects (sendText to chunk h)
     end.
Proof.
  cbv zeta. split.
  { apply pure_bind; [apply pure_sendText | intros _]. auto with pure. }
  pose proof (pure_run _ h (pure_sendText to chunk)) as Hrun.
  destruct (completion (sendText to chunk h)) as [[]|e] eqn:Hc.
  - rewrite (bind_normal _ _ _ _ _ _ Hrun). by destruct b.
  - by rewrite (bind_thrown _ _ _ _ _ _ Hrun).
Qed.

(** X11.  [sendLongText] sends the chunks of the text in order, each as
    one text message, pausing 100 ms after each when there is more than
    one.  It has no error handling of its own: when sending a chunk
    raises, the error propagates and the chunks after it are not sent.
    The gateway state is not changed either way. *)
Theorem sendLongText_stops_at_failure (to text : list N) (h : Heap) :
  exists chunks,
    splitMessageIntoChunks (chunkFuel text) text MAX_MESSAGE_LENGTH = Some chunks
    /\ let pace := if 1 <? len chunks then [Sleep 100] else [] in
       (Forall (fun c => completion (sendText to c h) = Normal tt) chunks ->
        sendLongText to text h
        = mkRun (concat (List.map (fun c => effects (sendText to c h) ++ pace) chunks))
            h (Normal tt))
       /\ (forall pre c post e,
             chunks = pre ++ c :: post ->
             Forall (fun c => completion (sendText to c h) = Normal tt) pre ->
             completion (sendText to c h) = Thrown e ->
             sendLongText to text h
             = mkRun (concat (List.map (fun c => effects (sendText to c h) ++ pace) pre)
                      ++ effects (sendText to c h))
                 h (Thrown e)).
Proof.
  destruct (splitMessageIntoChunks_terminates text) as (chunks & Hsplit & _).
  exists chunks. split; [exact Hsplit|]. cbv zeta.
  unfold sendLongText. rewrite Hsplit.
  set (b := 1 <? len chunks). clearbody b.
  assert (Hpure : forall c, pureM (sendText to c >> when b (effect (Sleep 100))))
    by (intros c; apply (sendText_then_pace to c b h)).
  assert (Hok : forall l,
    Forall (fun c => completion (sendText to c h) = Normal tt) l ->
    Forall (fun c => completion ((sendText to c >> when b (effect (Sleep 100))) h)
                     = Normal tt) l
    /\ List.map (fun c => effects ((sendText to c >> when b (effect (Sleep 100))) h)) l
       = List.map (fun c => effects (sendText to c h)
                            ++ (if b then [Sleep 100] else [])) l).
  { induction 1 as [|c l Hc Hl [IH1 IH2]]; [by split|].
    destruct (sendText_then_pace to c b h) as [_ Hrun]. rewrite Hc in Hrun.
    destruct Hrun as [H1 H2]. split; [by constructor|].
    cbn [List.map]. by rewrite H2, IH2. }
  split.
  - intros Hall. destruct (Hok _ Hall) as [H1 H2].
    rewrite (forEach_pure_normal _ _ _ Hpure H1). by rewrite H2.
  - intros pre c post e -> Hpre Hc. destruct (Hok _ Hpre) as [H1 H2].
    destruct (sendText_then_pace to c b h) as [_ Hrun]. rewrite Hc in Hrun.
    destruct Hrun as [H3 H4].
    rewrite (forEach_pure_thrown _ _ _ _ _ e Hpure H1 H3). by rewrite H2, H4.
Qed.

Lemma sendLongText_stops_at_failure_witness :
  let r := sendLongText (lit "a") (lit "hi") (runningHeap false []) in
  completion r = Normal tt
  /\ sendAttempts (effects r) = [TextMessage (lit "hi")]
  /\ existsb isSleep (effects r) = false.
Proof.
  cbv zeta.
  destruct (sendLongText_stops_at_failure (lit "a") (lit "hi") (runningHeap false []))
    as (chunks & Hs & Hok & _).
  vm_compute in Hs. injection Hs as <-.
  rewrite Hok.
  - vm_compute. by repeat split.
  - constructor; [|constructor]. vm_compute. reflexivity.
Defined.

(** ** Sending without a live SDK *)

Lemma chunks_nonempty (text : list N) chunks :
  splitMessageIntoChunks (chunkFuel text) text MAX_MESSAGE_LENGTH = Some chunks ->
  chunks <> [].
Proof.
  unfold splitMessageIntoChunks.
  destruct (len text <=? MAX_MESSAGE_LENGTH) eqn:Efit; [by intros [= <-]|].
  apply Z.leb_gt in Efit.
  destruct (splitLoop_rule MAX_MESSAGE_LENGTH
              (fun remaining cs => remaining <> [] -> cs <> []))
    with (remaining := text) as (cs & Hrun & HQ); try done.
  rewrite (Hrun (chunkFuel text) []) by (unfold chunkFuel; lia).
  intros [= <-]. apply HQ. intros ->. unfold len, MAX_MESSAGE_LENGTH in Efit.
  simpl in Efit. lia.
Qed.

(** X12.  Without a message service or a message creator nothing can be
    sent: [sendText], [sendLongText] and [sendMedia] raise "NIM SDK not
    ready" before any call into the SDK, and change nothing.  That is the
    state [stop] leaves a running gateway in. *)
Theorem sends_fail_when_not_ready env (to text filePath : list N) (h : Heap) :
  let notReady := mkRun [] h (Thrown (Error (lit "NIM SDK not ready"))) in
  (messageService (this h) = None \/ messageCreator (this h) = None ->
   sendText to text h = notReady
   /\ sendLongText to text h = notReady
   /\ sendMedia env to filePath h = notReady)
  /\ (isSome (v2Client (this h)) = true ->
      messageService (this (heap (stop h))) = None
      /\ messageCreator (this (heap (stop h))) = None).
Proof.
  cbv zeta. split.
  - intros Hnone.
    assert (Htext : forall t,
      sendText to t h = mkRun [] h (Thrown (Error (lit "NIM SDK not ready")))).
    { intros t. unfold sendText. rewrite bind_getThis.
      destruct Hnone as [-> | ->]; [done|]. by destruct (messageService (this h)). }
    split; [apply Htext|]. split.
    + unfold sendLongText.
      destruct (splitMessageIntoChunks_terminates text) as (chunks & Hs & _).
      rewrite Hs. pose proof (chunks_nonempty _ _ Hs) as Hne.
      destruct chunks as [|c cs]; [done|]. cbn [forEach].
      rewrite bind_assoc. by rewrite (bind_thrown _ _ _ _ _ _ (Htext c)).
    + unfold sendMedia. rewrite bind_getThis.
      destruct Hnone as [-> | ->]; [done|]. by destruct (messageService (this h)).
  - destruct (v2Client (this h)) as [client|] eqn:Hc; [intros _|done].
    by rewrite (stop_live h client Hc).
Qed.

Lemma sends_fail_when_not_ready_witness :
  let h := heap (stop (runningHeap false [])) in
  sendLongText (lit "a") (lit "hello") h
  = mkRun [] h (Thrown (Error (lit "NIM SDK not ready")))
  /\ messageService (this h) = None.
Proof.
  cbv zeta.
  destruct (sends_fail_when_not_ready (sampleEnv false None []) (lit "a") (lit "hello")
              (lit "/tmp/a.png") (runningHeap false [])) as [_ Hstop].
  destruct Hstop as [Hms _]; [by vm_compute|].
  destruct (sends_fail_when_not_ready (sampleEnv false None []) (lit "a") (lit "hello")
              (lit "/tmp/a.png") (heap (stop (runningHeap false [])))) as [Hsend _].
  destruct (Hsend (or_introl Hms)) as (_ & Hlong & _).
  split; [exact Hlong | exact Hms].
Defined.

(** X13.  A reply that consists of media markers only never fails and
    always records an outbound message: [replyFn] completes normally and
    stamps [lastOutboundAt] whatever happens to the media sends.  In
    particular, when the SDK is not ready, no message is handed to it and
    the status still reports outbound activity. *)
Theorem replyFn_media_only parser env clk (to text : list N) (h : Heap) :
  let markers := parseMediaMarkers parser text in
  markers <> [] ->
  truthy (trim (stripMediaMarkers parser text markers)) = false ->
  let r := replyFn parser env clk to text h in
  completion r = Normal tt
  /\ lastOutboundAt (status (this (heap r))) = Some (now_outbound clk)
  /\ sendAttempts (effects r) = mediaAttemptsFor env to h markers
  /\ (messageService (this h) = None \/ messageCreator (this h) = None ->
      sendAttempts (effects r) = []).
Proof.
  cbv zeta. intros Hm Hblank.
  assert (Hlen : (len (parseMediaMarkers parser text) =? 0) = false).
  { apply Z.eqb_neq. destruct (parseMediaMarkers parser text); [done|].
    unfold len. simpl. lia. }
  destruct (sendMarkers_run env to (parseMediaMarkers parser text) h 0
              (len (parseMediaMarkers parser text))) as (Hc & Hh & _ & Hs).
  assert (Hrun : sendReplyWithMedia parser env to text h
    = prepend [LogCall (log (this h)) "[NIM Gateway] Found media marker(s) in reply"
                 (decimal (len (parseMediaMarkers parser text)))]
        (sendMarkers env to (parseMediaMarkers parser text) 0
           (len (parseMediaMarkers parser text)) h)).
  { unfold sendReplyWithMedia. rewrite Hlen. step. rewrite Hblank. by step. }
  assert (Hreply : replyFn parser env clk to text h
    = prepend (LogCall (log (this h)) "[NIM Gateway] reply to" to
               :: effects (sendReplyWithMedia parser env to text h))
        (modifyStatus (status_lastOutboundAt (Some (now_outbound clk))) h)).
  { unfold replyFn. step.
    rewrite (bind_normal _ _ h (effects (sendReplyWithMedia parser env to text h)) h tt).
    - unfold prepend. cbn [effects heap completion app]. done.
    - rewrite Hrun at 1. unfold prepend. by rewrite Hc, Hh, Hrun. }
  rewrite Hreply. unfold prepend, modifyStatus, modifyThis.
  cbn [effects heap completion this]. rewrite app_nil_r.
  cbn [sendAttempts]. rewrite Hrun. unfold prepend.
  cbn [effects sendAttempts app]. rewrite Hs.
  split; [done|]. split; [by destruct (this h)|]. split; [done|].
  intros Hnone. unfold mediaAttemptsFor.
  clear Hm Hblank Hlen Hc Hh Hs Hrun Hreply.
  induction (parseMediaMarkers parser text) as [|m ms IH]; [done|].
  cbn [flat_map].
  assert (Hmedia : effects (sendMedia env to (marker_path m) h) = []).
  { unfold sendMedia. rewrite bind_getThis.
    destruct Hnone as [-> | ->]; [done|]. by destruct (messageService (this h)). }
  rewrite Hmedia. destruct (existsSync env (marker_path m)); cbn; apply IH.
Qed.

Lemma replyFn_media_only_witness :
  let parser := sampleParser sampleMarkers [] in
  let env := sampleEnv false None [] in
  let h := heap (stop (runningHeap false [])) in
  let r := replyFn parser env (sampleClock 77) (lit "a") (lit "![x](/tmp/a.png)") h in
  completion r = Normal tt
  /\ lastOutboundAt (status (this (heap r))) = Some 77
  /\ sendAttempts (effects r) = [].
Proof.
  cbv zeta.
  destruct (replyFn_media_only (sampleParser sampleMarkers []) (sampleEnv false None [])
              (sampleClock 77) (lit "a") (lit "![x](/tmp/a.png)")
              (heap (stop (runningHeap false [])))) as (H1 & H2 & _ & H4).
  - discriminate.
  - reflexivity.
  - split; [exact H1|]. split; [exact H2|]. apply H4. left. by vm_compute.
Defined.

(** ** Notifications *)

(** X14.  Notifications go to the stored target.  Without a target (none
    was stored, or the stored one is the empty string) or without a
    message service, [sendNotification] and [sendNotificationWithMedia]
    raise "No conversation available for notification" and do nothing.
    Otherwise [sendNotification] does what [sendLongText] to the target
    does, and stamps [lastOutboundAt] only if that completed; if it
    raised, the error propagates and the state is unchanged.  A target
    restored with [setNotificationTarget] is the one
    [getNotificationTarget] returns. *)
Theorem sendNotification_target parser env (now : Z) (text : list N) (h : Heap) :
  let none :=
    mkRun [] h (Thrown (Error (lit "No conversation available for notification"))) in
  (truthy_opt (lastSenderId (this h)) = false \/ messageService (this h) = None ->
   sendNotification now text h = none
   /\ sendNotificationWithMedia parser env now text h = none)
  /\ (forall target,
        lastSenderId (this h) = Some target -> truthy target = true ->
        isSome (messageService (this h)) = true ->
        let s := sendLongText target text h in
        let r := sendNotification now text h in
        effects r = effects s
        /\ match completion s with
           | Normal _ =>
               completion r = Normal tt
               /\ this (heap r)
                  = set_status (status_lastOutboundAt (Some now) (status (this h)))
                      (this h)
               /\ processedMessages (heap r) = processedMessages h
           | Thrown e => completion r = Thrown e /\ heap r = h
           end)
  /\ (forall senderId,
        let h' := heap (setNotificationTarget senderId h) in
        getNotificationTarget h' = mkRun [] h' (Normal (Some senderId))).
Proof.
  cbv zeta. split; [|split].
  - intros Hnone. unfold sendNotification, sendNotificationWithMedia.
    rewrite !bind_getThis.
    destruct Hnone as [-> | ->]; [done|].
    by destruct (truthy_opt (lastSenderId (this h))).
  - intros target Ht Htruthy Hms. unfold sendNotification. rewrite bind_getThis.
    rewrite Ht. cbn [truthy_opt String_of]. rewrite Htruthy, Hms. cbn [negb orb].
    pose proof (pure_run _ h (pure_sendLongText target text)) as Hrun.
    destruct (completion (sendLongText target text h)) as [[]|e] eqn:Hc.
    + rewrite (bind_normal _ _ _ _ _ _ Hrun).
      unfold modifyStatus, modifyThis. cbn [effects heap completion this].
      by rewrite app_nil_r.
    + by rewrite (bind_thrown _ _ _ _ _ _ Hrun).
  - intros senderId. unfold getNotificationTarget, setNotificationTarget, modifyThis.
    rewrite bind_getThis. cbn [heap this]. by destruct (this h).
Qed.

Lemma sendNotification_target_witness :
  let h := heap (setNotificationTarget (lit "a") (runningHeap false [])) in
  let r := sendNotification 42 (lit "ping") h in
  completion r = Normal tt
  /\ sendAttempts (effects r) = [TextMessage (lit "ping")]
  /\ lastOutboundAt (status (this (heap r))) = Some 42
  /\ sendNotification 42 (lit "ping") (runningHeap false [])
     = mkRun [] (runningHeap false [])
         (Thrown (Error (lit "No conversation available for notification"))).
Proof.
  cbv zeta.
  destruct (sendNotification_target (sampleParser [] []) (sampleEnv false None []) 42
              (lit "ping")
              (heap (setNotificationTarget (lit "a") (runningHeap false []))))
    as (_ & Hsend & _).
  destruct (Hsend (lit "a")) as [He Hc];
    [by vm_compute | by vm_compute | by vm_compute |].
  assert (Hs : completion (sendLongText (lit "a") (lit "ping")
                 (heap (setNotificationTarget (lit "a") (runningHeap false []))))
               = Normal tt) by (by vm_compute).
  rewrite Hs in Hc. destruct Hc as (Hc1 & Hc2 & _).
  split; [exact Hc1|]. split; [rewrite He; by vm_compute|].
  split; [rewrite Hc2; by vm_compute|].
  destruct (sendNotification_target (sampleParser [] []) (sampleEnv false None []) 42
              (lit "ping") (runningHeap false [])) as (Hnone & _).
  apply Hnone. left. by vm_compute.
Defined.

(** ** What holds between calls *)

Ltac coherence :=
  unfold consistent, coherent in *; simpl in *; intuition (try congruence).

Lemma stop_coherent (h : Heap) :
  coherent (this h) -> consistent (this (heap (stop h))).
Proof.
  intros Hc. destruct (v2Client (this h)) as [client|] eqn:Hcl.
  - rewrite (stop_live h client Hcl). open_heap h. coherence.
  - rewrite (stop_stopped h Hcl). open_heap h. subst. coherence.
Qed.

Lemma scheduleReconnect_consistent (delayMs : Z) (h : Heap) :
  consistent (this h) -> consistent (this (heap (scheduleReconnect delayMs h))).
Proof.
  intros Hc. open_heap h. unfold scheduleReconnect. step.
  destruct gTimer, gConfig, gStop; step; coherence.
Qed.

Lemma updateConfig_consistent partial (h : Heap) :
  consistent (this h) -> consistent (this (heap (updateConfig partial h))).
Proof.
  intros Hc. open_heap h. unfold updateConfig. step.
  destruct gConfig; step; coherence.
Qed.

Lemma reconnectIfNeeded_consistent (h : Heap) :
  consistent (this h) -> consistent (this (heap (reconnectIfNeeded h))).
Proof.
  intros Hc. unfold reconnectIfNeeded. rewrite bind_getThis.
  destruct (stopRequested (this h)); [done|].
  destruct (_ && _); [|done].
  rewrite bind_logM, heap_prepend. by apply scheduleReconnect_consistent.
Qed.

Lemma consistent_view (h h' : Heap) :
  lifecycleView h' = lifecycleView h ->
  consistent (this h) -> consistent (this h').
Proof.
  unfold lifecycleView. intros [= H1 H2 H3 H4 H5 H6 H7 H8 H9 H10 H11].
  unfold consistent, coherent.
  rewrite H1, H2, H3, H4, H5, H6, H7, H8, H9, H10, H11. done.
Qed.

Lemma preserves_status_field {X} (view : Heap -> X) f :
  (forall g pm, view (mkHeap (set_status (f (status g)) g) pm) = view (mkHeap g pm)) ->
  preserves view (modifyStatus f).
Proof. intros Hv [g pm]. apply Hv. Qed.

Lemma preserves_forEach {A X} (view : Heap -> X) (l : list A) body :
  (forall x, preserves view (body x)) -> preserves view (forEach l body).
Proof.
  intros Hb. induction l as [|x l IH]; [done|].
  apply preserves_bind; [apply Hb | intros _; apply IH].
Qed.

#[global] Hint Resolve pure_buildContent pure_sendReplyWithMedia pure_sendLongText
  pure_sendText pure_sendMedia : pure.

(** Like [preserving], for views that read one field of the status. *)
Ltac preserving_fields :=
  repeat first
    [ progress preserving
    | apply preserves_status_field;
      intros [? ? ? ? ? ? [] ? ? ? ? ? ? ? ? ? ? ? ?] ?; reflexivity
    | apply preserves_forEach; intros ? ].

Lemma replyFn_keepsLifecycle parser env clk to text :
  preserves lifecycleView (replyFn parser env clk to text).
Proof. unfold replyFn. preserving_fields. Qed.

Lemma handleIncomingMessage_keepsLifecycle parser env clk msg :
  preserves lifecycleView (handleIncomingMessage parser env clk msg).
Proof.
  unfold handleIncomingMessage, handleIncomingBody, isMessageProcessed,
    cleanupProcessedMessages, handleAccepted, deliver.
  preserving_fields; apply replyFn_keepsLifecycle.
Qed.

Lemma onReceiveMessages_keepsLifecycle parser env messages :
  preserves lifecycleView (onReceiveMessages parser env messages).
Proof.
  unfold onReceiveMessages.
  apply preserves_bind; [preserving | intros g].
  destruct (negb _); [preserving|].
  apply preserves_bind; [preserving | intros _].
  apply preserves_forEach. intros x. apply handleIncomingMessage_keepsLifecycle.
Qed.

Lemma sendNotification_keepsLifecycle now text :
  preserves lifecycleView (sendNotification now text).
Proof. unfold sendNotification. preserving_fields. Qed.

Lemma sendNotificationWithMedia_keepsLifecycle parser env now text :
  preserves lifecycleView (sendNotificationWithMedia parser env now text).
Proof. unfold sendNotificationWithMedia. preserving_fields. Qed.

Lemma onLoginStatus_consistent now st (h : Heap) :
  consistent (this h) -> consistent (this (heap (onLoginStatus now st h))).
Proof.
  intros Hc. open_heap h. unfold onLoginStatus, cleanupMediaFiles. step.
  destruct gClient; step; [|done].
  destruct (st =? 1); [|destruct (st =? 0); [|destruct (st =? 2)]]; step;
    try (destruct gInterval; step); coherence.
Qed.

Lemma onKickedOffline_consistent (h : Heap) :
  consistent (this h) -> consistent (this (heap (onKickedOffline h))).
Proof.
  intros Hc. open_heap h. unfold onKickedOffline. step.
  destruct gClient; step; [|done].
  apply scheduleReconnect_consistent. coherence.
Qed.

Lemma onLoginFailed_consistent error (h : Heap) :
  consistent (this h) -> consistent (this (heap (onLoginFailed error h))).
Proof.
  intros Hc. open_heap h. unfold onLoginFailed. step.
  destruct gClient; step; [|done].
  apply scheduleReconnect_consistent. coherence.
Qed.

Lemma onDisconnected_consistent (h : Heap) :
  consistent (this h) -> consistent (this (heap (onDisconnected h))).
Proof.
  intros Hc. open_heap h. unfold onDisconnected. step.
  destruct gClient; step; [|done].
  apply scheduleReconnect_consistent. coherence.
Qed.

(** The [try] block of [start], when it completes: the handle and both
    services are there. *)
Lemma startBody_normal env cfg override (h : Heap) :
  completion (startBody env cfg override h) = Normal tt ->
  isSome (v2Client (this (heap (startBody env cfg override h)))) = true
  /\ isSome (loginService (this (heap (startBody env cfg override h)))) = true
  /\ isSome (messageService (this (heap (startBody env cfg override h)))) = true.
Proof.
  open_heap h. unfold startBody.
  destruct (new_V2NIMClient env) as [client|e]; step; [|discriminate].
  destruct (truthy_opt override); step.
  - destruct (client_init client _ _) as [[err|]|e]; step; try discriminate.
    destruct (client_getLoginService client) as [ls|],
             (client_getMessageService client) as [ms|]; step; try discriminate.
    repeat match goal with
    | |- context [sdk _ ?r] => destruct r as [[]|?]; step; try discriminate
    end.
    done.
  - destruct (getSdkDataPath env (account cfg)) as [p|e]; step; [|discriminate].
    destruct (client_init client _ _) as [[err|]|e]; step; try discriminate.
    destruct (client_getLoginService client) as [ls|],
             (client_getMessageService client) as [ms|]; step; try discriminate.
    repeat match goal with
    | |- context [sdk _ ?r] => destruct r as [[]|?]; step; try discriminate
    end.
    done.
Qed.

Lemma startBody_keepsReconnect env cfg override :
  preserves
    (fun h => (reconnectAttempts (this h), stopRequested (this h),
               reconnectTimer (this h), config (this h)))
    (startBody env cfg override).
Proof. unfold startBody. preserving. Qed.

Lemma startCatch_consistent (e : JsError) (h : Heap) :
  reconnectAttempts (this h) = 0 ->
  stopRequested (this h) = false ->
  isSome (config (this h)) = true ->
  consistent (this (heap (startCatch e h))).
Proof.
  open_heap h. simpl. intros -> -> Hcfg. unfold startCatch, cleanup. step.
  destruct gInterval; step; coherence.
Qed.

Lemma start_consistent env cfg override (h : Heap) :
  consistent (this h) -> consistent (this (heap (start env cfg override h))).
Proof.
  intros Hc. open_heap h.
  assert (gAttempts = 0) as -> by coherence.
  unfold start, startInternal. step.
  destruct gClient as [client|]; step; [coherence|].
  destruct (enabled cfg); fields; [|step; coherence].
  destruct (negb (truthy (appKey cfg)) || negb (truthy (account cfg))
            || negb (truthy (token cfg))); step; [coherence|].
  match goal with
  | |- context [tryCatch ?m ?hd ?h1] => set (r0 := m h1) in *;
      assert (Htry : tryCatch m hd h1
                     = match completion r0 with
                       | Normal a => r0
                       | Thrown e => prepend (effects r0) (startCatch e (heap r0))
                       end)
        by (unfold tryCatch; fold r0; by destruct (completion r0));
      rewrite Htry; clear Htry;
      pose proof (startBody_keepsReconnect env cfg override h1) as Hkeep;
      pose proof (startBody_normal env cfg override h1) as Hn;
      fold r0 in Hkeep, Hn; simpl in Hkeep; clearbody r0
  end.
  injection Hkeep as Ha Hs Ht Hcfg.
  destruct (completion r0) as [[]|e] eqn:Hr0.
  - destruct (Hn eq_refl) as (K1 & K2 & K3).
    rewrite ?heap_prepend.
    unfold consistent, coherent. rewrite Ha, Hs, Ht, Hcfg.
    destruct (v2Client (this (heap r0))); [|done].
    repeat split; try done.
  - rewrite ?heap_prepend. apply startCatch_consistent; [done | done |].
    by rewrite Hcfg.
Qed.

Lemma atRestart_consistent (h : Heap) :
  coherent (this h) -> consistent (this (atRestart h)).
Proof.
  intros Hc. rewrite atRestart_eq. cbv zeta.
  match goal with |- context [stop ?h2] =>
    assert (Hs : consistent (this (heap (stop h2))))
      by (apply stop_coherent; open_heap h; coherence);
    revert Hs; generalize (heap (stop h2))
  end.
  intros hs Hs. open_heap hs. coherence.
Qed.

Lemma reconnectTimerFired_consistent env (t : Timer) (h : Heap) :
  consistent (this h) ->
  consistent (this (heap (reconnectTimerFired env t h))).
Proof.
  intros Hc.
  destruct (stopRequested (this h)) eqn:Hs.
  { open_heap h. simpl in Hs. subst. unfold reconnectTimerFired. step. coherence. }
  destruct (config (this h)) as [cfg|] eqn:Hcfg.
  - destruct (reconnectTimerFired_run env t h Hs) as (_ & _ & _ & _ & tr & _ & ->);
      [by rewrite Hcfg|].
    assert (Hr : consistent (this (heap (start env (timer_savedConfig t) None
                                           (atRestart h)))))
      by (apply start_consistent, atRestart_consistent, Hc).
    destruct (completion _); rewrite heap_prepend; [exact Hr|].
    by apply scheduleReconnect_consistent.
  - open_heap h. simpl in Hs, Hcfg. subst.
    unfold reconnectTimerFired. step.
    match goal with
    | |- context [tryCatch ?m ?hd ?h1] =>
        assert (Hbody : exists h2,
          coherent (this h2)
          /\ m h1 = prepend (effects (stop h2)) (ret tt (heap (stop h2))))
    end.
    { exists (mkHeap (mkGateway gClient gLogin gService gCreator gUtil None gStatus
                        gCallback gSender gLog None (gAttempts + 1) gInterval
                        gB1 gB2 gB3 gB4 gB5 false) pm).
      split; [coherence|]. step. rewrite bind_stop. step.
      by destruct (stop_nulls_client
                     (mkHeap (mkGateway gClient gLogin gService gCreator gUtil None
                                gStatus gCallback gSender gLog None (gAttempts + 1)
                                gInterval gB1 gB2 gB3 gB4 gB5 false) pm))
        as (_ & _ & _ & _ & -> & _). }
    destruct Hbody as (h2 & Hc2 & Hbody).
    rewrite (tryCatch_prepend _ _ _ _ _ Hbody). cbn [completion ret].
    rewrite heap_prepend. cbn [heap]. by apply stop_coherent.
Qed.

Lemma runCall_consistent (c : Call) (h : Heap) :
  consistent (this h) -> consistent (this (heap (runCall c h))).
Proof.
  intros Hc. destruct c; cbn [runCall].
  - by apply start_consistent.
  - apply stop_coherent, Hc.
  - by apply updateConfig_consistent.
  - by apply reconnectIfNeeded_consistent.
  - open_heap h. coherence.
  - open_heap h. coherence.
  - apply (consistent_view h); [apply sendNotification_keepsLifecycle | done].
  - apply (consistent_view h);
      [apply sendNotificationWithMedia_keepsLifecycle | done].
  - exact Hc.
  - apply (consistent_view h); [apply replyFn_keepsLifecycle | done].
  - apply (consistent_view h); [apply onReceiveMessages_keepsLifecycle | done].
  - by apply onLoginStatus_consistent.
  - by apply onKickedOffline_consistent.
  - by apply onLoginFailed_consistent.
  - by apply onDisconnected_consistent.
  - rewrite bind_getThis. destruct (reconnectTimer (this h)); [|exact Hc].
    by apply reconnectTimerFired_consistent.
Qed.

(** X15.  What holds between calls.  Start from a freshly constructed
    gateway and run any sequence of public methods, reply functions, SDK
    callbacks and timer callbacks, one at a time.  In the state reached:
    the attempt counter is 0; without a native handle there are no
    services, no message creator, no cleanup interval and the status is
    not connected; with a native handle both services are present; if a
    stop was requested there is neither a handle nor a pending reconnect
    timer; and a pending reconnect timer implies a stored config. *)
Theorem consistent_between_calls (calls : list Call) :
  let g := this (runCalls calls freshHeap) in
  consistent g
  /\ (connected (status g) = true ->
      isSome (v2Client g) = true /\ isSome (messageService g) = true).
Proof.
  cbv zeta.
  assert (H : forall h, consistent (this h) -> consistent (this (runCalls calls h))).
  { unfold runCalls. induction calls as [|c calls IH]; intros h Hc; [exact Hc|].
    cbn [fold_left]. by apply IH, runCall_consistent. }
  assert (Hfresh : consistent (this freshHeap)) by coherence.
  specialize (H _ Hfresh). split; [exact H|].
  destruct H as (_ & Hnone & Hsome & _). intros Hconn.
  destruct (v2Client (this (runCalls calls freshHeap))) as [client|].
  - split; [done|]. by apply Hsome.
  - destruct (Hnone eq_refl) as (_ & _ & _ & _ & _ & Hfalse). congruence.
Qed.

(** ** The delays of the reconnect timers *)

Lemma sendMarkers_sets_no_timer env to markers :
  forall i n, avoids isTimerEffect (sendMarkers env to markers i n).
Proof.
  induction markers as [|m ms IH]; intros i n; cbn [sendMarkers]; [avoiding|].
  apply avoids_bind; [|intros c; apply avoids_bind; [avoiding | intros _; apply IH]].
  unfold sendMedia, sendNimMediaMessage. avoiding.
Qed.

Lemma sendLongText_sets_no_timer to text :
  avoids isTimerEffect (sendLongText to text).
Proof. unfold sendLongText, sendText. avoiding. Qed.

Lemma sendReplyWithMedia_sets_no_timer parser env to text :
  avoids isTimerEffect (sendReplyWithMedia parser env to text).
Proof.
  unfold sendReplyWithMedia.
  destruct (_ =? _); [apply sendLongText_sets_no_timer|].
  apply avoids_bind; [avoiding | intros _].
  apply avoids_bind; [|intros _; apply sendMarkers_sets_no_timer].
  apply avoids_when, avoids_bind; [apply sendLongText_sets_no_timer | intros _].
  avoiding.
Qed.

Lemma replyFn_sets_no_timer parser env clk to text :
  avoids isTimerEffect (replyFn parser env clk to text).
Proof.
  unfold replyFn.
  apply avoids_bind; [avoiding | intros _].
  apply avoids_bind; [apply sendReplyWithMedia_sets_no_timer | intros _].
  avoiding.
Qed.

Lemma handleIncomingMessage_sets_no_timer parser env clk msg :
  avoids isTimerEffect (handleIncomingMessage parser env clk msg).
Proof.
  unfold handleIncomingMessage, handleIncomingBody, isMessageProcessed,
    cleanupProcessedMessages, handleAccepted, buildContent, deliver.
  avoiding; apply sendReplyWithMedia_sets_no_timer.
Qed.

Lemma start_sets_no_timer env cfg override :
  avoids isTimerEffect (start env cfg override).
Proof.
  unfold start, startInternal, startBody, startCatch, cleanup. avoiding.
Qed.

Lemma scheduleReconnect_delays (delayMs : Z) (h : Heap) :
  scheduledDelays (effects (scheduleReconnect delayMs h)) = []
  \/ scheduledDelays (effects (scheduleReconnect delayMs h)) = [delayMs].
Proof.
  open_heap h. unfold scheduleReconnect. step.
  destruct gTimer, gConfig, gStop; step; cbn; auto.
Qed.

Lemma scheduledDelays_none {A} (m : M A) (h : Heap) :
  avoids isTimerEffect m -> scheduledDelays (effects (m h)) = [].
Proof. intros Hm. apply timer_free_delays, Hm. Qed.

Lemma scheduleReconnect_baseDelay (delayMs : Z) (h : Heap) (tr : list Effect) :
  delayMs ∈ baseDelays ->
  scheduledDelays tr = [] ->
  scheduledDelays (tr ++ effects (scheduleReconnect delayMs h)) = []
  \/ exists d, scheduledDelays (tr ++ effects (scheduleReconnect delayMs h)) = [d]
               /\ d ∈ baseDelays.
Proof.
  intros Hd Htr. rewrite scheduledDelays_app, Htr.
  destruct (scheduleReconnect_delays delayMs h) as [-> | ->]; [by left|].
  right. by exists delayMs.
Qed.

Lemma baseDelays_elem (d : Z) :
  d = 0 \/ d = 2000 \/ d = 3000 \/ d = 5000 -> d ∈ baseDelays.
Proof.
  unfold baseDelays. rewrite !elem_of_cons.
  intros [-> | [-> | [-> | ->]]]; auto.
Qed.

(** One call on a consistent gateway sets at most one timer, with one of
    the base delays. *)
Lemma runCall_delays (c : Call) (h : Heap) :
  consistent (this h) ->
  scheduledDelays (effects (runCall c h)) = []
  \/ exists d, scheduledDelays (effects (runCall c h)) = [d] /\ d ∈ baseDelays.
Proof.
  intros Hc. destruct c; cbn [runCall].
  - left. apply scheduledDelays_none, start_sets_no_timer.
  - left. apply stop_sets_no_timer.
  - left. apply scheduledDelays_none. unfold updateConfig. avoiding.
  - unfold reconnectIfNeeded. rewrite bind_getThis.
    destruct (stopRequested (this h)); [by left|].
    destruct (_ && _); [|by left].
    rewrite bind_logM, effects_prepend.
    apply scheduleReconnect_baseDelay; [apply baseDelays_elem; auto | done].
  - by left.
  - by left.
  - left. apply scheduledDelays_none. unfold sendNotification.
    avoiding. apply sendLongText_sets_no_timer.
  - left. apply scheduledDelays_none. unfold sendNotificationWithMedia.
    avoiding. apply sendReplyWithMedia_sets_no_timer.
  - by left.
  - left. apply scheduledDelays_none, replyFn_sets_no_timer.
  - left. apply scheduledDelays_none. unfold onReceiveMessages.
    apply avoids_bind; [avoiding | intros g].
    destruct (negb _); [avoiding|].
    apply avoids_bind; [avoiding | intros _].
    apply avoids_forEach. intros x. apply handleIncomingMessage_sets_no_timer.
  - left. apply scheduledDelays_none.
    unfold onLoginStatus, cleanupMediaFiles. avoiding.
  - open_heap h. unfold onKickedOffline. step.
    destruct gClient; fields; step; [|by left].
    match goal with
    | |- context [?tr ++ effects (scheduleReconnect ?d ?h1)] =>
        apply (scheduleReconnect_baseDelay d h1 tr);
          [apply baseDelays_elem; auto | reflexivity]
    end.
  - open_heap h. assert (gAttempts = 0) as -> by coherence.
    unfold onLoginFailed. step.
    destruct gClient; fields; step; [|by left].
    match goal with
    | |- context [?tr ++ effects (scheduleReconnect ?d ?h1)] =>
        apply (scheduleReconnect_baseDelay d h1 tr);
          [apply baseDelays_elem; auto | reflexivity]
    end.
  - open_heap h. unfold onDisconnected. step.
    destruct gClient; fields; step; [|by left].
    match goal with
    | |- context [?tr ++ effects (scheduleReconnect ?d ?h1)] =>
        apply (scheduleReconnect_baseDelay d h1 tr);
          [apply baseDelays_elem; auto | reflexivity]
    end.
  - rewrite bind_getThis. destruct (reconnectTimer (this h)) as [t|]; [|by left].
    destruct (stopRequested (this h)) eqn:Hs.
    { left. open_heap h. simpl in Hs. subst. unfold reconnectTimerFired. by step. }
    destruct (config (this h)) as [cfg|] eqn:Hcfg.
    + destruct (reconnectTimerFired_run env t h Hs) as (_ & _ & _ & _ & tr & Htr & ->);
        [by rewrite Hcfg|].
      pose proof (scheduledDelays_none _ (atRestart h)
                    (start_sets_no_timer env (timer_savedConfig t) None)) as Hst.
      destruct (completion _); rewrite effects_prepend.
      * left. by rewrite scheduledDelays_app, (timer_free_delays _ Htr), Hst.
      * apply scheduleReconnect_baseDelay; [apply baseDelays_elem; auto|].
        by rewrite !scheduledDelays_app, (timer_free_delays _ Htr), Hst.
    + left. open_heap h. simpl in Hs, Hcfg. subst.
      unfold reconnectTimerFired. step.
      match goal with
      | |- context [tryCatch ?m ?hd ?h1] =>
          assert (Hbody : exists h2,
            m h1 = prepend (effects (stop h2)) (ret tt (heap (stop h2))))
      end.
      { exists (mkHeap (mkGateway gClient gLogin gService gCreator gUtil None gStatus
                          gCallback gSender gLog None (gAttempts + 1) gInterval
                          gB1 gB2 gB3 gB4 gB5 false) pm).
        step. rewrite bind_stop. step.
        by destruct (stop_nulls_client
                       (mkHeap (mkGateway gClient gLogin gService gCreator gUtil None
                                  gStatus gCallback gSender gLog None (gAttempts + 1)
                                  gInterval gB1 gB2 gB3 gB4 gB5 false) pm))
          as (_ & _ & _ & _ & -> & _). }
      destruct Hbody as (h2 & Hbody).
      rewrite (tryCatch_prepend _ _ _ _ _ Hbody). cbn [completion ret].
      rewrite effects_prepend. cbn [effects]. rewrite app_nil_r.
      apply stop_sets_no_timer.
Qed.

(** X16.  The reconnect backoff never grows.  In any state reached from
    a fresh gateway by a sequence of calls (run one at a time), a further
    call sets at most one reconnect timer, and its delay is 0, 2000, 3000
    or 5000 ms: the attempt counter is 0 between calls, so the doubling
    delays of the login-failure handler and of the timer callback are
    never used. *)
Theorem reconnect_delay_never_grows (calls : list Call) (c : Call) :
  let delays := scheduledDelays (effects (runCall c (runCalls calls freshHeap))) in
  delays = [] \/ exists d, delays = [d] /\ d ∈ baseDelays.
Proof.
  cbv zeta. apply runCall_delays.
  assert (H : forall h, consistent (this h) -> consistent (this (runCalls calls h))).
  { unfold runCalls. induction calls as [|c' calls IH]; intros h Hc; [exact Hc|].
    cbn [fold_left]. by apply IH, runCall_consistent. }
  apply H. coherence.
Qed.

(** ** Restarting *)

Lemma lifecycleCalls_app (a b : list Effect) :
  lifecycleCalls (a ++ b) = lifecycleCalls a ++ lifecycleCalls b.
Proof. apply omap_app. Qed.

Lemma lifecycleCalls_avoided (tr : list Effect) :
  existsb isLifecycleCall tr = false -> lifecycleCalls tr = [].
Proof.
  induction tr as [|e tr IH]; [done|]. cbn.
  destruct e as [[]|[]| | | | | | | | | |]; cbn; try done; exact IH.
Qed.

Lemma uninitClient_lifecycle (h : Heap) :
  isSome (v2Client (this h)) = true ->
  lifecycleCalls (effects (uninitClient h)) = [false].
Proof.
  open_heap h. simpl. destruct gClient as [client|]; [intros _|done].
  unfold uninitClient. rewrite tryCatch_logged. step.
  rewrite tryCatch_logged.
  destruct (client_uninit client) as [[err|]|e]; by step.
Qed.

Lemma start_succeeds_run env cfg override (h : Heap) :
  sdkInitSucceeds env cfg override ->
  enabled cfg = true -> truthy (appKey cfg) = true ->
  truthy (account cfg) = true -> truthy (token cfg) = true ->
  v2Client (this h) = None ->
  let r := start env cfg override h in
  completion r = Normal tt
  /\ running (this (heap r))
  /\ stopRequested (this (heap r)) = false
  /\ config (this (heap r)) = Some cfg
  /\ lifecycleCalls (effects r) = [true].
Proof.
  intros (client & ls & ms & Hnew & Hpath & Hinit & Hls & Hms & Hmon & Hlon & Hlogin)
    Hen Hk Ha Ht Hc.
  open_heap h. simpl in Hc. subst. cbv zeta.
  unfold start, startInternal. step. rewrite Hen, Hk, Ha, Ht. fields. step.
  assert (Hdata : exists dataPath,
    (if truthy_opt override then ret (String_of override)
     else native (getSdkDataPath env (account cfg)))
    = ret dataPath).
  { destruct (truthy_opt override); [eauto|].
    destruct Hpath as [?|[p Hp]]; [done|]. rewrite Hp. eauto. }
  destruct Hdata as [dataPath Hdata].
  match goal with
  | |- context [tryCatch ?m ?hd ?h1] =>
      assert (Hbody : exists tr g,
        m h1 = mkRun tr (mkHeap g pm) (Normal tt)
        /\ running g /\ stopRequested g = false /\ config g = Some cfg
        /\ lifecycleCalls tr = [true])
  end.
  { unfold startBody. rewrite Hnew. step. rewrite Hdata. step.
    rewrite Hinit. step. rewrite Hls, Hms. step.
    rewrite Hmon. step. rewrite !Hlon. step. rewrite Hlogin. step.
    unfold logM, prepend. step. cbn.
    eexists _, _. split; [reflexivity|]. by repeat split. }
  destruct Hbody as (tr & g & Hbody & Hrun & Hsr & Hcfg & Hlc).
  rewrite (tryCatch_normal _ _ _ _ _ _ Hbody). step.
  split; [done|]. split; [done|]. split; [done|]. split; [done|].
  cbn [effects]. by rewrite lifecycleCalls_app, Hlc.
Qed.

Lemma stop_lifecycle (h : Heap) :
  isSome (v2Client (this h)) = true ->
  lifecycleCalls (effects (stop h)) = [false].
Proof.
  intros Hc. destruct (v2Client (this h)) as [client|] eqn:Hcl; [|done].
  rewrite (stop_live h client Hcl). cbn [effects].
  assert (Hrm : avoids isLifecycleCall removeListeners)
    by (unfold removeListeners, offIfBound; avoiding).
  rewrite !lifecycleCalls_app, (lifecycleCalls_avoided _ (Hrm _)).
  rewrite uninitClient_lifecycle by (open_heap h; simpl in *; by subst).
  by destruct (reconnectTimer (this h)), (cleanupInterval (this h)).
Qed.

(** X17.  Off and on again.  With an SDK that initialises, a gateway
    that is started, stopped and started again ends up running, with the
    stop request cleared: the second [start] does not find the gateway
    "already running".  The native calls are one [init], one [uninit],
    one [init], in this order. *)
Theorem start_stop_start env cfg override (h : Heap) :
  sdkInitSucceeds env cfg override ->
  enabled cfg = true -> truthy (appKey cfg) = true ->
  truthy (account cfg) = true -> truthy (token cfg) = true ->
  v2Client (this h) = None ->
  let r := (start env cfg override >> stop >> start env cfg override) h in
  completion r = Normal tt
  /\ running (this (heap r))
  /\ stopRequested (this (heap r)) = false
  /\ config (this (heap r)) = Some cfg
  /\ lifecycleCalls (effects r) = [true; false; true].
Proof.
  intros Hsdk Hen Hk Ha Ht Hc. cbv zeta.
  destruct (start_succeeds_run env cfg override h Hsdk Hen Hk Ha Ht Hc)
    as (S1 & S2 & _ & _ & S4).
  rewrite (bind_normal _ _ h (effects (start env cfg override h))
             (heap (start env cfg override h)) tt)
    by (rewrite <- S1; symmetry; apply run_eta).
  set (h1 := heap (start env cfg override h)) in *.
  rewrite bind_stop.
  destruct (stop_nulls_client h1) as (T1 & _).
  destruct (start_succeeds_run env cfg override (heap (stop h1)) Hsdk Hen Hk Ha Ht T1)
    as (U1 & U2 & U3 & U4 & U5).
  cbn [effects heap completion]. rewrite heap_prepend, completion_prepend.
  split; [exact U1|]. split; [exact U2|]. split; [exact U3|]. split; [exact U4|].
  rewrite effects_prepend, !lifecycleCalls_app, S4, U5.
  rewrite stop_lifecycle; [done|]. by destruct S2 as [-> _].
Qed.

Lemma start_stop_start_witness :
  let env := sampleEnv false None [] in
  let r := (start env sampleConfig None >> stop >> start env sampleConfig None)
             freshHeap in
  completion r = Normal tt
  /\ stopRequested (this (heap r)) = false
  /\ lifecycleCalls (effects r) = [true; false; true].
Proof.
  cbv zeta.
  destruct (start_stop_start (sampleEnv false None []) sampleConfig None freshHeap)
    as (H1 & _ & H3 & _ & H5);
    [ | reflexivity | reflexivity | reflexivity | reflexivity | reflexivity | ].
  - exists (sampleClient false None []), (sampleLoginService false),
      (sampleMessageService []).
    repeat split; try reflexivity. right. eexists. reflexivity.
  - split; [exact H1|]. split; [exact H3 | exact H5].
Defined.

(** ** Reconnecting after a hot config update *)

(** From a state without a native handle, [start] stores the config it
    is given, however it completes. *)
Lemma start_stores_config env cfg override (h : Heap) :
  v2Client (this h) = None ->
  config (this (heap (start env cfg override h))) = Some cfg.
Proof.
  intros Hc. open_heap h. simpl in Hc. subst.
  unfold start, startInternal. step.
  destruct (enabled cfg); fields; [|by step].
  destruct (negb (truthy (appKey cfg)) || negb (truthy (account cfg))
            || negb (truthy (token cfg))); step; [done|].
  match goal with
  | |- context [tryCatch ?m ?hd ?h1] => set (r0 := m h1) in *;
      assert (Htry : tryCatch m hd h1
                     = match completion r0 with
                       | Normal a => r0
                       | Thrown e => prepend (effects r0) (startCatch e (heap r0))
                       end)
        by (unfold tryCatch; fold r0; by destruct (completion r0));
      rewrite Htry; clear Htry;
      pose proof (startBody_keepsConfig env cfg override h1) as Hkeep;
      fold r0 in Hkeep; simpl in Hkeep; clearbody r0
  end.
  destruct (completion r0) as [[]|e]; [exact Hkeep|].
  rewrite heap_prepend.
  destruct (startCatch_run e (heap r0)) as (_ & _ & _ & _ & _ & _ & -> & _).
  exact Hkeep.
Qed.

Lemma scheduleReconnect_keepsConfig (delayMs : Z) :
  preserves (fun h => config (this h)) (scheduleReconnect delayMs).
Proof. unfold scheduleReconnect, when. preserving. Qed.

(** X18.  A reconnect restarts the gateway with the config that was
    current when the reconnect was scheduled.  When the timer [t] fires on
    a gateway that was not asked to stop, the stored config afterwards is
    the one [t] captured, whether the restart succeeded or not; a hot
    update made with [updateConfig] while the timer was pending is
    thereby discarded. *)
Theorem reconnect_discards_hot_update env (t : Timer) partial (h : Heap) :
  stopRequested (this h) = false ->
  config (this h) <> None ->
  let h' := heap (updateConfig partial h) in
  (forall c, config (this h) = Some c ->
             config (this h') = Some (mergeConfig c partial))
  /\ config (this (heap (reconnectTimerFired env t h')))
     = Some (timer_savedConfig t).
Proof.
  intros Hs Hcfg. cbv zeta.
  assert (Hup : stopRequested (this (heap (updateConfig partial h))) = false
                /\ forall c, config (this h) = Some c ->
                             config (this (heap (updateConfig partial h)))
                             = Some (mergeConfig c partial)).
  { open_heap h. simpl in *. subst. unfold updateConfig. step.
    destruct gConfig as [c|]; [|done]. step. split; [done|]. by intros ? [= ->]. }
  destruct Hup as [Hs' Hc']. split; [exact Hc'|].
  assert (Hcfg' : config (this (heap (updateConfig partial h))) <> None).
  { destruct (config (this h)) as [c|] eqn:E; [|done]. by rewrite (Hc' c). }
  destruct (reconnectTimerFired_run env t _ Hs' Hcfg')
    as (Hnone & _ & _ & _ & tr & _ & ->).
  pose proof (start_stores_config env (timer_savedConfig t) None _ Hnone) as Hst.
  destruct (completion _); rewrite heap_prepend; [exact Hst|].
  by rewrite scheduleReconnect_keepsConfig.
Qed.

Lemma reconnect_discards_hot_update_witness :
  let env := sampleEnv false None [] in
  let t := {| timer_delayMs := 3000; timer_savedConfig := sampleConfig |} in
  let partial := [P_accountWhitelist None] in
  let h' := heap (updateConfig partial failedStartHeap) in
  config (this h') = Some (mergeConfig sampleConfig partial)
  /\ config (this (heap (reconnectTimerFired env t h'))) = Some sampleConfig
  /\ mergeConfig sampleConfig partial <> sampleConfig.
Proof.
  cbv zeta.
  destruct (reconnect_discards_hot_update (sampleEnv false None [])
              {| timer_delayMs := 3000; timer_savedConfig := sampleConfig |}
              [P_accountWhitelist None]
              failedStartHeap) as [H1 H2].
  - by vm_compute.
  - by vm_compute.
  - split; [apply H1; by vm_compute|]. split; [exact H2|]. by vm_compute.
Defined.

(** ** When the application callback rejects *)

(** X19.  When the application callback rejects a delivered message with
    error [e], the handler logs the error and replies to the sender with
    the apology followed by the message of [e], through the same reply
    function the callback was given.  If that reply raises as well, this
    is logged and the handler still completes normally. *)
Theorem callback_rejection_is_answered parser env clk msg (h : Heap) callback e :
  passesSenderFilters (config (this h)) msg = true ->
  isFresh clk h msg = true ->
  passesContentFilters msg = true ->
  onMessageCallback (this h) = Some callback ->
  (forall im, cb_outcome callback im = Some e) ->
  let r := handleIncomingMessage parser env clk msg h in
  let reply :=
    replyFn parser env clk (senderIdOf msg) (apologyPrefix ++ message e)
      (atDelivery clk msg h) in
  completion r = Normal tt
  /\ heap r = heap reply
  /\ exists im,
       effects r
       = [LogCall (log (this h)) "[NIM Gateway] message received" (messageIdOf msg);
          Emit (Ev_message im); InvokeCallback im;
          Console "[NIM Gateway] Error in message callback:" (message e)]
         ++ effects reply
         ++ match completion reply with
            | Thrown e' =>
                [Console "[NIM Gateway] Error handling incoming message:" (message e')]
            | Normal _ => []
            end.
Proof.
  unfold passesSenderFilters, isFresh, passesContentFilters.
  intros Hsend Hfresh Hcont Hcb Hrej. cbv zeta.
  apply andb_true_iff in Hsend as [Hself Hw].
  apply negb_true_iff in Hself, Hw, Hfresh.
  apply andb_true_iff in Hcont as [Hcont Htext].
  apply andb_true_iff in Hcont as [Hty Hconv].
  unfold handleIncomingMessage.
  rewrite tryCatch_logged, handleIncomingBody_run, Hself, Hw. cbv zeta.
  rewrite Hfresh. cbn [completion heap effects].
  set (h1 := mkHeap (this h) _).
  destruct (buildContent_some env msg h1 Hty Htext) as (content & atts & Hb).
  assert (Hrun : handleAccepted parser env clk msg h1
    = prepend
        [LogCall (log (this h)) "[NIM Gateway] message received" (messageIdOf msg);
         Emit (Ev_message (normalize clk msg content atts));
         InvokeCallback (normalize clk msg content atts);
         Console "[NIM Gateway] Error in message callback:" (message e)]
        (replyFn parser env clk (senderIdOf msg) (apologyPrefix ++ message e)
           (atDelivery clk msg h))).
  { unfold handleAccepted. rewrite Hty, Hconv. cbn [negb].
    rewrite (bind_normal _ _ _ _ _ _ Hb). cbn [effects heap completion app].
    unfold deliver, h1, atDelivery. open_heap h. simpl in Hcb. subst gCallback.
    step. unfold tryCatch. step. rewrite Hrej. step.
    unfold prepend. cbn [effects heap completion app]. reflexivity. }
  rewrite Hrun. rewrite completion_prepend, heap_prepend, effects_prepend.
  split; [done|]. split; [done|].
  exists (normalize clk msg content atts). by rewrite <- app_assoc.
Qed.

Lemma callback_rejection_is_answered_witness :
  let r := handleIncomingMessage (sampleParser [] []) (sampleEnv false None [])
             (sampleClock 1000) sampleMessage rejectingHeap in
  completion r = Normal tt
  /\ sendAttempts (effects r) = [TextMessage (apologyPrefix ++ lit "boom")].
Proof.
  cbv zeta.
  destruct (callback_rejection_is_answered (sampleParser [] [])
              (sampleEnv false None []) (sampleClock 1000) sampleMessage
              rejectingHeap rejectingCallback (Error (lit "boom")))
    as (H1 & _ & im & H3).
  - by vm_compute.
  - unfold isFresh. rewrite evictExpired_lookup.
    assert (Hpm : processedMessages rejectingHeap = ∅) by (by vm_compute).
    by rewrite Hpm, lookup_empty.
  - by vm_compute.
  - by vm_compute.
  - reflexivity.
  - split; [exact H1|]. rewrite H3. clear H1 H3.
    rewrite !sendAttempts_app. cbn [sendAttempts app].
    unfold atDelivery.
    generalize (<[messageIdOf sampleMessage := now_seen (sampleClock 1000)]>
                  (evictExpired (now_cleanup (sampleClock 1000))
                     (processedMessages rejectingHeap))).
    intros pm0. by vm_compute.
Defined.

(** ** Media events *)

Lemma emittedMessages_app (a b : list Effect) :
  emittedMessages (a ++ b) = emittedMessages a ++ emittedMessages b.
Proof. apply omap_app. Qed.

Lemma emittedMessages_avoided (tr : list Effect) :
  existsb isInbound tr = false -> emittedMessages tr = [].
Proof.
  induction tr as [|e tr IH]; [done|]. cbn.
  destruct e as [| |[]| | | | | | | | |]; cbn; try done; exact IH.
Qed.

Lemma deliver_emits parser env clk msg im (h : Heap) :
  emittedMessages (effects (deliver parser env clk msg im h)) = [im].
Proof.
  open_heap h. unfold deliver. step.
  destruct gCallback as [callback|]; fields; [|done].
  unfold tryCatch.
  destruct (cb_outcome callback im) as [e|];
    cbn [bind effect throw ret effects heap completion app prepend]; [|done].
  match goal with
  | |- context [effects (replyFn ?p ?e ?c ?t ?x ?hh)] =>
      pose proof (emittedMessages_avoided _ (replyFn_no_inbound p e c t x hh)) as Hr;
      revert Hr; generalize (effects (replyFn p e c t x hh)); intros tr Hr
  end.
  change (im :: emittedMessages tr = [im]). by rewrite Hr.
Qed.

(** X20.  A failed download does not lose the event.  A media event
    (picture, voice, video or file) whose attachment has a URL, and which
    passes the filters, is delivered as one message whose content is the
    placeholder of its type followed by a space and the URL.  The message
    carries the downloaded attachment when the download succeeded and no
    attachment list when it failed. *)
Theorem media_event_is_delivered parser env clk msg (h : Heap) a url :
  passesSenderFilters (config (this h)) msg = true ->
  isFresh clk h msg = true ->
  passesContentFilters msg = true ->
  isMediaType (convertMessageType (v2_messageType msg)) = true ->
  v2_attachment msg = Some a ->
  v2a_url a = Some url ->
  truthy url = true ->
  let msgType := convertMessageType (v2_messageType msg) in
  let r := handleIncomingMessage parser env clk msg h in
  exists im,
    emittedMessages (effects r) = [im]
    /\ im_content im = inferMediaPlaceholder msgType ++ lit " " ++ url
    /\ im_senderId im = senderIdOf msg
    /\ im_messageId im = messageIdOf msg
    /\ im_attachments im
       = match downloadNimMedia env url a msgType with
         | Some downloaded => Some [downloaded]
         | None => None
         end.
Proof.
  unfold passesSenderFilters, isFresh, passesContentFilters.
  intros Hsend Hfresh Hcont Hmedia Hatt Hurl Htruthy. cbv zeta.
  apply andb_true_iff in Hsend as [Hself Hw].
  apply negb_true_iff in Hself, Hw, Hfresh.
  apply andb_true_iff in Hcont as [Hcont _].
  apply andb_true_iff in Hcont as [Hty Hconv].
  unfold handleIncomingMessage.
  rewrite tryCatch_logged, handleIncomingBody_run, Hself, Hw. cbv zeta.
  rewrite Hfresh. cbn [completion heap effects].
  set (h1 := mkHeap (this h) _).
  set (msgType := convertMessageType (v2_messageType msg)) in *.
  set (atts := match downloadNimMedia env url a msgType with
               | Some downloaded => [downloaded]
               | None => []
               end).
  assert (Hb : buildContent env msg msgType h1
               = mkRun [] h1
                   (Normal (Some (inferMediaPlaceholder msgType ++ lit " " ++ url,
                                  atts)))).
  { unfold buildContent, atts. rewrite Hmedia, Hatt, Hurl.
    cbn [truthy_opt String_of]. rewrite Htruthy.
    destruct msgType; try discriminate Hmedia;
      by destruct (downloadNimMedia env url a _). }
  exists (normalize clk msg (inferMediaPlaceholder msgType ++ lit " " ++ url) atts).
  split.
  - rewrite emittedMessages_app.
    assert (Hrun : handleAccepted parser env clk msg h1
                   = deliver parser env clk msg
                       (normalize clk msg
                          (inferMediaPlaceholder msgType ++ lit " " ++ url) atts) h1).
    { unfold handleAccepted. fold msgType. rewrite Hty, Hconv. cbn [negb].
      rewrite (bind_normal _ _ _ _ _ _ Hb). cbn [effects heap completion app].
      apply run_eta. }
    rewrite Hrun, deliver_emits. by destruct (completion _).
  - repeat split. unfold normalize, atts. cbn [im_attachments].
    by destruct (downloadNimMedia env url a msgType).
Qed.

Lemma media_event_is_delivered_witness :
  let r := handleIncomingMessage (sampleParser [] []) (sampleEnv false None [])
             (sampleClock 1000) samplePicture listeningHeap in
  exists im,
    emittedMessages (effects r) = [im]
    /\ im_content im
       = inferMediaPlaceholder image_t ++ lit " " ++ lit "https://nos/x.png"
    /\ im_attachments im = None.
Proof.
  cbv zeta.
  destruct (media_event_is_delivered (sampleParser [] []) (sampleEnv false None [])
              (sampleClock 1000) samplePicture listeningHeap
              {| v2a_url := Some (lit "https://nos/x.png"); v2a_name := None;
                 v2a_size := None; v2a_width := None; v2a_height := None;
                 v2a_duration := None |} (lit "https://nos/x.png"))
    as (im & H1 & H2 & _ & _ & H5);
    [ by vm_compute | | by vm_compute | reflexivity | reflexivity | reflexivity
    | reflexivity | ].
  - unfold isFresh. rewrite evictExpired_lookup.
    assert (Hpm : processedMessages listeningHeap = ∅) by (by vm_compute).
    by rewrite Hpm, lookup_empty.
  - exists im. split; [exact H1|]. split; [exact H2 | exact H5].
Defined.

(** ** Media types *)

(** X21.  The two extension tables of [nimMedia.ts] agree.  Whatever the
    path, when [inferMediaType] says image, audio or video, the MIME type
    [inferMimeType] gives begins with that word and a slash; when it says
    file, the MIME type is none of the three. *)
Theorem media_type_tables_agree env (filePath : list N) :
  let mime := inferMimeType env filePath in
  match inferMediaType env filePath with
  | kind_file =>
      startsWith mime (lit "image/") = false
      /\ startsWith mime (lit "audio/") = false
      /\ startsWith mime (lit "video/") = false
  | kind => startsWith mime (kindName kind ++ lit "/") = true
  end.
Proof.
  cbv zeta. unfold inferMimeType, inferMediaType, includes.
  generalize (toLowerCase env (path_extname env filePath)). intros ext.
  cbv zeta.
  repeat case_bool_decide;
    repeat match goal with
    | H : _ ∈ _ |- _ =>
        cbn [List.map] in H;
        repeat (apply elem_of_cons in H as [->|H]; [by vm_compute|]);
        by apply elem_of_nil in H
    end.
  cbn [List.map] in *.
  repeat match goal with
  | H : _ ∉ _ :: _ |- _ => apply not_elem_of_cons in H as [? H]
  end.
  unfold mimeMap. cbn [mimeLookup].
  repeat (case_bool_decide; [first [congruence | by vm_compute]|]).
  by vm_compute.
Qed.

(** ** No reconnect timer is lost *)

Lemma timerBalance_app (a b : list Effect) :
  timerBalance (a ++ b) = timerBalance a + timerBalance b.
Proof.
  induction a as [|e a IH]; [done|]. cbn [app timerBalance].
  destruct e; rewrite ?IH; lia.
Qed.

Lemma timer_free_balance (tr : list Effect) :
  existsb isTimerEffect tr = false -> timerBalance tr = 0.
Proof.
  induction tr as [|e tr IH]; [done|]. cbn.
  destruct e; cbn; try done; exact IH.
Qed.

Lemma timerBalance_none {A} (m : M A) (h : Heap) :
  avoids isTimerEffect m -> timerBalance (effects (m h)) = 0.
Proof. intros Hm. apply timer_free_balance, Hm. Qed.

Lemma stop_timerBalance (h : Heap) :
  timerBalance (effects (stop h)) = - heldTimers h
  /\ heldTimers (heap (stop h)) = 0.
Proof.
  assert (Hrm : avoids isTimerEffect removeListeners)
    by (unfold removeListeners, offIfBound; avoiding).
  assert (Hun : avoids isTimerEffect uninitClient)
    by (unfold uninitClient; avoiding).
  unfold heldTimers.
  destruct (v2Client (this h)) as [client|] eqn:Hc.
  - rewrite (stop_live h client Hc). cbn [effects heap this].
    rewrite !timerBalance_app.
    rewrite (timer_free_balance _ (Hrm _)), (timer_free_balance _ (Hun _)).
    by destruct (reconnectTimer (this h)), (cleanupInterval (this h)).
  - rewrite (stop_stopped h Hc). cbn [effects heap this].
    open_heap h. by destruct gTimer.
Qed.

Lemma scheduleReconnect_timerBalance (delayMs : Z) (h : Heap) :
  heldTimers (heap (scheduleReconnect delayMs h))
  = heldTimers h + timerBalance (effects (scheduleReconnect delayMs h)).
Proof.
  open_heap h. unfold scheduleReconnect, heldTimers. step.
  destruct gTimer, gConfig, gStop; by step.
Qed.

Lemma keeps_timer {A} (m : M A) (h : Heap) :
  preserves (fun h => reconnectTimer (this h)) m -> avoids isTimerEffect m ->
  heldTimers (heap (m h)) = heldTimers h + timerBalance (effects (m h)).
Proof.
  intros Hp Ha. rewrite (timerBalance_none _ _ Ha). unfold heldTimers.
  rewrite (Hp h). lia.
Qed.

Lemma lifecycle_timer {A} (m : M A) :
  preserves lifecycleView m -> preserves (fun h => reconnectTimer (this h)) m.
Proof.
  intros Hp h. specialize (Hp h). unfold lifecycleView in Hp.
  by injection Hp as _ _ _ _ _ _ _ _ _ -> _.
Qed.

Lemma start_keepsTimer env cfg override (h : Heap) :
  heldTimers (heap (start env cfg override h))
  = heldTimers h + timerBalance (effects (start env cfg override h)).
Proof.
  rewrite (timerBalance_none _ _ (start_sets_no_timer env cfg override)).
  unfold heldTimers, start. rewrite bind_modifyThis.
  pose proof (startInternal_keepsReconnect env cfg override
                (mkHeap (set_stopRequested false (this h)) (processedMessages h)))
    as Hk.
  apply (f_equal snd) in Hk. cbn [snd] in Hk. rewrite Hk.
  open_heap h. cbn. lia.
Qed.

Lemma then_scheduleReconnect (delayMs : Z) (tr : list Effect) (h h1 : Heap) :
  existsb isTimerEffect tr = false ->
  heldTimers h1 = heldTimers h ->
  heldTimers (heap (scheduleReconnect delayMs h1))
  = heldTimers h + timerBalance (tr ++ effects (scheduleReconnect delayMs h1)).
Proof.
  intros Htr Hh. rewrite timerBalance_app, (timer_free_balance _ Htr).
  rewrite scheduleReconnect_timerBalance, Hh. lia.
Qed.

(** One call: the handle the gateway holds afterwards accounts for the
    timers the call set and cancelled, and for the one that fired. *)
Lemma runCall_timerBalance (c : Call) (h : Heap) :
  heldTimers (heap (runCall c h))
  = heldTimers h + timerBalance (effects (runCall c h))
    - match c with TimerFires _ => heldTimers h | _ => 0 end.
Proof.
  destruct c; cbn [runCall]; rewrite ?Z.sub_0_r.
  - apply start_keepsTimer.
  - destruct (stop_timerBalance h) as [-> ->]. lia.
  - apply keeps_timer; unfold updateConfig; [preserving | avoiding].
  - unfold reconnectIfNeeded. rewrite bind_getThis.
    destruct (stopRequested (this h)); [cbn; lia|].
    destruct (_ && _); [|cbn; lia].
    rewrite bind_logM, heap_prepend, effects_prepend.
    by apply then_scheduleReconnect.
  - apply keeps_timer; unfold setMessageCallback; [preserving | avoiding].
  - apply keeps_timer; unfold setNotificationTarget; [preserving | avoiding].
  - apply keeps_timer; [apply lifecycle_timer, sendNotification_keepsLifecycle|].
    unfold sendNotification. avoiding. apply sendLongText_sets_no_timer.
  - apply keeps_timer; [apply lifecycle_timer, sendNotificationWithMedia_keepsLifecycle|].
    unfold sendNotificationWithMedia. avoiding.
    apply sendReplyWithMedia_sets_no_timer.
  - cbn. unfold heldTimers. lia.
  - apply keeps_timer;
      [apply lifecycle_timer, replyFn_keepsLifecycle | apply replyFn_sets_no_timer].
  - apply keeps_timer; [apply lifecycle_timer, onReceiveMessages_keepsLifecycle|].
    unfold onReceiveMessages.
    apply avoids_bind; [avoiding | intros g].
    destruct (negb _); [avoiding|].
    apply avoids_bind; [avoiding | intros _].
    apply avoids_forEach. intros x. apply handleIncomingMessage_sets_no_timer.
  - apply keeps_timer; unfold onLoginStatus, cleanupMediaFiles, when;
      [preserving | avoiding].
  - open_heap h. unfold onKickedOffline. step.
    destruct gClient; fields; step; [|cbn; lia].
    by apply then_scheduleReconnect.
  - open_heap h. unfold onLoginFailed. step.
    destruct gClient; fields; step; [|cbn; lia].
    by apply then_scheduleReconnect.
  - open_heap h. unfold onDisconnected. step.
    destruct gClient; fields; step; [|cbn; lia].
    by apply then_scheduleReconnect.
  - rewrite bind_getThis. unfold heldTimers at 2 3.
    destruct (reconnectTimer (this h)) as [t|] eqn:Ht;
      [|unfold heldTimers; cbn; rewrite Ht; cbn; lia].
    cbn [isSome].
    destruct (stopRequested (this h)) eqn:Hs.
    { open_heap h. simpl in Hs. subst. unfold reconnectTimerFired. by step. }
    destruct (config (this h)) as [cfg|] eqn:Hcfg.
    + destruct (reconnectTimerFired_run env t h Hs)
        as (_ & _ & _ & Ktm & tr & Htr & ->); [by rewrite Hcfg|].
      pose proof (timerBalance_none _ (atRestart h)
                    (start_sets_no_timer env (timer_savedConfig t) None)) as Hst.
      destruct (completion _); rewrite heap_prepend, effects_prepend.
      * rewrite timerBalance_app, (timer_free_balance _ Htr), Hst.
        unfold heldTimers. rewrite Ktm. cbn. lia.
      * rewrite scheduleReconnect_timerBalance, !timerBalance_app,
          (timer_free_balance _ Htr), Hst.
        unfold heldTimers at 1. rewrite Ktm. cbn. lia.
    + open_heap h. simpl in Hs, Hcfg, Ht. subst.
      unfold reconnectTimerFired. step.
      match goal with
      | |- context [tryCatch ?m ?hd ?h1] =>
          assert (Hbody : exists h2,
            reconnectTimer (this h2) = None
            /\ m h1 = prepend (effects (stop h2)) (ret tt (heap (stop h2))))
      end.
      { exists (mkHeap (mkGateway gClient gLogin gService gCreator gUtil None gStatus
                          gCallback gSender gLog None (gAttempts + 1) gInterval
                          gB1 gB2 gB3 gB4 gB5 false) pm).
        split; [done|]. step. rewrite bind_stop. step.
        by destruct (stop_nulls_client
                       (mkHeap (mkGateway gClient gLogin gService gCreator gUtil None
                                  gStatus gCallback gSender gLog None (gAttempts + 1)
                                  gInterval gB1 gB2 gB3 gB4 gB5 false) pm))
          as (_ & _ & _ & _ & -> & _). }
      destruct Hbody as (h2 & Ht2 & Hbody).
      rewrite (tryCatch_prepend _ _ _ _ _ Hbody). cbn [completion ret].
      rewrite heap_prepend, effects_prepend. cbn [effects heap].
      rewrite app_nil_r.
      destruct (stop_timerBalance h2) as [Hb Hh]. rewrite Hb.
      change (heldTimers (heap (stop h2)) = 1 + - heldTimers h2 - 1).
      rewrite Hh. unfold heldTimers. rewrite Ht2. cbn. lia.
Qed.

(** X22.  No reconnect timer is lost.  After any sequence of calls on a
    fresh gateway, the timers still outstanding (set, and neither
    cancelled nor fired) are exactly the one whose handle the gateway
    holds, if it holds one: there is never more than one, and never one
    the gateway cannot cancel. *)
Theorem reconnect_timers_are_accounted_for (calls : list Call) :
  outstandingTimers calls freshHeap 0 = heldTimers (runCalls calls freshHeap)
  /\ 0 <= outstandingTimers calls freshHeap 0 <= 1.
Proof.
  assert (H : forall h pending,
    pending = heldTimers h ->
    outstandingTimers calls h pending = heldTimers (runCalls calls h)).
  { unfold runCalls. induction calls as [|c calls IH]; intros h pending ->; [done|].
    cbn [outstandingTimers fold_left]. apply IH.
    by rewrite (runCall_timerBalance c h). }
  rewrite (H freshHeap 0) by done.
  split; [done|]. unfold heldTimers. destruct (isSome _); lia.
Qed.

(** ** Hot updates and the inbound filters *)

(** X23.  A hot update of the allow-list applies to the next inbound
    event, without a restart: after [updateConfig], the handler filters
    with the merged config.  A sender the new allow-list rejects is
    dropped without touching the state; an event with a fresh id that
    passes the filters under the merged config is delivered. *)
Theorem hot_update_applies_to_next_event parser env clk msg partial c (h : Heap) :
  config (this h) = Some c ->
  let h' := heap (updateConfig partial h) in
  let r := handleIncomingMessage parser env clk msg h' in
  (rejectedByWhitelist (Some (mergeConfig c partial)) (senderIdOf msg) = true ->
   delivered (effects r) = 0%nat
   /\ callbackInvocations (effects r) = 0%nat
   /\ heap r = h')
  /\ (passesOtherFilters (Some (mergeConfig c partial)) msg = true ->
      isFresh clk h msg = true ->
      delivered (effects r) = 1%nat).
Proof.
  intros Hcfg. cbv zeta.
  assert (Hup : config (this (heap (updateConfig partial h)))
                = Some (mergeConfig c partial)
                /\ processedMessages (heap (updateConfig partial h))
                   = processedMessages h).
  { open_heap h. simpl in Hcfg. subst. unfold updateConfig. by step. }
  destruct Hup as [Hc Hpm]. split.
  - intros Hrej. apply handleIncomingMessage_dropped.
    rewrite Hc, Hrej. apply orb_true_r.
  - intros Hpass Hfresh. unfold isFresh in Hfresh. apply negb_true_iff in Hfresh.
    apply handleIncomingMessage_fresh; [by rewrite Hc | by rewrite Hpm].
Qed.

Lemma hot_update_applies_to_next_event_witness :
  let partial := [P_accountWhitelist (Some (lit "b"))] in
  let parser := sampleParser [] [] in
  let env := sampleEnv false None [] in
  passesOtherFilters (config (this listeningHeap)) sampleMessage = true
  /\ delivered
       (effects (handleIncomingMessage parser env (sampleClock 1000) sampleMessage
                   (heap (updateConfig partial listeningHeap)))) = 0%nat.
Proof.
  cbv zeta. split; [by vm_compute|].
  destruct (hot_update_applies_to_next_event (sampleParser [] [])
              (sampleEnv false None []) (sampleClock 1000) sampleMessage
              [P_accountWhitelist (Some (lit "b"))]
              sampleConfig listeningHeap) as [Hrej _].
  - by vm_compute.
  - destruct Hrej as [Hd _]; [by vm_compute | exact Hd].
Defined.

(** ** The dedup map *)

(** X24.  One dedup check, as a map operation.  It first drops every
    entry older than the TTL; it answers "already processed" exactly when
    the id has an entry that is not older than the TTL; otherwise it
    records the id with the current time.  Afterwards the id is always in
    the map, no entry older than the TTL (at the time of the eviction) is
    left except possibly the one just recorded, and every other entry
    that is not that old is kept as it was. *)
Theorem isMessageProcessed_spec (nowCleanup nowSeen : Z) (id : list N) (h : Heap) :
  let r := isMessageProcessed nowCleanup nowSeen id h in
  let pm := processedMessages h in
  let pm' := processedMessages (heap r) in
  exists duplicate,
    completion r = Normal duplicate
    /\ effects r = []
    /\ this (heap r) = this h
    /\ (duplicate = true <->
        exists t, pm !! id = Some t /\ nowCleanup - t <= MESSAGE_DEDUP_TTL)
    /\ (duplicate = true -> pm' !! id = pm !! id)
    /\ (duplicate = false -> pm' !! id = Some nowSeen)
    /\ (forall k t, k <> id -> pm' !! k = Some t ->
          pm !! k = Some t /\ nowCleanup - t <= MESSAGE_DEDUP_TTL)
    /\ (forall k t, k <> id -> pm !! k = Some t ->
          nowCleanup - t <= MESSAGE_DEDUP_TTL -> pm' !! k = Some t).
Proof.
  cbv zeta. rewrite isMessageProcessed_run. cbv zeta.
  assert (Hother : forall k t,
    evictExpired nowCleanup (processedMessages h) !! k = Some t <->
    processedMessages h !! k = Some t /\ nowCleanup - t <= MESSAGE_DEDUP_TTL).
  { intros k t. rewrite evictExpired_lookup.
    destruct (processedMessages h !! k) as [t'|]; [|by split; [|intros []]].
    destruct (decide (nowCleanup - t' > MESSAGE_DEDUP_TTL)).
    - split; [done|]. intros [[= ->] ?]. lia.
    - split; [intros [= ->]; split; [done | lia] | by intros [? _]]. }
  destruct (evictExpired nowCleanup (processedMessages h) !! id) as [t|] eqn:Hid.
  - exists true. cbn [isSome effects heap completion this processedMessages].
    apply Hother in Hid as Hid'. destruct Hid' as [Hpm Hlive].
    split_and!; try done.
    + split; [intros _; by exists t | done].
    + intros _. by rewrite Hid, Hpm.
    + intros k t' _ Hk. by apply Hother.
    + intros k t' _ Hk Hl. by apply Hother.
  - exists false. cbn [isSome effects heap completion this processedMessages].
    split_and!; try done.
    + split; [done|]. intros (t & Hpm & Hlive).
      assert (Hsome : evictExpired nowCleanup (processedMessages h) !! id = Some t)
        by (by apply Hother).
      congruence.
    + intros _. by rewrite lookup_insert_eq.
    + intros k t' Hne Hk. rewrite lookup_insert_ne in Hk by done. by apply Hother.
    + intros k t' Hne Hk Hl. rewrite lookup_insert_ne by done. by apply Hother.
Qed.
